(** * MCX image sorter: the classification thread and the theme colour engine

    A shallow embedding of the parts of the application that carry logic:

    - [_adjust_color] of [ThemeManager] (theme_manager.py, repeated in ml.py),
      on IEEE binary64 numbers, which is what a Python [float] is;
    - [load_model_safely] (classification.py, repeated in ml.py);
    - [ClassificationThread.run] and [process_image], in the two versions the
      repository holds: classification.py (the one main.py imports) and the
      older monolithic ml.py.

    Python strings are [string], Python ints are [Z] or [nat], exceptions are
    values returned on the left of a sum, and the Qt signals a thread emits
    are recorded, in order, as a list.

    Further on come the parts around these: the brightness control
    (brightness_control.py), the settings store with the license
    (license_manager.py) and the recent files (main.py), the rest of
    [ThemeManager] with its stylesheets, the brightness control of the
    settings dialog, and the slots of the main window that receive the
    signals of the thread. *)

From Stdlib Require Import ZArith String Ascii Floats.
From stdpp Require Import base list strings pretty gmap.

Local Open Scope string_scope.

(** ** Python built-ins the code relies on *)

Module Py.

(** An exception object: its class name and [str(e)]. *)
Record exception := Exception { exc_type : string; exc_msg : string }.

Definition str (e : exception) : string := exc_msg e.

(** [needle in s] on strings. *)
Fixpoint contains (needle s : string) : bool :=
  String.prefix needle s
  || match s with
     | EmptyString => false
     | String _ s' => contains needle s'
     end.

(** [s.lstrip('#')]. *)
Fixpoint lstrip_hash (s : string) : string :=
  match s with
  | String "#" s' => lstrip_hash s'
  | _ => s
  end.

(** [s[i:j]] for non-negative [i] and [j]: slices never raise, they
    truncate. *)
Definition slice (s : string) (i j : nat) : string :=
  String.substring i (j - i) s.

Definition hex_digit (c : ascii) : option Z :=
  let n := Z.of_N (N_of_ascii c) in
  (if (48 <=? n) && (n <=? 57) then Some (n - 48)
   else if (97 <=? n) && (n <=? 102) then Some (n - 87)
   else if (65 <=? n) && (n <=? 70) then Some (n - 55)
   else None)%Z.

Fixpoint int16_digits (acc : Z) (s : string) : option Z :=
  match s with
  | EmptyString => Some acc
  | String c s' =>
      match hex_digit c with
      | Some d => int16_digits (16 * acc + d)%Z s'
      | None => None
      end
  end.

(** [int(s, 16)] on a string of hexadecimal digits; [None] is ValueError.
    (Python also accepts a sign, surrounding blanks, a [0x] prefix and
    single underscores; they do not occur in the colours handled here and
    are read as errors.) *)
Definition int16 (s : string) : option Z :=
  match s with
  | EmptyString => None
  | _ => int16_digits 0 s
  end.

Definition hex_char (d : Z) : ascii :=
  (if d <? 10 then ascii_of_N (Z.to_N (48 + d))
   else ascii_of_N (Z.to_N (87 + d)))%Z.

Fixpoint hex_digits (fuel : nat) (n : Z) (acc : string) : string :=
  match fuel with
  | O => acc
  | S k =>
      let acc' := String (hex_char (n mod 16)%Z) acc in
      if (n <? 16)%Z then acc' else hex_digits k (n / 16)%Z acc'
  end.

(** [format(n, 'x')] for [0 <= n]: a number below [2 ^ k] has at most [k]
    hexadecimal digits, so the fuel is enough. *)
Definition hex (n : Z) : string :=
  hex_digits (S (Z.to_nat (Z.log2 n))) n EmptyString.

(** [f"{n:02x}"]: lowercase hexadecimal, zero-padded to width two; the sign
    of a negative number counts in the width. *)
Definition format_02x (n : Z) : string :=
  if (n <? 0)%Z then String "-" (hex (- n))
  else if (n <? 16)%Z then String "0" (hex n)
  else hex n.

(** [float(n)] for an int in the range where the conversion is exact and
    the machine integer holds it ([0 <= n < 2^53]); every int the colour
    code converts is between 0 and 255. *)
Definition float_of_int (n : Z) : float :=
  PrimFloat.of_uint63 (Uint63.of_Z n).

(** [int(x)] on a float: truncation toward zero; [None] stands for the
    OverflowError and ValueError raised on an infinity and on NaN. *)
Definition int_of_float (x : float) : option Z :=
  match Prim2SF x with
  | S754_zero _ => Some 0
  | S754_finite s m e =>
      let a := if 0 <=? e then Z.pos m * 2 ^ e else Z.pos m / 2 ^ (- e) in
      Some (if s then - a else a)
  | S754_infinity _ | S754_nan => None
  end%Z.

(** [range(start, stop, step)] for a non-negative step; a zero step raises
    ValueError. *)
Fixpoint range_from (fuel start stop step : nat) : list nat :=
  match fuel with
  | O => []
  | S k =>
      if decide (start < stop)
      then start :: range_from k (start + step) stop step
      else []
  end.

Definition range (start stop step : nat) : exception + list nat :=
  match step with
  | O => inl (Exception "ValueError" "range() arg 3 must not be zero")
  | S _ => inr (range_from (stop - start) start stop step)
  end.

(** [os.path.join(a, b)] and [os.path.basename(p)] of posixpath. *)
Definition ends_with_slash (s : string) : bool :=
  match String.rev s with (* last character *)
  | String "/" _ => true
  | _ => false
  end.

Definition path_join (a b : string) : string :=
  match b with
  | String "/" _ => b
  | _ =>
      match a with
      | EmptyString => b
      | _ => if ends_with_slash a then a +:+ b else a +:+ "/" +:+ b
      end
  end.

Fixpoint basename_aux (s acc : string) : string :=
  match s with
  | EmptyString => acc
  | String "/" s' => basename_aux s' EmptyString
  | String c s' => basename_aux s' (acc +:+ String c EmptyString)
  end.

Definition basename (p : string) : string := basename_aux p EmptyString.

End Py.

(** ** theme_manager.py: [ThemeManager._adjust_color]

    The same function, character for character, is in ml.py. *)

Module ThemeManager.

(** [brightness_factor = self.brightness / 100.0] in [apply_theme], the only
    caller; [self.brightness] is the integer percentage of the slider, which
    runs from 50 to 150. *)
Definition brightness_factor (brightness : Z) : float :=
  (Py.float_of_int brightness / 100)%float.

(** [hex_color.lstrip('#')] and
    [tuple(int(hex_color[i:i+2], 16) for i in (0, 2, 4))]. *)
Definition parse_rgb (hex_color : string) : option (Z * Z * Z) :=
  let hex_color := Py.lstrip_hash hex_color in
  r ← Py.int16 (Py.slice hex_color 0 2);
  g ← Py.int16 (Py.slice hex_color 2 4);
  b ← Py.int16 (Py.slice hex_color 4 6);
  Some (r, g, b).

(** [int(c * brightness_factor)] *)
Definition darken (c : Z) (brightness_factor : float) : option Z :=
  Py.int_of_float (Py.float_of_int c * brightness_factor)%float.

(** [int(min(c + (255 - c) * (brightness_factor - 1), 255))]: [min] keeps its
    first argument unless the second is strictly smaller. *)
Definition lighten (c : Z) (brightness_factor : float) : option Z :=
  let x :=
    (Py.float_of_int c
     + Py.float_of_int (255 - c) * (brightness_factor - 1))%float in
  if (255 <? x)%float then Some 255%Z else Py.int_of_float x.

Definition format_rgb (r g b : Z) : string :=
  "#" +:+ Py.format_02x r +:+ Py.format_02x g +:+ Py.format_02x b.

Definition adjust_color (hex_color : string) (brightness_factor : float)
  : option string :=
  '(r, g, b) ← parse_rgb hex_color;
  if (brightness_factor <? 1)%float then
    r ← darken r brightness_factor;
    g ← darken g brightness_factor;
    b ← darken b brightness_factor;
    Some (format_rgb r g b)
  else if (1 <? brightness_factor)%float then
    r ← lighten r brightness_factor;
    g ← lighten g brightness_factor;
    b ← lighten b brightness_factor;
    Some (format_rgb r g b)
  else Some (format_rgb r g b).

(** *** The vocabulary of the colour properties *)

Definition is_hex_digit (c : ascii) : bool := bool_decide (is_Some (Py.hex_digit c)).

Definition is_lower_hex_digit (c : ascii) : bool :=
  let n := Z.of_N (N_of_ascii c) in
  ((48 <=? n) && (n <=? 57) || (97 <=? n) && (n <=? 102))%Z.

(** ['#'] followed by six characters that all satisfy [digit]. *)
Definition hash_and_six (digit : ascii → bool) (s : string) : bool :=
  match s with
  | String "#" (String a (String b (String c (String d (String e
      (String f EmptyString)))))) =>
      forallb digit [a; b; c; d; e; f]
  | _ => false
  end.

Definition is_hex_color : string → bool := hash_and_six is_hex_digit.
Definition is_lower_hex_color : string → bool := hash_and_six is_lower_hex_digit.

Definition is_byte (c : Z) : Prop := (0 ≤ c ≤ 255)%Z.


(** The channels of the colour [_adjust_color] returns at a brightness
    percentage. *)
Definition adjusted_rgb (hex_color : string) (brightness : Z)
  : option (Z * Z * Z) :=
  adjust_color hex_color (brightness_factor brightness) ≫= parse_rgb.

(** What [f"{v:02x}"] prints for a byte. *)
Definition format_02x_ok (v : Z) : bool :=
  match Py.format_02x v with
  | String a (String b EmptyString) =>
      is_lower_hex_digit a && is_lower_hex_digit b
      && bool_decide (Py.int16 (String a (String b EmptyString)) = Some v)
  | _ => false
  end.

(** One channel through the three branches of [_adjust_color]. *)
Definition adjust_channel (c : Z) (factor : float) : option Z :=
  if (factor <? 1)%float then darken c factor
  else if (1 <? factor)%float then lighten c factor
  else Some c.

(** The channel [c] at the brightness percentages [p], [p + 1], ...,
    [p + n - 1]: every value is defined, they never decrease, they start at
    or above [prev] and end at or below 255. *)
Fixpoint row_ok (c prev p : Z) (n : nat) : bool :=
  match n with
  | O => (prev <=? 255)%Z
  | S k =>
      match adjust_channel c (brightness_factor p) with
      | Some v => (prev <=? v)%Z && row_ok c v (p + 1)%Z k
      | None => false
      end
  end.

End ThemeManager.

(** ** The world around the classification thread

    TensorFlow, PIL, the file system and the scheduler are not part of the
    repository.  What the thread observes of them during one run is gathered
    in a record of answers; the properties below hold for every such
    record. *)

Module World.

(** A decoded PIL image, as far as the code looks at it. *)
Record image := Image { mode : string; size : nat * nat }.

(** [img.convert('RGB')] and [img.resize(size)]. *)
Definition convert (img : image) (mode : string) : image :=
  Image mode (size img).

Definition resize (img : image) (size : nat * nat) : image :=
  Image (mode img) size.

(** A file on disk: a picture PIL can decode, or anything else. *)
Inductive file := Picture (img : image) | Garbage.

(** [Image.open(path)] *)
Definition Image_open (files : gmap string file) (path : string)
  : Py.exception + image :=
  match files !! path with
  | Some (Picture img) => inr img
  | Some Garbage =>
      inl (Py.Exception "UnidentifiedImageError"
             ("cannot identify image file '" +:+ path +:+ "'"))
  | None =>
      inl (Py.Exception "FileNotFoundError"
             ("[Errno 2] No such file or directory: '" +:+ path +:+ "'"))
  end.

(** The signals of [ClassificationThread], the same four in both files. *)
Inductive signal :=
| progress_update (processed total : nat)
| result_update (img_path predicted_class confidence : string)
| finished
| error (msg : string).

(** What [process_image] returns:
    [(img_path, predicted_class, confidence, output_path)]. *)
Definition result : Type := string * string * float * string.

Section environment.
Context {Value Layer Model : Type}.

(** A Keras layer class, seen as its constructor from keyword arguments. *)
Definition layer_class : Type := gmap string Value → Py.exception + Layer.

Record environment := {
  (** [tf.keras.layers.DepthwiseConv2D] *)
  DepthwiseConv2D : layer_class;
  (** [tf.keras.models.load_model(path, custom_objects=..., compile=False)];
      no [custom_objects] argument is the empty dictionary *)
  load_model : string → gmap string layer_class → Py.exception + Model;
  (** the stripped lines of the label file:
      [[line.strip() for line in f.readlines()]], or the error of [open] *)
  read_labels : string → Py.exception + list string;
  (** [glob.glob(pattern, recursive=...)] *)
  glob : string → bool → list string;
  (** the order in which [list(set(l))] lists the elements of [l] *)
  list_set : list string → list string;
  (** [os.makedirs(path, exist_ok=True)]: the error it raises, if any *)
  makedirs : string → option Py.exception;
  (** the files on disk *)
  files : gmap string file;
  (** [model.predict] on the array of an image, followed by [np.argmax] on
      the first row and the reading of that probability *)
  predict : Model → image → Py.exception + (nat * float);
  (** the error of [img.save(path)], if any *)
  save_error : string → option Py.exception;
  (** what [self.process_image(img_path, model, labels)] does to the future
      that runs it in this run: the exception it raises, or the class,
      confidence and output path it returns *)
  outcome : Model → list string → string
            → Py.exception + (string * float * string);
  (** the order in which [as_completed] yields the futures of the batch that
      starts at index [i] *)
  as_completed : nat → list string → list string;
  (** [self.is_running], as the thread reads it: at the top of the batch
      that starts at index [i]; in that batch, when [as_completed] yields
      its [j]-th future; and before it emits its [j]-th result *)
  running_at_batch : nat → bool;
  running_at_future : nat → nat → bool;
  running_at_result : nat → nat → bool;
}.

(** What the libraries guarantee: [list(set(l))] lists the elements of [l]
    once each, and [as_completed] yields every future it was given once. *)
Record environment_ok (env : environment) : Prop := {
  list_set_NoDup : ∀ l, NoDup (list_set env l);
  list_set_elem : ∀ l x, x ∈ list_set env l ↔ x ∈ l;
  as_completed_perm : ∀ i l, as_completed env i l ≡ₚ l;
}.

(** No [stop()] during the run: every read of [is_running] finds [True]. *)
Definition never_stopped (env : environment) : Prop :=
  (∀ i, running_at_batch env i = true)
  ∧ (∀ i j, running_at_future env i j = true)
  ∧ (∀ i j, running_at_result env i j = true).

End environment.

Arguments environment : clear implicits.

(** The arguments of [ClassificationThread.__init__]. *)
Record thread := {
  model_path : string;
  label_path : string;
  input_folders : list string;
  output_folder : string;
  batch_size : nat;
}.

Definition two_digits (n : Z) : string :=
  if (n <? 10)%Z then "0" +:+ pretty n else pretty n.

(** [f"{x:.2f}"]: the decimal with two places nearest to the exact value of
    the float, ties to the even one. *)
Definition format_2f (x : float) : string :=
  match Prim2SF x with
  | S754_nan => "nan"
  | S754_infinity s => if s then "-inf" else "inf"
  | S754_zero s => if s then "-0.00" else "0.00"
  | S754_finite s m e =>
      let num := (if 0 <=? e then Z.pos m * 2 ^ e * 100 else Z.pos m * 100)%Z in
      let den := (if 0 <=? e then 1 else 2 ^ (- e))%Z in
      let q := (num / den)%Z in
      let r := (num mod den)%Z in
      let n :=
        (if 2 * r <? den then q
         else if den <? 2 * r then q + 1
         else if Z.even q then q else q + 1)%Z in
      (if s then "-" else "")
      +:+ pretty (n / 100)%Z +:+ "." +:+ two_digits (n mod 100)%Z
  end.

End World.

(** ** classification.py (and ml.py): [load_model_safely] *)

Module ModelLoader.
Import World.

(** [needle] occurs in [s]. *)
Definition substring_of (needle s : string) : Prop :=
  ∃ before after, s = before +:+ needle +:+ after.

Section load_model_safely.
Context {Value Layer Model : Type} (env : environment Value Layer Model).

(** [class CustomDepthwiseConv2D(tf.keras.layers.DepthwiseConv2D)]: its
    [__init__] deletes ['groups'] from the keyword arguments, if it is there,
    and calls the constructor of the base class. *)
Definition CustomDepthwiseConv2D : layer_class :=
  λ kwargs, DepthwiseConv2D env (delete "groups" kwargs).

(** The [custom_objects] of the second attempt. *)
Definition custom_objects : gmap string layer_class :=
  {[ "DepthwiseConv2D" := CustomDepthwiseConv2D ]}.

(** The result of [load_model_safely(model_path)] (the model, or the
    exception that leaves the function), after the list of [custom_objects]
    of the calls of [load_model] it made, in order. *)
Definition load_model_safely (model_path : string)
  : list (gmap string layer_class) * (Py.exception + Model) :=
  match load_model env model_path ∅ with
  | inr model => ([∅], inr model)
  | inl e =>
      let error_str := Py.str e in
      if Py.contains "DepthwiseConv2D" error_str
         && Py.contains "groups" error_str
      then ([∅; custom_objects], load_model env model_path custom_objects)
      else ([∅], inl e)
  end.

(** The first attempt failed with the known message. *)
Definition known_defect (model_path : string) : Prop :=
  ∃ e, load_model env model_path ∅ = inl e
       ∧ substring_of "DepthwiseConv2D" (Py.str e)
       ∧ substring_of "groups" (Py.str e).

End load_model_safely.

End ModelLoader.

(** ** classification.py: [ClassificationThread] *)

Module Classification.
Import World.

Section thread.
Context {Value Layer Model : Type} (env : environment Value Layer Model).
Context (self : thread).

(** [process_image]: the files on disk afterwards, and the tuple returned or
    the exception raised (the [except] clause raises it again). *)
Definition process_image (files : gmap string file) (img_path : string)
    (model : Model) (labels : list string)
  : gmap string file * (Py.exception + result) :=
  match Image_open files img_path with
  | inl e => (files, inl e)
  | inr opened =>
      let img := convert opened "RGB" in
      let img_resized := resize img (224, 224) in
      match predict env model img_resized with
      | inl e => (files, inl e)
      | inr (predicted_class_idx, confidence) =>
          match labels !! predicted_class_idx with
          | None =>
              (files, inl (Py.Exception "IndexError" "list index out of range"))
          | Some predicted_class =>
              let class_folder :=
                Py.path_join (output_folder self) predicted_class in
              let filename := Py.basename img_path in
              let output_path := Py.path_join class_folder filename in
              match save_error env output_path with
              | Some e => (files, inl e)
              | None =>
                  (<[output_path := Picture img]> files,
                   inr (img_path, predicted_class, confidence, output_path))
              end
          end
      end
  end.

(** The image files of the input folders, without duplicates. *)
Definition discover : list string :=
  list_set env
    (folder ← input_folders self;
     ext ← ["*.jpg"; "*.jpeg"; "*.png"; "*.bmp"];
     (glob env (Py.path_join folder ext) false
      ++ glob env (Py.path_join (Py.path_join folder "**") ext) true)%list).

(** The loop that creates one output folder per class. *)
Fixpoint make_class_folders (labels : list string) : option Py.exception :=
  match labels with
  | [] => None
  | class_name :: labels =>
      match makedirs env (Py.path_join (output_folder self) class_name) with
      | Some e => Some e
      | None => make_class_folders labels
      end
  end.

(** The statements of [run] before the batch loop: the model, the labels and
    the image files, or the first exception. *)
Definition setup : Py.exception + (Model * list string * list string) :=
  match (ModelLoader.load_model_safely env (model_path self)).2 with
  | inl e => inl e
  | inr model =>
      match read_labels env (label_path self) with
      | inl e => inl e
      | inr labels =>
          let image_files := discover in
          match make_class_folders labels with
          | Some e => inl e
          | None => inr (model, labels, image_files)
          end
      end
  end.

Section batches.
Context (model : Model) (labels image_files : list string).

Definition total_files : nat := length image_files.

(** [image_files[i : i + self.batch_size]] *)
Definition batch_files (i : nat) : list string :=
  take (batch_size self) (drop i image_files).

(** [for future in as_completed(future_to_img_path)], from its [j]-th
    iteration on: the results appended to [batch_results] and the signals
    emitted.  On a stop the futures left are cancelled and the loop ends:
    nothing of them is looked at any more. *)
Fixpoint drain (i j : nat) (futures : list string)
  : list result * list signal :=
  match futures with
  | [] => ([], [])
  | img_path :: futures =>
      if running_at_future env i j then
        let '(batch_results, signals) := drain i (S j) futures in
        match outcome env model labels img_path with
        | inr (predicted_class, confidence, output_path) =>
            ((img_path, predicted_class, confidence, output_path)
               :: batch_results,
             signals)
        | inl exc =>
            (batch_results,
             error ("Error processing " +:+ Py.basename img_path +:+ ": "
                    +:+ Py.str exc)
               :: signals)
        end
      else ([], [])
  end.

(** [for result in batch_results], from its [j]-th iteration on: the new
    value of [processed_count] and the signals emitted. *)
Fixpoint report (i j : nat) (batch_results : list result)
    (processed_count : nat) : nat * list signal :=
  match batch_results with
  | [] => (processed_count, [])
  | (img_path, predicted_class, confidence, _) :: batch_results =>
      if running_at_result env i j then
        let processed_count := S processed_count in
        let '(n, signals) := report i (S j) batch_results processed_count in
        (n,
         result_update img_path predicted_class (format_2f confidence)
           :: progress_update processed_count total_files :: signals)
      else (processed_count, [])
  end.

(** [for i in range(0, total_files, self.batch_size)], over the values of
    [i] still to come. *)
Fixpoint batch_loop (starts : list nat) (processed_count : nat)
  : list signal :=
  match starts with
  | [] => []
  | i :: starts =>
      if running_at_batch env i then
        let '(batch_results, signals1) :=
          drain i 0 (as_completed env i (batch_files i)) in
        let '(processed_count, signals2) :=
          report i 0 batch_results processed_count in
        (signals1 ++ signals2 ++ batch_loop starts processed_count)%list
      else []
  end.

End batches.

(** [run]: the signals the thread emits, in order. *)
Definition run : list signal :=
  let fatal e :=
    [error ("Error in classification setup: " +:+ Py.str e); finished] in
  match setup with
  | inl e => fatal e
  | inr (model, labels, image_files) =>
      match Py.range 0 (total_files image_files) (batch_size self) with
      | inl e => fatal e
      | inr starts =>
          (batch_loop model labels image_files starts 0 ++ [finished])%list
      end
  end.

End thread.
End Classification.

(** ** ml.py: [ClassificationThread], the older copy *)

Module Ml.
Import World.

Section thread.
Context {Value Layer Model : Type} (env : environment Value Layer Model).
Context (self : thread).

(** [process_image]: the files on disk afterwards, the signal emitted by the
    [except] clause, and the value returned ([None] after an exception).
    The name [img] is bound a second time to the resized image, and that is
    the image saved. *)
Definition process_image (files : gmap string file) (img_path : string)
    (model : Model) (labels : list string)
  : gmap string file * list signal * option result :=
  let except e :=
    (files,
     [error ("Error processing " +:+ img_path +:+ ": " +:+ Py.str e)],
     None) in
  match Image_open files img_path with
  | inl e => except e
  | inr opened =>
      let img := convert opened "RGB" in
      let img := resize img (224, 224) in
      match predict env model img with
      | inl e => except e
      | inr (predicted_class_idx, confidence) =>
          match labels !! predicted_class_idx with
          | None =>
              except (Py.Exception "IndexError" "list index out of range")
          | Some predicted_class =>
              let class_folder :=
                Py.path_join (output_folder self) predicted_class in
              let filename := Py.basename img_path in
              let output_path := Py.path_join class_folder filename in
              match save_error env output_path with
              | Some e => except e
              | None =>
                  (<[output_path := Picture img]> files, [],
                   Some (img_path, predicted_class, confidence, output_path))
              end
          end
      end
  end.

Definition discover : list string :=
  list_set env
    (folder ← input_folders self;
     ext ← ["*.jpg"; "*.jpeg"; "*.png"; "*.bmp"];
     (glob env (Py.path_join folder ext) false
      ++ glob env (Py.path_join (Py.path_join folder "**") ext) true)%list).

Fixpoint make_class_folders (labels : list string) : option Py.exception :=
  match labels with
  | [] => None
  | class_name :: labels =>
      match makedirs env (Py.path_join (output_folder self) class_name) with
      | Some e => Some e
      | None => make_class_folders labels
      end
  end.

Definition setup : Py.exception + (Model * list string * list string) :=
  match (ModelLoader.load_model_safely env (model_path self)).2 with
  | inl e => inl e
  | inr model =>
      match read_labels env (label_path self) with
      | inl e => inl e
      | inr labels =>
          let image_files := discover in
          match make_class_folders labels with
          | Some e => inl e
          | None => inr (model, labels, image_files)
          end
      end
  end.

Section batches.
Context (model : Model) (labels image_files : list string).

Definition total_files : nat := length image_files.

Definition batch_files (i : nat) : list string :=
  take (batch_size self) (drop i image_files).

(** What the worker running [process_image] on [img_path] emits itself. *)
Definition worker_signals (img_path : string) : list signal :=
  match outcome env model labels img_path with
  | inl e => [error ("Error processing " +:+ img_path +:+ ": " +:+ Py.str e)]
  | inr _ => []
  end.

(** [for future in as_completed(futures)], from its [j]-th iteration on: the
    new value of [processed], the results appended to [batch_results] and
    the signals emitted.  The error signal of a worker is put where its
    future is yielded.  Nothing is cancelled here: after a [break] the
    executor still waits for every future of the batch, so the workers left
    emit their errors too. *)
Fixpoint drain (i j : nat) (futures : list string) (processed : nat)
  : nat * list result * list signal :=
  match futures with
  | [] => (processed, [], [])
  | img_path :: futures =>
      let worker := worker_signals img_path in
      if running_at_future env i j then
        match outcome env model labels img_path with
        | inr (predicted_class, confidence, output_path) =>
            let processed := S processed in
            let '(n, batch_results, signals) :=
              drain i (S j) futures processed in
            (n,
             (img_path, predicted_class, confidence, output_path)
               :: batch_results,
             (worker ++ progress_update processed total_files :: signals)%list)
        | inl _ =>
            let '(n, batch_results, signals) :=
              drain i (S j) futures processed in
            (n, batch_results, (worker ++ signals)%list)
        end
      else (processed, [], (worker ++ (futures ≫= worker_signals))%list)
  end.

(** [for result in batch_results], from its [j]-th iteration on. *)
Fixpoint report (i j : nat) (batch_results : list result) : list signal :=
  match batch_results with
  | [] => []
  | (img_path, predicted_class, confidence, _) :: batch_results =>
      if running_at_result env i j then
        result_update img_path predicted_class (format_2f confidence)
          :: report i (S j) batch_results
      else []
  end.

Fixpoint batch_loop (starts : list nat) (processed : nat) : list signal :=
  match starts with
  | [] => []
  | i :: starts =>
      if running_at_batch env i then
        let '(processed, batch_results, signals) :=
          drain i 0 (as_completed env i (batch_files i)) processed in
        (signals ++ report i 0 batch_results
         ++ batch_loop starts processed)%list
      else []
  end.

End batches.

(** [run]: the signals the thread emits, in order. *)
Definition run : list signal :=
  let fatal e :=
    [error ("Error in classification process: " +:+ Py.str e); finished] in
  match setup with
  | inl e => fatal e
  | inr (model, labels, image_files) =>
      match Py.range 0 (total_files image_files) (batch_size self) with
      | inl e => fatal e
      | inr starts =>
          (batch_loop model labels image_files starts 0 ++ [finished])%list
      end
  end.

End thread.
End Ml.

(** ** The vocabulary of the properties of a run *)

Module Trace.
Import World.

Global Instance signal_eq_dec : EqDecision signal.
Proof. solve_decision. Defined.

(** How many times [finished] was emitted. *)
Definition finished_count (signals : list signal) : nat :=
  length (filter (λ s, s = finished) signals).

(** The arguments of the [progress_update] emissions, in order. *)
Definition progress_of (signals : list signal) : list (nat * nat) :=
  omap (λ s, match s with
             | progress_update processed total => Some (processed, total)
             | _ => None
             end) signals.

(** The images for which a [result_update] was emitted, in order. *)
Definition results_of (signals : list signal) : list string :=
  omap (λ s, match s with
             | result_update img_path _ _ => Some img_path
             | _ => None
             end) signals.

(** The error signal for one image, which is named by [name]. *)
Definition processing_error (name : string) (e : Py.exception) : signal :=
  error ("Error processing " +:+ name +:+ ": " +:+ Py.str e).

(** The slice [l[i : i + B]]. *)
Definition chunk {A} (l : list A) (B i : nat) : list A := take B (drop i l).

(** The smallest [n] with [N ≤ n * B]. *)
Definition ceil_div (N B : nat) : nat := (N + B - 1) / B.

Section outcomes.
Context {Value Layer Model : Type} (env : environment Value Layer Model).
Context (model : Model) (labels : list string).

(** [process_image] fails on this image. *)
Definition fails (img_path : string) : Prop :=
  is_Some (match outcome env model labels img_path with
           | inl e => Some e
           | inr _ => None
           end).

Global Instance fails_dec img_path : Decision (fails img_path).
Proof. unfold fails. apply _. Defined.

(** How many of the images fail, and how many do not. *)
Definition failures (image_files : list string) : nat :=
  length (filter fails image_files).

Definition successes (image_files : list string) : nat :=
  length (filter (λ img_path, ¬ fails img_path) image_files).

(** What the future of an image hands over when its turn comes: the tuple
    [process_image] returned, or the error signal, in which the image is
    named by [name]. *)
Definition result_of (img_path : string) : option result :=
  match outcome env model labels img_path with
  | inr (predicted_class, confidence, output_path) =>
      Some (img_path, predicted_class, confidence, output_path)
  | inl _ => None
  end.

Definition error_of (name : string → string) (img_path : string)
  : option signal :=
  match outcome env model labels img_path with
  | inr _ => None
  | inl e => Some (processing_error (name img_path) e)
  end.

(** A signal of the batch loop over [image_files]: a progress report out of
    their number, the result of one of them, or the error of one of them. *)
Definition image_signal (name : string → string) (image_files : list string)
    (s : signal) : Prop :=
  match s with
  | progress_update _ total => total = length image_files
  | result_update img_path predicted_class confidence =>
      ∃ c o, img_path ∈ image_files
             ∧ outcome env model labels img_path = inr (predicted_class, c, o)
             ∧ confidence = format_2f c
  | error _ =>
      ∃ img_path e, img_path ∈ image_files
                    ∧ outcome env model labels img_path = inl e
                    ∧ s = processing_error (name img_path) e
  | finished => False
  end.

End outcomes.
End Trace.

(** ** A run to try the definitions on

    One input folder with five images, the second of which is not a
    picture; two classes; batches of two. *)

Module Example.
Import World.

Definition self : thread := {|
  model_path := "model.h5";
  label_path := "labels.txt";
  input_folders := ["in"];
  output_folder := "out";
  batch_size := 2;
|}.

Definition pictures : gmap string file :=
  {[ "in/a.jpg" := Picture (Image "L" (640, 480));
     "in/b.jpg" := Garbage;
     "in/c.jpg" := Picture (Image "RGB" (224, 224));
     "in/d.png" := Picture (Image "RGBA" (32, 32));
     "in/e.bmp" := Picture (Image "RGB" (1024, 768)) ]}.

Definition matches (pattern : string) : list string :=
  if decide (pattern = "in/*.jpg" ∨ pattern = "in/**/*.jpg")
  then ["in/a.jpg"; "in/b.jpg"; "in/c.jpg"]
  else if decide (pattern = "in/*.png" ∨ pattern = "in/**/*.png")
  then ["in/d.png"]
  else if decide (pattern = "in/*.bmp" ∨ pattern = "in/**/*.bmp")
  then ["in/e.bmp"]
  else [].

(** The environment, up to how the images fare and when the thread is
    stopped.  Every picture is a cat, with probability 0.875; the futures of
    a batch complete in the reverse order of their submission. *)
Definition environment_with
    (outcome : unit → list string → string
               → Py.exception + (string * float * string))
    (running_at_batch : nat → bool) : environment unit unit unit := {|
  DepthwiseConv2D := λ _, inr tt;
  load_model := λ _ _, inr tt;
  read_labels := λ _, inr ["cat"; "dog"];
  glob := λ pattern _, matches pattern;
  list_set := remove_dups;
  makedirs := λ _, None;
  files := pictures;
  predict := λ _ _, inr (0, 0.875%float);
  save_error := λ _, None;
  outcome := outcome;
  as_completed := λ _, reverse;
  running_at_batch := running_at_batch;
  running_at_future := λ _ _, true;
  running_at_result := λ _ _, true;
|}.

(** The images fare as [process_image] of classification.py says. *)
Definition outcome (model : unit) (labels : list string) (img_path : string)
  : Py.exception + (string * float * string) :=
  let env :=
    environment_with (λ _ _ _, inl (Py.Exception "KeyError" "unused"))
      (λ _, true) in
  match (Classification.process_image env self pictures img_path model labels).2
  with
  | inl e => inl e
  | inr (_, predicted_class, confidence, output_path) =>
      inr (predicted_class, confidence, output_path)
  end.

(** What the set-up finds: the labels and the images. *)
Definition labels : list string := ["cat"; "dog"].

Definition image_files : list string :=
  ["in/a.jpg"; "in/b.jpg"; "in/c.jpg"; "in/d.png"; "in/e.bmp"].

(** A run that nobody stops, and a run in which [stop()] is called after
    the first batch and before the second. *)
Definition env : environment unit unit unit :=
  environment_with outcome (λ _, true).

Definition env_stopped : environment unit unit unit :=
  environment_with outcome (λ i, bool_decide (i < 2)).

End Example.


(** ** brightness_control.py (and ml.py): [BrightnessControl]

    The widget is a [QSlider] between 50 and 150 with a label and three
    buttons.  What Qt does is written out: [QSlider.setValue] bounds its
    argument to the range of the slider and emits [valueChanged] when, and
    only when, the value of the slider changes; [valueChanged] is connected
    to [on_value_changed]. *)

Module BrightnessControl.

(** The slider's value and the text of [value_label]. *)
Record widget := Widget { slider_value : Z; value_label : string }.

(** [self.slider.setMinimum(50)], [self.slider.setMaximum(150)] *)
Definition minimum : Z := 50.
Definition maximum : Z := 150.

(** Qt's [qBound(minimum, value, maximum)]. *)
Definition bound (value : Z) : Z := Z.max minimum (Z.min value maximum).

(** [__init__]: the label is made from [initial_value] as it is given; the
    slider bounds it; [valueChanged] is connected after [setValue], so
    nothing is emitted and the label is not written again. *)
Definition init (initial_value : Z) : widget :=
  {| slider_value := bound initial_value;
     value_label := pretty initial_value +:+ "%" |}.

(** [on_value_changed(value)]: the label, and [brightnessChanged(value)]. *)
Definition on_value_changed (value : Z) (w : widget) : widget * list Z :=
  ({| slider_value := slider_value w; value_label := pretty value +:+ "%" |},
   [value]).

(** [self.slider.setValue(value)], with the slot it triggers: the widget
    afterwards and the values emitted through [brightnessChanged]. *)
Definition setValue (value : Z) (w : widget) : widget * list Z :=
  let value := bound value in
  if decide (value = slider_value w) then (w, [])
  else
    on_value_changed value
      {| slider_value := value; value_label := value_label w |}.

Definition on_dim_clicked (w : widget) : widget * list Z :=
  let current_value := slider_value w in
  let new_value := Z.max (current_value - 10) minimum in
  setValue new_value w.

Definition on_reset_clicked (w : widget) : widget * list Z := setValue 100 w.

Definition on_bright_clicked (w : widget) : widget * list Z :=
  let current_value := slider_value w in
  let new_value := Z.min (current_value + 10) maximum in
  setValue new_value w.

Definition get_brightness (w : widget) : Z := slider_value w.

Definition set_brightness (value : Z) (w : widget) : widget * list Z :=
  setValue value w.

(** What is done to the widget: a click on one of the buttons, or a call of
    [set_brightness]. *)
Inductive event :=
| DimClicked
| ResetClicked
| BrightClicked
| SetBrightness (value : Z).

Definition handle (e : event) (w : widget) : widget * list Z :=
  match e with
  | DimClicked => on_dim_clicked w
  | ResetClicked => on_reset_clicked w
  | BrightClicked => on_bright_clicked w
  | SetBrightness value => set_brightness value w
  end.

(** A sequence of events: the widget at the end and everything emitted. *)
Fixpoint handle_all (events : list event) (w : widget) : widget * list Z :=
  match events with
  | [] => (w, [])
  | e :: events =>
      let '(w, emitted) := handle e w in
      let '(w', emitted') := handle_all events w in
      (w', (emitted ++ emitted')%list)
  end.

(** The value is one the slider can hold, and the label shows the value of
    the slider. *)
Definition in_range (value : Z) : Prop := (minimum ≤ value ≤ maximum)%Z.

Definition in_sync (w : widget) : Prop :=
  value_label w = pretty (slider_value w) +:+ "%".

End BrightnessControl.


(** ** The settings store

    [QSettings] as the application uses it: [value(key, default)] and
    [setValue(key, value)] on strings, ints and lists of strings.  The code
    never relies on the type in which Qt hands a stored value back; where it
    matters it tests the type itself. *)

Module QSettings.

Inductive value :=
| Str (s : string)
| Int (n : Z)
| List (l : list string).

Global Instance value_eq_dec : EqDecision value.
Proof. solve_decision. Defined.

Abbreviation settings := (gmap string value).

(** The truth value Python gives an object in [if x:]. *)
Definition truthy (v : value) : bool :=
  match v with
  | Str s => negb (bool_decide (s = EmptyString))
  | Int n => negb (bool_decide (n = 0%Z))
  | List l => negb (bool_decide (l = []))
  end.

End QSettings.

(** ** license_manager.py (and ml.py): [LicenseManager] *)

Module LicenseManager.
Import QSettings.

Section license.
(** [hashlib.sha256(data).hexdigest()] *)
Context (sha256_hexdigest : string → string).

Definition correct_key : string := "D1QE80fxUUVcNs4VAAOvNNkJvHHy0dWM".

(** [_hash_key(key)]: the digest of the key followed by the salt. *)
Definition hash_key (key : string) : string :=
  let salt := "DotminiMCX_salt" in
  let key_bytes := key in
  sha256_hexdigest (key_bytes +:+ salt).

(** [is_valid_license()].  A stored key that is not a string has no
    [encode]: [_hash_key] raises AttributeError. *)
Definition is_valid_license (st : settings) : Py.exception + bool :=
  let saved_key := st !! "license/key" in
  let saved_hash := st !! "license/hash" in
  match saved_key, saved_hash with
  | Some saved_key, Some saved_hash =>
      if truthy saved_key && truthy saved_hash then
        match saved_key with
        | Str key =>
            let computed_hash := hash_key key in
            if bool_decide (Str computed_hash = saved_hash)
               && bool_decide (key = correct_key)
            then inr true
            else inr false
        | Int _ =>
            inl (Py.Exception "AttributeError"
                   "'int' object has no attribute 'encode'")
        | List _ =>
            inl (Py.Exception "AttributeError"
                   "'list' object has no attribute 'encode'")
        end
      else inr false
  | _, _ => inr false
  end.

(** [save_license(key)]: the settings afterwards and the value returned. *)
Definition save_license (st : settings) (key : string) : settings * bool :=
  if bool_decide (key = correct_key) then
    let key_hash := hash_key key in
    (<["license/hash" := Str key_hash]> (<["license/key" := Str key]> st),
     true)
  else (st, false).

End license.
End LicenseManager.

(** ** main.py (and ml.py): the recent files of [DotminiMCX] *)

Module RecentFiles.
Import QSettings.

(** [self.settings.value("recent/paths", [])], replaced by [[]] when it is
    not a list. *)
Definition recent_paths (st : settings) : list string :=
  match st !! "recent/paths" with
  | Some (List l) => l
  | _ => []
  end.

(** [l.remove(x)] for an [x] that is in [l]: the first occurrence goes. *)
Fixpoint remove (x : string) (l : list string) : list string :=
  match l with
  | [] => []
  | y :: l => if decide (y = x) then l else y :: remove x l
  end.

(** An entry of the menu: an action with its text, its data and whether it
    is enabled, or a separator. *)
Inductive menu_item :=
| Action (text : string) (data : option string) (enabled : bool)
| Separator.

(** [update_recent_menu()]: the entries of the menu, rebuilt from the
    settings. *)
Definition update_recent_menu (st : settings) : list menu_item :=
  let recent_paths := recent_paths st in
  match recent_paths with
  | [] => [Action "No recent files" None false]
  | _ =>
      (omap (λ path,
               if bool_decide (path = EmptyString) then None
               else
                 let text :=
                   if bool_decide (Py.basename path = EmptyString) then path
                   else Py.basename path in
                 Some (Action text (Some path) true))
         recent_paths
       ++ [Separator; Action "Clear Recent Files" None true])%list
  end.

(** [add_to_recent_files(path)]: the settings and the menu afterwards;
    [None] for the menu when the method returns before touching it. *)
Definition add_to_recent_files (st : settings) (path : string)
  : settings * option (list menu_item) :=
  if bool_decide (path = EmptyString) then (st, None)
  else
    let recent_paths := recent_paths st in
    let recent_paths :=
      if bool_decide (path ∈ recent_paths) then remove path recent_paths
      else recent_paths in
    let recent_paths := path :: recent_paths in
    let recent_paths := take 10 recent_paths in
    let st := <["recent/paths" := List recent_paths]> st in
    (st, Some (update_recent_menu st)).

(** [clear_recent_files()] *)
Definition clear_recent_files (st : settings)
  : settings * list menu_item :=
  let st := <["recent/paths" := List []]> st in
  (st, update_recent_menu st).

End RecentFiles.


(** ** theme_manager.py: the rest of [ThemeManager]

    The manager with what it acts on: the settings store, the stylesheets
    it hands to [app.setStyleSheet], the main window it may be linked to,
    and the theme of the system as [darkdetect.isDark()] reports it.  An
    operation returns [None] when it raises (the only statement that can is
    [_adjust_color], inside [apply_theme]). *)

Module Theme.
Import QSettings.

(** The stylesheet of the dark theme, the f-string of [apply_theme] with its
    nine colours. *)
Definition dark_stylesheet
    (bg_color card_bg_color input_bg_color text_color secondary_text accent_color accent_hover accent_pressed border_color : string)
  : string :=
  "
                QMainWindow, QDialog, QWidget#splashContent {
                    background-color: "
  +:+ bg_color
  +:+ ";
                }
                QLabel {
                    color: "
  +:+ text_color
  +:+ ";
                    font-family: 'SF Pro Display', 'Helvetica Neue', Arial, sans-serif;
                }
                QLineEdit, QComboBox, QListWidget {
                    padding: 8px;
                    border-radius: 6px;
                    background-color: "
  +:+ input_bg_color
  +:+ ";
                    color: "
  +:+ text_color
  +:+ ";
                    border: 1px solid "
  +:+ border_color
  +:+ ";
                    font-size: 13px;
                }
                QPushButton {
                    padding: 10px 15px;
                    border-radius: 6px;
                    background-color: "
  +:+ accent_color
  +:+ ";
                    color: "
  +:+ text_color
  +:+ ";
                    border: none;
                    font-weight: bold;
                    font-size: 13px;
                }
                QPushButton:hover {
                    background-color: "
  +:+ accent_hover
  +:+ ";
                }
                QPushButton:pressed {
                    background-color: "
  +:+ accent_pressed
  +:+ ";
                }
                QPushButton:disabled {
                    background-color: #555555;
                    color: #888888;
                }
                QPushButton#secondaryButton {
                    background-color: "
  +:+ input_bg_color
  +:+ ";
                }
                QPushButton#secondaryButton:hover {
                    background-color: #444444;
                }
                QToolBar {
                    background-color: "
  +:+ card_bg_color
  +:+ ";
                    border: none;
                    spacing: 10px;
                    padding: 5px;
                }
                QStatusBar {
                    background-color: "
  +:+ card_bg_color
  +:+ ";
                    color: "
  +:+ secondary_text
  +:+ ";
                    border-top: 1px solid "
  +:+ border_color
  +:+ ";
                }
                QProgressBar {
                    border: none;
                    border-radius: 6px;
                    background-color: "
  +:+ input_bg_color
  +:+ ";
                    text-align: center;
                    color: "
  +:+ text_color
  +:+ ";
                    font-weight: bold;
                }
                QProgressBar::chunk {
                    background-color: "
  +:+ accent_color
  +:+ ";
                    border-radius: 6px;
                }
                QListWidget {
                    background-color: "
  +:+ input_bg_color
  +:+ ";
                    border-radius: 6px;
                    color: "
  +:+ text_color
  +:+ ";
                    padding: 5px;
                }
                QListWidget::item {
                    border-radius: 4px;
                    padding: 8px;
                    margin: 2px 0px;
                }
                QListWidget::item:selected {
                    background-color: "
  +:+ accent_color
  +:+ ";
                }
                QScrollArea {
                    border: none;
                    background-color: "
  +:+ bg_color
  +:+ ";
                }
                QFrame#card {
                    background-color: "
  +:+ card_bg_color
  +:+ ";
                    border-radius: 10px;
                    border: 1px solid "
  +:+ border_color
  +:+ ";
                }
                QFrame#resultItem {
                    background-color: "
  +:+ card_bg_color
  +:+ ";
                    border-radius: 6px;
                    border: 1px solid "
  +:+ border_color
  +:+ ";
                    padding: 10px;
                    margin: 5px;
                }
                QSlider::groove:horizontal {
                    height: 8px;
                    background: #555555;
                    border-radius: 4px;
                }
                QSlider::handle:horizontal {
                    background: "
  +:+ accent_color
  +:+ ";
                    border: none;
                    width: 18px;
                    margin: -5px 0;
                    border-radius: 9px;
                }
                QSlider::add-page:horizontal {
                    background: #555555;
                    border-radius: 4px;
                }
                QSlider::sub-page:horizontal {
                    background: "
  +:+ accent_color
  +:+ ";
                    border-radius: 4px;
                }
                QCheckBox {
                    color: "
  +:+ text_color
  +:+ ";
                }
                QCheckBox::indicator {
                    width: 18px;
                    height: 18px;
                    border-radius: 4px;
                    border: 1px solid "
  +:+ accent_color
  +:+ ";
                }
                QCheckBox::indicator:checked {
                    background-color: "
  +:+ accent_color
  +:+ ";
                }
                QMessageBox {
                    background-color: "
  +:+ bg_color
  +:+ ";
                }
                QMessageBox QLabel {
                    color: "
  +:+ text_color
  +:+ ";
                }
                QMenu {
                    background-color: "
  +:+ card_bg_color
  +:+ ";
                    color: "
  +:+ text_color
  +:+ ";
                    border: 1px solid "
  +:+ border_color
  +:+ ";
                    border-radius: 6px;
                    padding: 5px;
                }
                QMenu::item {
                    padding: 6px 25px 6px 20px;
                    border-radius: 4px;
                }
                QMenu::item:selected {
                    background-color: "
  +:+ accent_color
  +:+ ";
                }
                QMenuBar {
                    background-color: "
  +:+ bg_color
  +:+ ";
                    color: "
  +:+ text_color
  +:+ ";
                }
                QMenuBar::item {
                    padding: 5px 10px;
                    border-radius: 4px;
                }
                QMenuBar::item:selected {
                    background-color: "
  +:+ accent_color
  +:+ ";
                }
                QToolTip {
                    background-color: "
  +:+ card_bg_color
  +:+ ";
                    color: "
  +:+ text_color
  +:+ ";
                    border: 1px solid "
  +:+ border_color
  +:+ ";
                    border-radius: 4px;
                    padding: 5px;
                }
            ".

(** The stylesheet of the light theme. *)
Definition light_stylesheet
    (bg_color card_bg_color input_bg_color text_color secondary_text accent_color accent_hover accent_pressed border_color : string)
  : string :=
  "
                QMainWindow, QDialog, QWidget#splashContent {
                    background-color: "
  +:+ bg_color
  +:+ ";
                }
                QLabel {
                    color: "
  +:+ text_color
  +:+ ";
                    font-family: 'SF Pro Display', 'Helvetica Neue', Arial, sans-serif;
                }
                QLineEdit, QComboBox, QListWidget {
                    padding: 8px;
                    border-radius: 6px;
                    background-color: "
  +:+ input_bg_color
  +:+ ";
                    color: "
  +:+ text_color
  +:+ ";
                    border: 1px solid "
  +:+ border_color
  +:+ ";
                    font-size: 13px;
                }
                QPushButton {
                    padding: 10px 15px;
                    border-radius: 6px;
                    background-color: "
  +:+ accent_color
  +:+ ";
                    color: white;
                    border: none;
                    font-weight: bold;
                    font-size: 13px;
                }
                QPushButton:hover {
                    background-color: "
  +:+ accent_hover
  +:+ ";
                }
                QPushButton:pressed {
                    background-color: "
  +:+ accent_pressed
  +:+ ";
                }
                QPushButton:disabled {
                    background-color: #c0c0c0;
                    color: #888888;
                }
                QPushButton#secondaryButton {
                    background-color: "
  +:+ input_bg_color
  +:+ ";
                    color: "
  +:+ text_color
  +:+ ";
                }
                QPushButton#secondaryButton:hover {
                    background-color: #d5d5d5;
                }
                QToolBar {
                    background-color: "
  +:+ card_bg_color
  +:+ ";
                    border: none;
                    spacing: 10px;
                    padding: 5px;
                }
                QStatusBar {
                    background-color: "
  +:+ card_bg_color
  +:+ ";
                    color: "
  +:+ secondary_text
  +:+ ";
                    border-top: 1px solid "
  +:+ border_color
  +:+ ";
                }
                QProgressBar {
                    border: none;
                    border-radius: 6px;
                    background-color: "
  +:+ input_bg_color
  +:+ ";
                    text-align: center;
                    color: "
  +:+ text_color
  +:+ ";
                    font-weight: bold;
                }
                QProgressBar::chunk {
                    background-color: "
  +:+ accent_color
  +:+ ";
                    border-radius: 6px;
                }
                QListWidget {
                    background-color: "
  +:+ input_bg_color
  +:+ ";
                    border-radius: 6px;
                    color: "
  +:+ text_color
  +:+ ";
                    padding: 5px;
                }
                QListWidget::item {
                    border-radius: 4px;
                    padding: 8px;
                    margin: 2px 0px;
                }
                QListWidget::item:selected {
                    background-color: "
  +:+ accent_color
  +:+ ";
                    color: white;
                }
                QScrollArea {
                    border: none;
                    background-color: "
  +:+ bg_color
  +:+ ";
                }
                QFrame#card {
                    background-color: "
  +:+ card_bg_color
  +:+ ";
                    border-radius: 10px;
                    border: 1px solid "
  +:+ border_color
  +:+ ";
                }
                QFrame#resultItem {
                    background-color: "
  +:+ card_bg_color
  +:+ ";
                    border-radius: 6px;
                    border: 1px solid "
  +:+ border_color
  +:+ ";
                    padding: 10px;
                    margin: 5px;
                }
                QSlider::groove:horizontal {
                    height: 8px;
                    background: #c0c0c0;
                    border-radius: 4px;
                }
                QSlider::handle:horizontal {
                    background: "
  +:+ accent_color
  +:+ ";
                    border: none;
                    width: 18px;
                    margin: -5px 0;
                    border-radius: 9px;
                }
                QSlider::add-page:horizontal {
                    background: #c0c0c0;
                    border-radius: 4px;
                }
                QSlider::sub-page:horizontal {
                    background: "
  +:+ accent_color
  +:+ ";
                    border-radius: 4px;
                }
                QCheckBox {
                    color: "
  +:+ text_color
  +:+ ";
                }
                QCheckBox::indicator {
                    width: 18px;
                    height: 18px;
                    border-radius: 4px;
                    border: 1px solid "
  +:+ accent_color
  +:+ ";
                }
                QCheckBox::indicator:checked {
                    background-color: "
  +:+ accent_color
  +:+ ";
                }
                QMessageBox {
                    background-color: "
  +:+ bg_color
  +:+ ";
                }
                QMessageBox QLabel {
                    color: "
  +:+ text_color
  +:+ ";
                }
                QMenu {
                    background-color: "
  +:+ card_bg_color
  +:+ ";
                    color: "
  +:+ text_color
  +:+ ";
                    border: 1px solid "
  +:+ border_color
  +:+ ";
                    border-radius: 6px;
                    padding: 5px;
                }
                QMenu::item {
                    padding: 6px 25px 6px 20px;
                    border-radius: 4px;
                }
                QMenu::item:selected {
                    background-color: "
  +:+ accent_color
  +:+ ";
                    color: white;
                }
                QMenuBar {
                    background-color: "
  +:+ bg_color
  +:+ ";
                    color: "
  +:+ text_color
  +:+ ";
                }
                QMenuBar::item {
                    padding: 5px 10px;
                    border-radius: 4px;
                }
                QMenuBar::item:selected {
                    background-color: "
  +:+ accent_color
  +:+ ";
                    color: white;
                }
                QToolTip {
                    background-color: "
  +:+ card_bg_color
  +:+ ";
                    color: "
  +:+ text_color
  +:+ ";
                    border: 1px solid "
  +:+ border_color
  +:+ ";
                    border-radius: 4px;
                    padding: 5px;
                }
            ".

Section manager.
(** [DARKDETECT_AVAILABLE], and [int(s)] on a string ([None] is
    ValueError). *)
Context (DARKDETECT_AVAILABLE : bool) (int_of_str : string → option Z).

Record manager := Manager {
  current_theme : string;
  brightness : Z;
  settings : QSettings.settings;
  (** whether [self.main_window] is set *)
  main_window : bool;
  (** the stylesheets given to [app.setStyleSheet], oldest first *)
  style_sheets : list string;
  (** how many times [main_window.update_theme_ui()] was called *)
  theme_ui_updates : nat;
  (** what [isDark()] returns *)
  system_is_dark : bool;
}.

(** The stylesheet [apply_theme] builds for a theme and a brightness: every
    theme other than ["dark"] gets the light one. *)
Definition stylesheet (current_theme : string) (brightness : Z)
  : option string :=
  let brightness_factor := ThemeManager.brightness_factor brightness in
  let adjust hex_color :=
    ThemeManager.adjust_color hex_color brightness_factor in
  if bool_decide (current_theme = "dark") then
    bg_color ← adjust "#1e1e1e";
    card_bg_color ← adjust "#2d2d2d";
    input_bg_color ← adjust "#333333";
    text_color ← adjust "#ffffff";
    secondary_text ← adjust "#bbbbbb";
    accent_color ← adjust "#0071e3";
    accent_hover ← adjust "#0077ED";
    accent_pressed ← adjust "#005BBB";
    border_color ← adjust "#3d3d3d";
    Some (dark_stylesheet bg_color card_bg_color input_bg_color text_color
            secondary_text accent_color accent_hover accent_pressed
            border_color)
  else
    bg_color ← adjust "#f5f5f7";
    card_bg_color ← adjust "#ffffff";
    input_bg_color ← adjust "#e7e7e7";
    text_color ← adjust "#121212";
    secondary_text ← adjust "#555555";
    accent_color ← adjust "#0071e3";
    accent_hover ← adjust "#0077ED";
    accent_pressed ← adjust "#005BBB";
    border_color ← adjust "#d1d1d1";
    Some (light_stylesheet bg_color card_bg_color input_bg_color text_color
            secondary_text accent_color accent_hover accent_pressed
            border_color).

Definition apply_theme (m : manager) : option manager :=
  stylesheet ← stylesheet (current_theme m) (brightness m);
  Some (Manager (current_theme m) (brightness m) (settings m)
          (main_window m)
          (style_sheets m ++ [stylesheet])
          (if main_window m then S (theme_ui_updates m)
           else theme_ui_updates m)
          (system_is_dark m)).

Definition with_theme (m : manager) (theme : string) : manager :=
  Manager theme (brightness m) (settings m) (main_window m)
    (style_sheets m) (theme_ui_updates m) (system_is_dark m).

Definition with_brightness (m : manager) (value : Z) : manager :=
  Manager (current_theme m) value (settings m) (main_window m)
    (style_sheets m) (theme_ui_updates m) (system_is_dark m).

(** [self.settings.setValue(key, value)] *)
Definition setValue (key : string) (v : value) (m : manager) : manager :=
  Manager (current_theme m) (brightness m) (<[key := v]> (settings m))
    (main_window m) (style_sheets m) (theme_ui_updates m)
    (system_is_dark m).

Definition detect_system_theme (m : manager) : option manager :=
  if DARKDETECT_AVAILABLE then
    let system_is_dark := system_is_dark m in
    let detected_theme := if system_is_dark then "dark" else "light" in
    if bool_decide (current_theme m ≠ detected_theme)
    then apply_theme (with_theme m detected_theme)
    else Some m
  else Some m.

(** [int(saved_brightness)] with its [except (ValueError, TypeError)]. *)
Definition int_or_100 (saved_brightness : value) : Z :=
  match saved_brightness with
  | Int n => n
  | Str s => default 100%Z (int_of_str s)
  | List _ => 100%Z
  end.

Definition load_settings (m : manager) : option manager :=
  let default_theme_mode := if DARKDETECT_AVAILABLE then "auto" else "dark" in
  let theme_mode_setting :=
    default (Str default_theme_mode) (settings m !! "theme/mode") in
  m ← (if bool_decide (theme_mode_setting = Str "auto")
          && DARKDETECT_AVAILABLE
       then detect_system_theme m
       else
         Some (with_theme m
                 (match theme_mode_setting with
                  | Str s =>
                      if bool_decide (s ∈ ["light"; "dark"]) then s
                      else "dark"
                  | _ => "dark"
                  end)));
  let saved_brightness := settings m !! "theme/brightness" in
  match saved_brightness with
  | Some saved_brightness =>
      Some (with_brightness m (int_or_100 saved_brightness))
  | None => Some (with_brightness m 100%Z)
  end.

Definition save_settings (m : manager) : manager :=
  let chosen_mode :=
    default (Str (current_theme m)) (settings m !! "theme/chosen_mode") in
  let m :=
    if DARKDETECT_AVAILABLE && bool_decide (chosen_mode = Str "auto")
    then setValue "theme/mode" (Str "auto") m
    else setValue "theme/mode" (Str (current_theme m)) m in
  setValue "theme/brightness" (Int (brightness m)) m.

(** The callback [darkdetect]'s listener calls with the new mode. *)
Definition on_system_theme_change (new_mode_is_dark : bool) (m : manager)
  : option manager :=
  if DARKDETECT_AVAILABLE
     && bool_decide (default (Str "auto") (settings m !! "theme/mode")
                     = Str "auto")
  then
    let new_theme := if new_mode_is_dark then "dark" else "light" in
    if bool_decide (new_theme ≠ current_theme m)
    then apply_theme (with_theme m new_theme)
    else Some m
  else Some m.

Definition set_theme_mode (mode : string) (m : manager) : option manager :=
  m ← (if bool_decide (mode = "auto") && DARKDETECT_AVAILABLE then
         let m := setValue "theme/chosen_mode" (Str "auto") m in
         let m := setValue "theme/mode" (Str "auto") m in
         detect_system_theme m
       else if bool_decide (mode ∈ ["light"; "dark"]) then
         let m := setValue "theme/chosen_mode" (Str mode) m in
         let m := setValue "theme/mode" (Str mode) m in
         if bool_decide (current_theme m ≠ mode)
         then apply_theme (with_theme m mode)
         else apply_theme m
       else Some m);
  Some (save_settings m).

Definition is_system_dark (m : manager) : bool :=
  if DARKDETECT_AVAILABLE then system_is_dark m else false.

Definition set_brightness (value : Z) (m : manager) : option manager :=
  let m := with_brightness m value in
  let m := save_settings m in
  apply_theme m.

Definition toggle_theme (m : manager) : option manager :=
  let new_theme :=
    if bool_decide (current_theme m = "dark") then "light" else "dark" in
  set_theme_mode new_theme m.

(** [ThemeManager(app, main_window)] over a settings store, in a system
    whose theme is dark or not.  [listener(self.on_system_theme_change)] is
    taken to register the callback and return. *)
Definition init (st : QSettings.settings) (main_window : bool)
    (system_is_dark : bool) : option manager :=
  let m := Manager "dark" 100 st main_window [] 0 system_is_dark in
  m ← load_settings m;
  m ← (if DARKDETECT_AVAILABLE then detect_system_theme m else Some m);
  apply_theme m.

(** What happens to a manager: the calls the application makes, a call of
    the callback registered with [darkdetect]'s listener, and a change of
    the system theme, after which [isDark()] gives the new answer. *)
Inductive event :=
| SetThemeMode (mode : string)
| SetBrightness (value : Z)
| ToggleTheme
| ApplyTheme
| OnSystemThemeChange (new_mode_is_dark : bool)
| SystemTheme (is_dark : bool).

Definition handle (e : event) (m : manager) : option manager :=
  match e with
  | SetThemeMode mode => set_theme_mode mode m
  | SetBrightness value => set_brightness value m
  | ToggleTheme => toggle_theme m
  | ApplyTheme => apply_theme m
  | OnSystemThemeChange new_mode_is_dark =>
      on_system_theme_change new_mode_is_dark m
  | SystemTheme is_dark =>
      Some (Manager (current_theme m) (brightness m) (settings m)
              (main_window m) (style_sheets m) (theme_ui_updates m) is_dark)
  end.

Fixpoint handle_all (events : list event) (m : manager) : option manager :=
  match events with
  | [] => Some m
  | e :: events => handle e m ≫= handle_all events
  end.

(** The theme is one of the two the manager knows, and the brightness is
    between 0 and 200. *)
Definition well_formed (m : manager) : Prop :=
  current_theme m ∈ ["light"; "dark"] ∧ (0 ≤ brightness m ≤ 200)%Z.

Definition event_ok (e : event) : Prop :=
  match e with
  | SetBrightness value => (0 ≤ value ≤ 200)%Z
  | _ => True
  end.


End manager.
End Theme.


(** ** settings_dialog.py: the brightness control of [SettingsDialog] *)

Module SettingsDialog.

Section dialog.
Context (DARKDETECT_AVAILABLE : bool).




End dialog.
End SettingsDialog.


(** ** main.py: the slots of [DotminiMCX] the thread's signals are connected to

    The window as far as these slots go: the items of the results list, the
    statistics, the message of the status bar and the error boxes shown.
    A slot runs to its end before the next signal is delivered (the box of
    [show_error] is taken to be closed at once); the icons, the progress
    bar and the two buttons, which the slots write and never read, are
    left out. *)

Module MainWindow.
Import World.

(** [float(a) / float(b)], which is what [a / b] is on ints this small. *)
Definition true_div (a b : nat) : float :=
  (Py.float_of_int (Z.of_nat a) / Py.float_of_int (Z.of_nat b))%float.

(** [f"{x:.1f}"]: the decimal with one place nearest to the exact value of
    the float, ties to the even one. *)
Definition format_1f (x : float) : string :=
  match Prim2SF x with
  | S754_nan => "nan"
  | S754_infinity s => if s then "-inf" else "inf"
  | S754_zero s => if s then "-0.0" else "0.0"
  | S754_finite s m e =>
      let num := (if 0 <=? e then Z.pos m * 2 ^ e * 10 else Z.pos m * 10)%Z in
      let den := (if 0 <=? e then 1 else 2 ^ (- e))%Z in
      let q := (num / den)%Z in
      let r := (num mod den)%Z in
      let n :=
        (if 2 * r <? den then q
         else if den <? 2 * r then q + 1
         else if Z.even q then q else q + 1)%Z in
      (if s then "-" else "")
      +:+ pretty (n / 10)%Z +:+ "." +:+ pretty (n mod 10)%Z
  end.

(** An item of the results list: its text, its tooltip if it has one, and
    whether it is written in red. *)
Record item := Item {
  item_text : string;
  item_tooltip : option string;
  item_red : bool;
}.

Record window := Window {
  results_list : list item;
  (** the dict [class_counts], in the order in which its keys came *)
  class_counts : list (string * nat);
  total_processed : nat;
  results_stats_label : string;
  (** [statusBar().currentMessage()] *)
  status_message : string;
  (** the messages of the boxes [QMessageBox.critical] has shown *)
  error_boxes : list string;
}.

(** [sorted(items, key=lambda x: x[1], reverse=True)]: by falling count,
    items of the same count in the order they had. *)
Fixpoint insert_by_count (x : string * nat) (l : list (string * nat))
  : list (string * nat) :=
  match l with
  | [] => [x]
  | y :: l' =>
      if (y.2 <=? x.2)%nat then x :: l else y :: insert_by_count x l'
  end.

Definition sorted_by_count (l : list (string * nat)) : list (string * nat) :=
  foldr insert_by_count [] l.

(** [", ".join(l)] *)
Fixpoint join (l : list string) : string :=
  match l with
  | [] => EmptyString
  | [s] => s
  | s :: l => s +:+ ", " +:+ join l
  end.

(** The text [update_result_stats] gives the label. *)
Definition stats_text (class_counts : list (string * nat))
    (total_processed : nat) : string :=
  if bool_decide (total_processed = 0%nat) then "No results yet"
  else
    let stats_text :=
      "Total processed: " +:+ pretty total_processed
      +:+ " images | Classes: " in
    let class_stats :=
      (λ '(class_name, count),
         let percentage := (true_div count total_processed * 100)%float in
         class_name +:+ ": " +:+ pretty count +:+ " ("
         +:+ format_1f percentage +:+ "%)")
        <$> sorted_by_count class_counts in
    stats_text +:+ join class_stats.

Definition update_result_stats (w : window) : window :=
  Window (results_list w) (class_counts w) (total_processed w)
    (stats_text (class_counts w) (total_processed w))
    (status_message w) (error_boxes w).

(** [class_counts[class_name] = class_counts.get(class_name, 0) + 1] *)
Fixpoint increment (class_name : string) (class_counts : list (string * nat))
  : list (string * nat) :=
  match class_counts with
  | [] => [(class_name, 1%nat)]
  | (c, n) :: class_counts =>
      if decide (c = class_name) then (c, S n) :: class_counts
      else (c, n) :: increment class_name class_counts
  end.

(** [add_result(file_path, class_name, confidence)]: a result when
    [file_path] is not empty, a message in red otherwise. *)
Definition add_result (file_path class_name confidence : string)
    (w : window) : window :=
  if bool_decide (file_path ≠ EmptyString) then
    let item_text :=
      Py.basename file_path +:+ " → " +:+ class_name +:+ " (confidence: "
      +:+ confidence +:+ ")" in
    let tooltip :=
      "File: " +:+ file_path +:+ "
Class: " +:+ class_name +:+ "
Confidence: " +:+ confidence in
    update_result_stats
      (Window (results_list w ++ [Item item_text (Some tooltip) false])
         (increment class_name (class_counts w))
         (S (total_processed w))
         (results_stats_label w) (status_message w) (error_boxes w))
  else
    Window (results_list w ++ [Item class_name None true])
      (class_counts w) (total_processed w) (results_stats_label w)
      (status_message w) (error_boxes w).

(** [update_progress(value, maximum)]; the division raises when [maximum]
    is zero.  ([int] raises on a NaN or an infinity, which a quotient of two
    counts times 100 is not; the branch is there for the type.) *)
Definition update_progress (value maximum : nat) (w : window)
  : Py.exception + window :=
  match maximum with
  | O => inl (Py.Exception "ZeroDivisionError" "division by zero")
  | S _ =>
      match Py.int_of_float (true_div value maximum * 100)%float with
      | None =>
          inl (Py.Exception "ValueError"
                 "cannot convert float NaN to integer")
      | Some percent =>
          inr (Window (results_list w) (class_counts w) (total_processed w)
                 (results_stats_label w)
                 ("Processing images: " +:+ pretty value +:+ "/"
                  +:+ pretty maximum +:+ " (" +:+ pretty percent +:+ "%)")
                 (error_boxes w))
      end
  end.

Definition classification_finished (w : window) : window :=
  let canceled := "Classification canceled by user." in
  let message :=
    if bool_decide (0 < total_processed w)%nat
       && bool_decide (status_message w ≠ canceled)
    then
      "Classification complete. Processed " +:+ pretty (total_processed w)
      +:+ " images."
    else if bool_decide (status_message w ≠ canceled) then "Ready"
    else status_message w in
  Window (results_list w) (class_counts w) (total_processed w)
    (results_stats_label w) message (error_boxes w).

Definition show_error (error_message : string) (w : window) : window :=
  Window (results_list w) (class_counts w) (total_processed w)
    (results_stats_label w) ("Error: " +:+ error_message)
    (error_boxes w ++ [error_message]).

Definition clear_results (w : window) : window :=
  Window [] [] 0 (stats_text [] 0) "Results cleared." (error_boxes w).

(** The slot each signal of the thread is connected to. *)
Definition deliver (s : signal) (w : window) : Py.exception + window :=
  match s with
  | progress_update value maximum => update_progress value maximum w
  | result_update img_path predicted_class confidence =>
      inr (add_result img_path predicted_class confidence w)
  | finished => inr (classification_finished w)
  | error msg => inr (show_error msg w)
  end.

Fixpoint deliver_all (signals : list signal) (w : window)
  : Py.exception + window :=
  match signals with
  | [] => inr w
  | s :: signals =>
      match deliver s w with
      | inl e => inl e
      | inr w => deliver_all signals w
      end
  end.

(** What the items and the counts say: the items that are results, the sum
    of the counts, the count of a class. *)
Definition result_items (w : window) : list item :=
  filter (λ i, item_red i = false) (results_list w).

Definition sum_counts (class_counts : list (string * nat)) : nat :=
  foldr (λ x n, (x.2 + n)%nat) 0%nat class_counts.

(** [class_counts.get(class_name, 0)] *)
Fixpoint count_of (class_name : string) (class_counts : list (string * nat))
  : nat :=
  match class_counts with
  | [] => 0%nat
  | (c, n) :: class_counts =>
      if decide (c = class_name) then n else count_of class_name class_counts
  end.

(** What a list of signals holds: the classes of its results (an empty path
    makes no result), its error messages, how many [result_update] it
    has. *)
Definition classes_in (signals : list signal) : list string :=
  omap (λ s, match s with
             | result_update img_path predicted_class _ =>
                 if bool_decide (img_path ≠ EmptyString)
                 then Some predicted_class else None
             | _ => None
             end) signals.

Definition errors_in (signals : list signal) : list string :=
  omap (λ s, match s with error msg => Some msg | _ => None end) signals.

(** The statistics hang together: the counts add up to the total, no class
    is counted under two keys, and the label shows them. *)
Definition consistent (w : window) : Prop :=
  sum_counts (class_counts w) = total_processed w
  ∧ NoDup (class_counts w).*1
  ∧ results_stats_label w
    = stats_text (class_counts w) (total_processed w).

End MainWindow.


(** ** More threads to try the definitions on *)

Module Scenario.
Import World.

(** A thread without input folders, and one with a batch size of zero. *)
Definition self_no_folders : thread := {|
  model_path := "model.h5";
  label_path := "labels.txt";
  input_folders := [];
  output_folder := "out";
  batch_size := 16;
|}.

Definition self_zero_batch : thread := {|
  model_path := "model.h5";
  label_path := "labels.txt";
  input_folders := ["in"];
  output_folder := "out";
  batch_size := 0;
|}.

(** Two pictures of the same name in two input folders. *)
Definition pictures : gmap string file :=
  {[ "in/a.jpg" := Picture (Image "RGB" (640, 480));
     "more/a.jpg" := Picture (Image "RGB" (800, 600)) ]}.

(** A manager in the dark theme at full brightness, linked to the main
    window, over empty settings. *)
Definition manager : Theme.manager :=
  Theme.Manager "dark" 100 ∅ true [] 0 false.

End Scenario.

(** * Proofs *)

(** ** Colours *)

Section adjust_color_facts.
Import ThemeManager.
Local Open Scope Z_scope.

Lemma forallb_seqZ (P : Z → bool) lo n :
  forallb P (seqZ lo n) = true → ∀ v, lo ≤ v < lo + n → P v = true.
Proof.
  intros Hall v Hv. rewrite forallb_forall in Hall.
  apply Hall, list_elem_of_In, elem_of_seqZ, Hv.
Qed.

Lemma hex_digit_range c d : Py.hex_digit c = Some d → 0 ≤ d ≤ 15.
Proof.
  unfold Py.hex_digit. intros H.
  repeat case_match; simplify_eq; lia.
Qed.

Lemma lower_hex_is_hex c : is_lower_hex_digit c = true → is_hex_digit c = true.
Proof.
  unfold is_lower_hex_digit, is_hex_digit, Py.hex_digit. intros H.
  apply bool_decide_eq_true. repeat case_match; eauto; lia.
Qed.

Lemma lstrip_hash_digit c s :
  is_hex_digit c = true → Py.lstrip_hash (String c s) = String c s.
Proof.
  destruct c as [[] [] [] [] [] [] [] []]; try reflexivity.
  intros H. vm_compute in H. discriminate.
Qed.

Lemma hash_and_six_inv digit s :
  hash_and_six digit s = true →
  ∃ a b c d e f,
    s = String "#" (String a (String b (String c (String d (String e
          (String f EmptyString))))))
    ∧ Forall (λ x, digit x = true) [a; b; c; d; e; f].
Proof.
  destruct s as [|h s]; [done|].
  destruct h as [[] [] [] [] [] [] [] []]; try done.
  destruct s as [|a [|b [|c [|d [|e [|f [|? ?]]]]]]]; try done.
  unfold hash_and_six. intros H. exists a, b, c, d, e, f. split; [done|].
  apply Forall_forall. intros x Hx. rewrite forallb_forall in H.
  apply H, list_elem_of_In, Hx.
Qed.


Lemma int16_pair a b :
  Py.int16 (String a (String b EmptyString))
  = da ← Py.hex_digit a; db ← Py.hex_digit b; Some (16 * da + db).
Proof.
  unfold Py.int16, Py.int16_digits.
  destruct (Py.hex_digit a) as [da|]; [|done].
  destruct (Py.hex_digit b) as [db|]; [|done].
  simpl. f_equal; lia.
Qed.

Lemma parse_rgb_six a b c d e f :
  is_hex_digit a = true →
  parse_rgb (String "#" (String a (String b (String c (String d (String e
               (String f EmptyString)))))))
  = r ← Py.int16 (String a (String b EmptyString));
    g ← Py.int16 (String c (String d EmptyString));
    b ← Py.int16 (String e (String f EmptyString));
    Some (r, g, b).
Proof.
  intros Ha. unfold parse_rgb.
  change (Py.lstrip_hash (String "#" ?s)) with (Py.lstrip_hash s).
  rewrite lstrip_hash_digit by done. reflexivity.
Qed.

Lemma int16_pair_byte a b :
  is_hex_digit a = true → is_hex_digit b = true →
  ∃ v, Py.int16 (String a (String b EmptyString)) = Some v ∧ is_byte v.
Proof.
  intros [da Ha]%bool_decide_eq_true [db Hb]%bool_decide_eq_true.
  rewrite int16_pair, Ha, Hb. simpl. eexists; split; [done|].
  apply hex_digit_range in Ha, Hb. unfold is_byte. lia.
Qed.

(** A valid colour decodes to three bytes. *)
Lemma parse_rgb_hex_color s :
  is_hex_color s = true →
  ∃ r g b, parse_rgb s = Some (r, g, b) ∧ is_byte r ∧ is_byte g ∧ is_byte b.
Proof.
  intros (a & b & c & d & e & f & -> & Hd)%hash_and_six_inv.
  repeat (apply Forall_cons in Hd as [? Hd]).
  rewrite parse_rgb_six by done.
  destruct (int16_pair_byte a b) as (r & -> & ?); [done..|].
  destruct (int16_pair_byte c d) as (g & -> & ?); [done..|].
  destruct (int16_pair_byte e f) as (b' & -> & ?); [done..|].
  simpl. eauto 10.
Qed.

Lemma format_02x_bytes : forallb format_02x_ok (seqZ 0 256) = true.
Proof. vm_compute. reflexivity. Qed.

Lemma format_02x_byte v :
  is_byte v →
  ∃ a b, Py.format_02x v = String a (String b EmptyString)
         ∧ is_lower_hex_digit a = true ∧ is_lower_hex_digit b = true
         ∧ Py.int16 (String a (String b EmptyString)) = Some v.
Proof.
  intros Hv.
  assert (format_02x_ok v = true) as Hok.
  { apply (forallb_seqZ _ _ _ format_02x_bytes). unfold is_byte in Hv. lia. }
  unfold format_02x_ok in Hok.
  destruct (Py.format_02x v) as [|a [|b [|? ?]]]; try done.
  apply andb_prop in Hok as [[Ha Hb]%andb_prop Hv'].
  apply bool_decide_eq_true in Hv'. eauto 10.
Qed.

(** A colour printed from three bytes is well formed and decodes to them. *)
Lemma format_rgb_bytes r g b :
  is_byte r → is_byte g → is_byte b →
  is_lower_hex_color (format_rgb r g b) = true
  ∧ parse_rgb (format_rgb r g b) = Some (r, g, b).
Proof.
  intros Hr Hg Hb. unfold format_rgb.
  destruct (format_02x_byte r Hr) as (r1 & r2 & -> & ? & ? & Er).
  destruct (format_02x_byte g Hg) as (g1 & g2 & -> & ? & ? & Eg).
  destruct (format_02x_byte b Hb) as (b1 & b2 & -> & ? & ? & Eb).
  change ("#" +:+ _)
    with (String "#" (String r1 (String r2 (String g1 (String g2 (String b1
            (String b2 EmptyString))))))).
  split.
  - unfold is_lower_hex_color, hash_and_six. simpl.
    repeat (apply andb_true_intro; split); done.
  - rewrite parse_rgb_six by (by apply lower_hex_is_hex).
    rewrite Er, Eg, Eb. reflexivity.
Qed.


Lemma adjust_color_channels s factor :
  adjust_color s factor
  = '(r, g, b) ← parse_rgb s;
    r' ← adjust_channel r factor;
    g' ← adjust_channel g factor;
    b' ← adjust_channel b factor;
    Some (format_rgb r' g' b').
Proof.
  unfold adjust_color, adjust_channel.
  destruct (parse_rgb s) as [[[r g] b]|]; [|done]. simpl.
  destruct (factor <? 1)%float; [done|].
  destruct (1 <? factor)%float; done.
Qed.

(** All 256 channel values at all 201 percentages from 0 to 200, evaluated
    in binary64 arithmetic. *)
Lemma table_ok : forallb (λ c, row_ok c 0 0 201) (seqZ 0 256) = true.
Proof. vm_compute. reflexivity. Qed.

Lemma row_ok_bound c n : ∀ prev p, row_ok c prev p n = true → prev ≤ 255.
Proof.
  induction n as [|n IH]; intros prev p H; simpl in H.
  - lia.
  - destruct (adjust_channel c (brightness_factor p)) as [v|]; [|done].
    apply andb_prop in H as [? H%IH]. lia.
Qed.

Lemma row_ok_sound c n :
  ∀ prev p i j, row_ok c prev p n = true → (i ≤ j < n)%nat →
    ∃ v w, adjust_channel c (brightness_factor (p + Z.of_nat i)) = Some v
           ∧ adjust_channel c (brightness_factor (p + Z.of_nat j)) = Some w
           ∧ prev ≤ v ∧ v ≤ w ∧ w ≤ 255.
Proof.
  induction n as [|n IH]; intros prev p i j H Hij; [lia|].
  simpl in H.
  destruct (adjust_channel c (brightness_factor p)) as [v0|] eqn:E0; [|done].
  apply andb_prop in H as [Hprev H].
  destruct i as [|i].
  - replace (p + Z.of_nat 0) with p by lia. destruct j as [|j].
    + replace (p + Z.of_nat 0) with p by lia. exists v0, v0.
      apply row_ok_bound in H. repeat split; try done; lia.
    + destruct (IH v0 (p + 1) j j H) as (v & w & _ & Ew & ? & ? & ?); [lia|].
      replace (p + Z.of_nat (S j)) with (p + 1 + Z.of_nat j) by lia.
      exists v0, w. repeat split; try done; lia.
  - destruct j as [|j]; [lia|].
    destruct (IH v0 (p + 1) i j H) as (v & w & Ev & Ew & ? & ? & ?); [lia|].
    replace (p + Z.of_nat (S i)) with (p + 1 + Z.of_nat i) by lia.
    replace (p + Z.of_nat (S j)) with (p + 1 + Z.of_nat j) by lia.
    exists v, w. repeat split; try done; lia.
Qed.

(** Between 0% and 200% every channel is defined, a byte, and grows with the
    percentage. *)
Lemma adjust_channel_mono c p q :
  is_byte c → 0 ≤ p → p ≤ q → q ≤ 200 →
  ∃ v w, adjust_channel c (brightness_factor p) = Some v
         ∧ adjust_channel c (brightness_factor q) = Some w
         ∧ 0 ≤ v ∧ v ≤ w ∧ w ≤ 255.
Proof.
  intros Hc Hp Hpq Hq.
  pose proof (forallb_seqZ _ _ _ table_ok c) as Hrow. cbv beta in Hrow.
  assert (0 ≤ c < 0 + 256) as Hc' by (unfold is_byte in Hc; lia).
  specialize (Hrow Hc'). clear Hc'.
  destruct (row_ok_sound c 201 0 0 (Z.to_nat p) (Z.to_nat q) Hrow)
    as (v & w & Ev & Ew & ?); [lia|]. clear Hrow.
  replace (0 + Z.of_nat (Z.to_nat p)) with p in Ev by lia.
  replace (0 + Z.of_nat (Z.to_nat q)) with q in Ew by lia.
  eauto.
Qed.




Lemma factor_above_1 p :
  100 < p ≤ 200 →
  (brightness_factor p <? 1)%float = false
  ∧ (1 <? brightness_factor p)%float = true.
Proof.
  intros Hp. rewrite <- negb_true_iff. apply andb_prop.
  apply (forallb_seqZ
           (λ p, negb (brightness_factor p <? 1)%float
                 && (1 <? brightness_factor p)%float) 101 100); [|lia].
  vm_compute. reflexivity.
Qed.


(** What [_adjust_color] returns on a valid colour at a percentage between 0
    and 200, channel by channel. *)
Lemma adjust_color_spec s r g b p :
  is_hex_color s = true → parse_rgb s = Some (r, g, b) → 0 ≤ p ≤ 200 →
  ∃ r' g' b',
    adjust_channel r (brightness_factor p) = Some r'
    ∧ adjust_channel g (brightness_factor p) = Some g'
    ∧ adjust_channel b (brightness_factor p) = Some b'
    ∧ is_byte r' ∧ is_byte g' ∧ is_byte b'
    ∧ adjust_color s (brightness_factor p) = Some (format_rgb r' g' b')
    ∧ adjusted_rgb s p = Some (r', g', b').
Proof.
  intros Hs Hrgb Hp.
  destruct (parse_rgb_hex_color s Hs) as (r0 & g0 & b0 & E & Hr & Hg & Hb).
  rewrite Hrgb in E. simplify_eq.
  destruct (adjust_channel_mono r0 p p) as (r' & ? & Er & _ & ? & ? & ?);
    [done | lia..|].
  destruct (adjust_channel_mono g0 p p) as (g' & ? & Eg & _ & ? & ? & ?);
    [done | lia..|].
  destruct (adjust_channel_mono b0 p p) as (b' & ? & Eb & _ & ? & ? & ?);
    [done | lia..|].
  assert (is_byte r' ∧ is_byte g' ∧ is_byte b') as (Hr' & Hg' & Hb')
    by (unfold is_byte; lia).
  assert (adjust_color s (brightness_factor p) = Some (format_rgb r' g' b'))
    as Hout.
  { rewrite adjust_color_channels, Hrgb. simpl. rewrite Er. simpl.
    rewrite Eg. simpl. rewrite Eb. reflexivity. }
  exists r', g', b'. repeat split; try done; try (unfold is_byte in *; lia).
  unfold adjusted_rgb. rewrite Hout. simpl.
  by apply format_rgb_bytes.
Qed.

(** C7. With the brightness factor exactly 1.0, [_adjust_color] keeps the
    colour: on every input made of ['#'] and six hexadecimal digits it
    returns a colour that decodes to the same red, green and blue values as
    the input. *)
Theorem adjust_color_identity s :
  is_hex_color s = true →
  ∃ out rgb,
    adjust_color s 1 = Some out
    ∧ parse_rgb s = Some rgb
    ∧ parse_rgb out = Some rgb.
Proof.
  intros Hs.
  destruct (parse_rgb_hex_color s Hs) as (r & g & b & E & Hr & Hg & Hb).
  exists (format_rgb r g b), (r, g, b). repeat split; [|done|].
  - unfold adjust_color. rewrite E. reflexivity.
  - by apply format_rgb_bytes.
Qed.

Lemma adjust_color_identity_witness :
  is_hex_color "#0077ED" = true
  ∧ ∃ out rgb,
      adjust_color "#0077ED" 1 = Some out
      ∧ parse_rgb "#0077ED" = Some rgb
      ∧ parse_rgb out = Some rgb.
Proof. split; [reflexivity | apply adjust_color_identity; reflexivity]. Defined.



(** C10. On every valid colour and every brightness percentage of the valid
    range, 50 to 150, [_adjust_color] returns a well-formed colour: ['#']
    followed by exactly six lowercase hexadecimal digits, which decode to
    three channels between 0 and 255. *)
Theorem adjust_color_well_formed s p :
  is_hex_color s = true → 50 ≤ p → p ≤ 150 →
  ∃ out r g b,
    adjust_color s (brightness_factor p) = Some out
    ∧ is_lower_hex_color out = true
    ∧ parse_rgb out = Some (r, g, b)
    ∧ is_byte r ∧ is_byte g ∧ is_byte b.
Proof.
  intros Hs Hp Hp'.
  destruct (parse_rgb_hex_color s Hs) as (r0 & g0 & b0 & E & _).
  destruct (adjust_color_spec s r0 g0 b0 p Hs E)
    as (r & g & b & _ & _ & _ & Hr & Hg & Hb & Hout & _); [lia|].
  exists (format_rgb r g b), r, g, b.
  destruct (format_rgb_bytes r g b) as [? ?]; done.
Qed.

Lemma adjust_color_well_formed_witness :
  ∃ out r g b,
    adjust_color "#f5f5f7" (brightness_factor 150) = Some out
    ∧ is_lower_hex_color out = true
    ∧ parse_rgb out = Some (r, g, b)
    ∧ is_byte r ∧ is_byte g ∧ is_byte b.
Proof.
  apply (adjust_color_well_formed "#f5f5f7" 150); [reflexivity | lia..].
Defined.

End adjust_color_facts.


(** ** The model loader *)

Section load_model_safely_facts.
Import World ModelLoader.
Context {Value Layer Model : Type} (env : environment Value Layer Model).

Local Abbreviation known_defect := (ModelLoader.known_defect env).

Lemma append_nil_l s : EmptyString +:+ s = s.
Proof. reflexivity. Qed.

Lemma append_cons c s1 s2 : String c s1 +:+ s2 = String c (s1 +:+ s2).
Proof. reflexivity. Qed.

Lemma prefix_spec needle s :
  String.prefix needle s = true ↔ ∃ after, s = needle +:+ after.
Proof.
  revert s. induction needle as [|a needle IH]; intros s.
  - setoid_rewrite append_nil_l. destruct s; split; eauto.
  - setoid_rewrite append_cons. destruct s as [|b s]; simpl.
    + split; [done|]. intros [? ?]. discriminate.
    + destruct (ascii_dec a b) as [->|Hab].
      * rewrite IH. split; intros [after H]; exists after; congruence.
      * split; [done|]. intros [? ?]. congruence.
Qed.

(** Python's [in] on strings is the substring relation. *)
Lemma contains_spec needle s :
  Py.contains needle s = true ↔ substring_of needle s.
Proof.
  unfold substring_of. induction s as [|c s IH].
  - cbn [Py.contains]. rewrite orb_false_r, prefix_spec. split.
    + intros [after H]. by exists EmptyString, after.
    + intros ([|? ?] & after & H); [eauto | discriminate].
  - cbn [Py.contains]. rewrite orb_true_iff, prefix_spec, IH. split.
    + intros [[after H]|(before & after & H)].
      * by exists EmptyString, after.
      * exists (String c before), after. by rewrite append_cons, H.
    + intros ([|c' before] & after & H).
      * left. by exists after.
      * right. exists before, after. rewrite append_cons in H. congruence.
Qed.

(** The substitute class never passes ['groups'] on. *)
Lemma CustomDepthwiseConv2D_strips kwargs :
  CustomDepthwiseConv2D env kwargs
  = DepthwiseConv2D env (delete "groups" kwargs)
  ∧ delete "groups" kwargs !! "groups" = None.
Proof. split; [done | apply lookup_delete_eq]. Qed.

(** C1. [load_model_safely] loads a second time, with the substitute
    [DepthwiseConv2D] class as custom object, exactly when the first attempt
    raised an error whose message contains both ["DepthwiseConv2D"] and
    ["groups"]; then its outcome is the outcome of the second attempt.  When
    the first attempt raised an error whose message lacks one of the two, that
    same exception leaves the function and [load_model] was called once.
    When the first attempt succeeded, its model is returned. *)
Theorem load_model_safely_retry model_path :
  let attempts := (load_model_safely env model_path).1 in
  let result := (load_model_safely env model_path).2 in
  (attempts = [∅; custom_objects env] ↔ known_defect model_path)
  ∧ (known_defect model_path →
     result = load_model env model_path (custom_objects env))
  ∧ (∀ e, load_model env model_path ∅ = inl e →
          ¬ (substring_of "DepthwiseConv2D" (Py.str e)
             ∧ substring_of "groups" (Py.str e)) →
          attempts = [∅] ∧ result = inl e)
  ∧ (∀ model, load_model env model_path ∅ = inr model →
              attempts = [∅] ∧ result = inr model).
Proof.
  unfold load_model_safely, ModelLoader.known_defect.
  destruct (load_model env model_path ∅) as [e|model] eqn:Hfirst; simpl.
  - destruct (Py.contains "DepthwiseConv2D" (Py.str e)
              && Py.contains "groups" (Py.str e)) eqn:Hmsg; simpl.
    + apply andb_prop in Hmsg as [H1%contains_spec H2%contains_spec].
      split_and!; [split; eauto | done | | done].
      intros ? [= <-] []. done.
    + apply andb_false_iff in Hmsg.
      assert (¬ (substring_of "DepthwiseConv2D" (Py.str e)
                 ∧ substring_of "groups" (Py.str e))) as Hno.
      { rewrite <- !contains_spec. intros [? ?]. destruct Hmsg; congruence. }
      split_and!.
      * split; [done|]. intros (? & [= <-] & ? & ?). tauto.
      * intros (? & [= <-] & ? & ?). tauto.
      * intros ? [= <-] _. done.
      * done.
  - split_and!; try done.
    + split; [done|]. intros (? & ? & _). done.
    + intros (? & ? & _). done.
Qed.

End load_model_safely_facts.


(** ** Batches *)

Section batches_facts.
Import World Trace.
Local Open Scope nat_scope.

Lemma ceil_div_0 B : 0 < B → ceil_div 0 B = 0.
Proof. intros HB. unfold ceil_div. apply Nat.div_small. lia. Qed.

Lemma ceil_div_S N B :
  0 < B → 0 < N → ceil_div N B = S (ceil_div (N - B) B).
Proof.
  intros HB HN. unfold ceil_div.
  replace (N + B - 1) with (N - 1 + 1 * B) by lia.
  rewrite Nat.div_add by lia. rewrite Nat.add_1_r. f_equal.
  destruct (decide (B ≤ N)).
  - f_equal. lia.
  - replace (N - B + B - 1) with (B - 1) by lia.
    rewrite !Nat.div_small by lia. done.
Qed.

(** [ceil_div N B] is the ceiling of [N / B]. *)
Lemma ceil_div_spec N B :
  0 < B → N ≤ ceil_div N B * B ∧ ceil_div N B * B < N + B.
Proof.
  intros HB. unfold ceil_div.
  pose proof (Nat.div_mod_eq (N + B - 1) B) as Hdiv.
  pose proof (Nat.mod_upper_bound (N + B - 1) B) as Hmod.
  split; nia.
Qed.

Lemma fmap_seq_S {A} (f : nat → A) n :
  f <$> seq 1 n = (λ k, f (S k)) <$> seq 0 n.
Proof. by rewrite <- fmap_S_seq, <- list_fmap_compose. Qed.

(** The values [range(start, stop, step)] runs through. *)
Lemma range_from_spec step fuel :
  0 < step → ∀ start stop, stop - start ≤ fuel →
  Py.range_from fuel start stop step
  = (λ k, start + k * step) <$> seq 0 (ceil_div (stop - start) step).
Proof.
  intros Hstep. induction fuel as [|fuel IH]; intros start stop Hfuel.
  - replace (stop - start) with 0 by lia. by rewrite ceil_div_0.
  - simpl. case_decide as Hlt.
    + rewrite (ceil_div_S (stop - start)) by lia.
      rewrite IH by lia. cbn [seq fmap list_fmap]. f_equal; [lia|].
      replace (stop - start - step) with (stop - (start + step)) by lia.
      rewrite fmap_seq_S. apply list_fmap_ext. intros _ k _. simpl. lia.
    + replace (stop - start) with 0 by lia. by rewrite ceil_div_0.
Qed.

Lemma range_spec N B :
  0 < B → Py.range 0 N B = inr ((λ k, k * B) <$> seq 0 (ceil_div N B)).
Proof.
  intros HB. unfold Py.range. destruct B as [|B]; [lia|].
  rewrite range_from_spec by lia. rewrite Nat.sub_0_r. done.
Qed.

Section chunks.
Context {A : Type} (l : list A) (B : nat) (HB : 0 < B).

Local Abbreviation chunk := (Trace.chunk l B).

Lemma concat_chunks_from n :
  ∀ start, length l - start ≤ n * B →
  concat (chunk <$> ((λ k, start + k * B) <$> seq 0 n)) = drop start l.
Proof.
  induction n as [|n IH]; intros start Hn.
  - simpl. rewrite drop_ge by lia. done.
  - cbn [seq fmap list_fmap concat].
    rewrite fmap_seq_S.
    rewrite (list_fmap_ext (λ k, start + S k * B) (λ k, start + B + k * B))
      by (intros; simpl; lia).
    rewrite IH by (simpl in Hn; lia).
    unfold Trace.chunk. replace (start + 0 * B) with start by lia.
    rewrite <- drop_drop.
    apply take_drop.
Qed.

(** The chunks, one after the other, are the list. *)
Lemma concat_chunks :
  concat (chunk <$> ((λ k, k * B) <$> seq 0 (ceil_div (length l) B))) = l.
Proof.
  pose proof (ceil_div_spec (length l) B HB) as [Hle _].
  rewrite (concat_chunks_from _ 0) by lia. done.
Qed.

Lemma chunk_length k :
  k < ceil_div (length l) B →
  0 < length (chunk (k * B)) ≤ B
  ∧ (S k < ceil_div (length l) B → length (chunk (k * B)) = B).
Proof.
  intros Hk. pose proof (ceil_div_spec (length l) B HB) as [Hle Hlt].
  unfold Trace.chunk. rewrite length_take, length_drop. split; [nia|]. intros. nia.
Qed.

Lemma elem_of_chunk x k :
  x ∈ chunk (k * B) ↔ ∃ j, l !! j = Some x ∧ k * B ≤ j < k * B + B.
Proof.
  unfold Trace.chunk. rewrite elem_of_take. setoid_rewrite lookup_drop. split.
  - intros (a & Ha & ?). exists (k * B + a). split; [done|lia].
  - intros (j & Hj & ?). exists (j - k * B).
    split; [|lia]. by replace (k * B + (j - k * B)) with j by lia.
Qed.

(** In a list without duplicates, an element is in one chunk only. *)
Lemma chunk_unique x k k' :
  NoDup l → x ∈ chunk (k * B) → x ∈ chunk (k' * B) → k = k'.
Proof.
  intros Hl (j & Hj & ?)%elem_of_chunk (j' & Hj' & ?)%elem_of_chunk.
  assert (j = j') by (eapply NoDup_lookup; eauto). nia.
Qed.

(** The chunks by position. *)
Lemma chunks_lookup k c :
  (chunk <$> ((λ k, k * B) <$> seq 0 (ceil_div (length l) B))) !! k
  = Some c ↔ k < ceil_div (length l) B ∧ c = chunk (k * B).
Proof.
  rewrite !list_lookup_fmap. split.
  - intros H. destruct (seq 0 _ !! k) as [k'|] eqn:Hk; [|done].
    apply lookup_seq in Hk as [-> ?]. simpl in H. by simplify_eq.
  - intros [Hk ->]. by rewrite (lookup_seq_lt _ _ _ Hk).
Qed.

End chunks.

(** C5. For a list of [N] image paths without duplicates and a positive
    batch size [B], the batch loop of [run] (the same in both files) runs
    over [ceil(N / B)] batches; batch number [k] is the slice
    [image_files[k * B : k * B + B]], which has [B] elements, the last one
    between 1 and [B]; the batches in order make up the list, and every image
    is in exactly one batch. *)
Theorem batches_partition (self : thread) (image_files : list string) :
  let N := length image_files in
  let B := batch_size self in
  0 < B → NoDup image_files →
  ∃ starts,
    Py.range 0 N B = inr starts
    ∧ let batches := Classification.batch_files self image_files <$> starts in
      Ml.batch_files self image_files <$> starts = batches
      ∧ length batches = ceil_div N B
      ∧ N ≤ ceil_div N B * B < N + B
      ∧ concat batches = image_files
      ∧ (∀ k batch, batches !! k = Some batch →
           batch = take B (drop (k * B) image_files)
           ∧ 0 < length batch ≤ B
           ∧ (S k < length batches → length batch = B))
      ∧ (∀ img_path, img_path ∈ image_files →
           ∃ k batch, batches !! k = Some batch ∧ img_path ∈ batch
             ∧ ∀ k' batch', batches !! k' = Some batch' →
                 img_path ∈ batch' → k' = k).
Proof.
  intros N B HB Hnodup.
  exists ((λ k, k * B) <$> seq 0 (ceil_div N B)).
  split; [by apply range_spec|]. cbv zeta.
  change (Classification.batch_files self image_files)
    with (Trace.chunk image_files B).
  change (Ml.batch_files self image_files) with (Trace.chunk image_files B).
  assert (length (Trace.chunk image_files B
                    <$> ((λ k, k * B) <$> seq 0 (ceil_div N B)))
          = ceil_div N B) as Hlen
    by (by rewrite !length_fmap, length_seq).
  split_and!; [done | done | by apply ceil_div_spec..| by apply concat_chunks | |].
  - intros k batch [Hk ->]%chunks_lookup. rewrite Hlen.
    split; [done|]. by apply chunk_length.
  - intros img_path Hin.
    rewrite <- (concat_chunks image_files B HB) in Hin.
    apply list_elem_of_In, in_concat in Hin as (batch & Hbatch & Hin).
    apply list_elem_of_In in Hin.
    apply list_elem_of_In, list_elem_of_lookup in Hbatch as [k Hk].
    exists k, batch. split_and!; [done..|].
    intros k' batch' Hk' Hin'.
    apply chunks_lookup in Hk as [_ ->], Hk' as [_ ->].
    symmetry. by eapply (chunk_unique image_files B).
Qed.

Lemma batches_partition_witness :
  let self := {| model_path := "model.h5"; label_path := "labels.txt";
                 input_folders := ["in"]; output_folder := "out";
                 batch_size := 2 |} in
  let image_files := ["a.jpg"; "b.jpg"; "c.png"; "d.bmp"; "e.jpeg"] in
  ∃ starts,
    Py.range 0 5 2 = inr starts
    ∧ let batches := Classification.batch_files self image_files <$> starts in
      Ml.batch_files self image_files <$> starts = batches
      ∧ length batches = ceil_div 5 2
      ∧ 5 ≤ ceil_div 5 2 * 2 < 5 + 2
      ∧ concat batches = image_files
      ∧ (∀ k batch, batches !! k = Some batch →
           batch = take 2 (drop (k * 2) image_files)
           ∧ 0 < length batch ≤ 2
           ∧ (S k < length batches → length batch = 2))
      ∧ (∀ img_path, img_path ∈ image_files →
           ∃ k batch, batches !! k = Some batch ∧ img_path ∈ batch
             ∧ ∀ k' batch', batches !! k' = Some batch' →
                 img_path ∈ batch' → k' = k).
Proof.
  intros self image_files.
  apply (batches_partition self image_files); [simpl; lia|].
  apply (bool_decide_unpack _). by vm_compute.
Defined.

End batches_facts.


(** ** The outcomes of the images *)

Section outcome_facts.
Import World Trace.
Local Open Scope nat_scope.
Context {Value Layer Model : Type} (env : environment Value Layer Model).
Context (model : Model) (labels : list string).

Local Abbreviation outcome_of := (outcome env model labels).

Local Abbreviation result_of := (Trace.result_of env model labels).
Local Abbreviation error_of := (Trace.error_of env model labels).

Lemma result_of_fails p : fails env model labels p ↔ result_of p = None.
Proof.
  unfold fails, result_of. destruct (outcome_of p) as [e|[[c f] o]].
  - split; eauto.
  - split; [by intros [? ?] | done].
Qed.

Lemma error_of_fails name p :
  fails env model labels p ↔ is_Some (error_of name p).
Proof.
  unfold fails, error_of. destruct (outcome_of p) as [e|[[c f] o]].
  - split; eauto.
  - split; by intros [? ?].
Qed.

Lemma length_results futures :
  length (omap result_of futures) = successes env model labels futures.
Proof.
  unfold successes. induction futures as [|p futures IH]; [done|].
  cbn [omap list_omap]. rewrite filter_cons.
  destruct (decide (¬ fails env model labels p)) as [Hok|Hfail].
  - destruct (result_of p) eqn:E; [simpl; by rewrite <- IH|].
    by apply result_of_fails in E.
  - apply dec_stable, result_of_fails in Hfail. by rewrite Hfail.
Qed.

Lemma length_errors name futures :
  length (omap (error_of name) futures) = failures env model labels futures.
Proof.
  unfold failures. induction futures as [|p futures IH]; [done|].
  cbn [omap list_omap]. rewrite filter_cons.
  destruct (decide (fails env model labels p)) as [Hfail|Hok].
  - apply (error_of_fails name) in Hfail as [s Hs]. rewrite Hs. simpl.
    by rewrite <- IH.
  - destruct (error_of name p) eqn:E; [|done].
    destruct Hok. apply (error_of_fails name). eauto.
Qed.

Lemma successes_cons p l :
  successes env model labels (p :: l)
  = length (option_list (result_of p)) + successes env model labels l.
Proof.
  rewrite <- !length_results. cbn [omap list_omap]. by destruct (result_of p).
Qed.

Lemma successes_app l1 l2 :
  successes env model labels (l1 ++ l2)
  = successes env model labels l1 + successes env model labels l2.
Proof. unfold successes. by rewrite filter_app, length_app. Qed.

Lemma successes_perm l1 l2 :
  l1 ≡ₚ l2 → successes env model labels l1 = successes env model labels l2.
Proof. unfold successes. by intros ->. Qed.

Lemma successes_failures l :
  successes env model labels l + failures env model labels l = length l.
Proof.
  unfold successes, failures. induction l as [|p l IH]; [done|].
  rewrite !filter_cons. destruct (decide (fails env model labels p)).
  - rewrite decide_False by tauto. simpl. lia.
  - rewrite decide_True by done. simpl. lia.
Qed.

Lemma result_of_Some p r :
  result_of p = Some r ↔
  ∃ c f o, outcome_of p = inr (c, f, o) ∧ r = (p, c, f, o).
Proof.
  unfold result_of. destruct (outcome_of p) as [e|[[c f] o]].
  - split; [done|]. by intros (? & ? & ? & ? & _).
  - split; [intros [= <-]; eauto|]. by intros (? & ? & ? & [= <- <- <-] & ->).
Qed.

Lemma error_of_Some name p s :
  error_of name p = Some s ↔
  ∃ e, outcome_of p = inl e ∧ s = processing_error (name p) e.
Proof.
  unfold error_of. destruct (outcome_of p) as [e|[[c f] o]].
  - split; [intros [= <-]; eauto|]. by intros (? & [= <-] & ->).
  - split; [done|]. by intros (? & ? & _).
Qed.

Lemma progress_of_errors name l : progress_of (omap (error_of name) l) = [].
Proof.
  induction l as [|p l IH]; [done|]. cbn [omap list_omap].
  destruct (error_of name p) as [s|] eqn:E; [|done].
  apply error_of_Some in E as (e & _ & ->). done.
Qed.

Lemma results_of_errors name l : results_of (omap (error_of name) l) = [].
Proof.
  induction l as [|p l IH]; [done|]. cbn [omap list_omap].
  destruct (error_of name p) as [s|] eqn:E; [|done].
  apply error_of_Some in E as (e & _ & ->). done.
Qed.

Lemma length_omap_take {A B} (f : A → option B) k l :
  length (omap f (take k l)) ≤ length (omap f l).
Proof.
  rewrite <- (take_drop k l) at 2. rewrite omap_app, length_app. lia.
Qed.

Lemma elem_of_omap_take {A B} (f : A → option B) k l y :
  y ∈ omap f (take k l) → y ∈ omap f l.
Proof.
  rewrite <- (take_drop k l) at 2. rewrite omap_app, elem_of_app. auto.
Qed.

End outcome_facts.


(** ** The batch loop of classification.py *)

Section classification_facts.
Import World Trace.
Local Open Scope nat_scope.
Context {Value Layer Model : Type} (env : environment Value Layer Model).
Context (self : thread) (model : Model) (labels image_files : list string).

Local Abbreviation total := (length image_files).
Local Abbreviation outcome_of := (outcome env model labels).
Local Abbreviation result_of := (Trace.result_of env model labels).
Local Abbreviation error_of := (Trace.error_of env model labels).
Local Abbreviation drain := (Classification.drain env model labels).
Local Abbreviation report := (Classification.report env image_files).
Local Abbreviation batch_loop :=
  (Classification.batch_loop env self model labels image_files).
Local Abbreviation batch_files := (Classification.batch_files self image_files).

(** The results kept by the draining loop are results of futures of the
    batch, in the order of completion, and there are no more of them than
    futures that succeed. *)
Lemma drain_results i futures :
  ∀ j, ∃ k, (drain i j futures).1 = omap result_of (take k futures).
Proof.
  induction futures as [|p futures IH]; intros j; [by exists 0|].
  cbn [Classification.drain]. destruct (running_at_future env i j).
  - destruct (IH (S j)) as [k Hk].
    destruct (Classification.drain _ _ _ i (S j) futures) as [rs sg].
    simpl in Hk. exists (S k). cbn [take omap list_omap]. unfold result_of at 1.
    destruct (outcome_of p) as [e|[[c f] o]]; simpl; by rewrite Hk.
  - by exists 0.
Qed.

Lemma drain_signals i futures :
  ∀ j, ∃ k,
    (drain i j futures).2 = omap (error_of Py.basename) (take k futures).
Proof.
  induction futures as [|p futures IH]; intros j; [by exists 0|].
  cbn [Classification.drain]. destruct (running_at_future env i j).
  - destruct (IH (S j)) as [k Hk].
    destruct (Classification.drain _ _ _ i (S j) futures) as [rs sg].
    simpl in Hk. exists (S k). cbn [take omap list_omap]. unfold error_of at 1.
    destruct (outcome_of p) as [e|[[c f] o]]; simpl; by rewrite Hk.
  - by exists 0.
Qed.

(** Without a stop, the draining loop looks at every future. *)
Lemma drain_running i futures :
  (∀ j, running_at_future env i j = true) →
  ∀ j, drain i j futures
       = (omap result_of futures, omap (error_of Py.basename) futures).
Proof.
  intros Hrun. induction futures as [|p futures IH]; intros j; [done|].
  cbn [Classification.drain]. rewrite Hrun, IH.
  cbn [omap list_omap]. unfold result_of, error_of.
  by destruct (outcome_of p) as [e|[[c f] o]].
Qed.

(** The reporting loop: the count grows by one per result reported, and the
    progress emissions carry the counts one after the other. *)
Lemma report_progress i batch_results :
  ∀ j n, ∃ d,
    (report i j batch_results n).1 = n + d
    ∧ d ≤ length batch_results
    ∧ progress_of (report i j batch_results n).2
      = (λ k, (k, total)) <$> seq (S n) d
    ∧ ((∀ j, running_at_result env i j = true) → d = length batch_results).
Proof.
  induction batch_results as [|[[[p c] f] o] rs IH]; intros j n.
  - exists 0. simpl. split_and!; [lia | done..].
  - cbn [Classification.report].
    destruct (running_at_result env i j) eqn:Hrun.
    + destruct (IH (S j) (S n)) as (d & Hn & Hd & Hprog & Hall).
      destruct (Classification.report _ _ i (S j) rs (S n)) as [n' sg].
      simpl in *. exists (S d). split_and!; [lia | lia | | ].
      * unfold progress_of in *. cbn [omap list_omap]. simpl.
        by rewrite Hprog.
      * intros H. by rewrite Hall.
    + exists 0. simpl. split_and!; [lia | lia | done |].
      intros H. by rewrite H in Hrun.
Qed.

Lemma report_signals (P : signal → Prop) i batch_results :
  (∀ p c f o, (p, c, f, o) ∈ batch_results →
              P (result_update p c (format_2f f))) →
  (∀ k, P (progress_update k total)) →
  ∀ j n, Forall P (report i j batch_results n).2.
Proof.
  intros Hres Hprog.
  induction batch_results as [|[[[p c] f] o] rs IH]; intros j n.
  - by apply Forall_nil.
  - cbn [Classification.report]. destruct (running_at_result env i j).
    + specialize (IH (λ p c f o H, Hres p c f o (list_elem_of_further _ _ _ H))
                     (S j) (S n)).
      destruct (Classification.report _ _ i (S j) rs (S n)) as [n' sg].
      simpl in *. repeat apply Forall_cons_2; [|done..].
      apply (Hres p c f o). apply list_elem_of_here.
    + by apply Forall_nil.
Qed.

Lemma report_running i batch_results :
  (∀ j, running_at_result env i j = true) →
  ∀ j n p c f o, (p, c, f, o) ∈ batch_results →
    result_update p c (format_2f f) ∈ (report i j batch_results n).2.
Proof.
  intros Hrun. induction batch_results as [|[[[p' c'] f'] o'] rs IH];
    intros j n p c f o Hin; [by apply elem_of_nil in Hin|].
  cbn [Classification.report]. rewrite Hrun.
  specialize (IH (S j) (S n) p c f o).
  destruct (Classification.report _ _ i (S j) rs (S n)) as [n' sg]. simpl in *.
  apply elem_of_cons in Hin as [[= -> -> -> ->]|Hin].
  - apply list_elem_of_here.
  - do 2 apply list_elem_of_further. auto.
Qed.


(** Every signal of the batch loop is the error or the result of an image of
    one of its batches, or a progress report. *)
Lemma batch_loop_signals (P : signal → Prop) starts :
  (∀ i p e, i ∈ starts → p ∈ as_completed env i (batch_files i) →
            outcome_of p = inl e →
            P (processing_error (Py.basename p) e)) →
  (∀ i p c f o, i ∈ starts → p ∈ as_completed env i (batch_files i) →
                outcome_of p = inr (c, f, o) →
                P (result_update p c (format_2f f))) →
  (∀ k, P (progress_update k total)) →
  ∀ n, Forall P (batch_loop starts n).
Proof.
  intros Herr Hres Hprog.
  induction starts as [|i starts IH]; intros n; [by apply Forall_nil|].
  cbn [Classification.batch_loop].
  destruct (running_at_batch env i); [|by apply Forall_nil].
  destruct (drain_results i (as_completed env i (batch_files i)) 0) as [k Hrs].
  destruct (drain_signals i (as_completed env i (batch_files i)) 0) as [k' Hsg].
  destruct (Classification.drain _ _ _ i 0 _) as [rs sg1]. simpl in Hrs, Hsg.
  pose proof (report_signals P i rs) as Hrep.
  destruct (Classification.report _ _ i 0 rs n) as [n' sg2] eqn:Hreport.
  rewrite !Forall_app. split_and!.
  - subst sg1. apply Forall_forall. intros s Hs%elem_of_omap_take.
    apply list_elem_of_omap in Hs as (p & Hp & (e & He & ->)%error_of_Some).
    apply (Herr i); [apply list_elem_of_here | done | done].
  - assert (∀ p c f o, (p, c, f, o) ∈ rs →
                       P (result_update p c (format_2f f))) as Hrs'.
    { intros p c f o Hin. subst rs. apply elem_of_omap_take in Hin.
      apply list_elem_of_omap in Hin as (p' & Hp & Hr).
      apply result_of_Some in Hr as (c' & f' & o' & Ho & [= -> -> -> ->]).
      eapply (Hres i);
        [apply list_elem_of_here | done
        | eassumption]. }
    specialize (Hrep Hrs' Hprog 0 n). by rewrite Hreport in Hrep.
  - apply IH; eauto using list_elem_of_further.
Qed.

Section batch_loop.
Context (Henv : environment_ok env).

Lemma elem_of_as_completed i p :
  p ∈ as_completed env i (batch_files i) ↔ p ∈ batch_files i.
Proof. by rewrite (as_completed_perm env Henv). Qed.

(** The progress reports of the batch loop count up from the count it
    starts with, one by one, and there are no more of them than images that
    succeed in its batches. *)
Lemma batch_loop_progress starts :
  ∀ n, ∃ m,
    progress_of (batch_loop starts n) = (λ k, (k, total)) <$> seq (S n) m
    ∧ m ≤ successes env model labels (concat (batch_files <$> starts))
    ∧ (never_stopped env →
       m = successes env model labels (concat (batch_files <$> starts))).
Proof.
  induction starts as [|i starts IH]; intros n; [by exists 0|].
  cbn [Classification.batch_loop fmap list_fmap concat].
  rewrite successes_app.
  destruct (running_at_batch env i) eqn:Hrun.
  - destruct (drain_results i (as_completed env i (batch_files i)) 0) as [k Hrs].
    destruct (drain_signals i (as_completed env i (batch_files i)) 0)
      as [k' Hsg].
    pose proof (λ H, drain_running i (as_completed env i (batch_files i)) H 0)
      as Hall.
    destruct (Classification.drain _ _ _ i 0 _) as [rs sg1].
    simpl in Hrs, Hsg.
    destruct (report_progress i rs 0 n) as (d & Hn' & Hd & Hprog & Hdall).
    destruct (Classification.report _ _ i 0 rs n) as [n' sg2].
    simpl in Hn', Hprog. subst n'.
    destruct (IH (n + d)) as (m & Hm & Hle & Hmall).
    assert (length rs ≤ successes env model labels (batch_files i)) as Hlen.
    { subst rs. etrans; [apply length_omap_take|].
      rewrite length_results.
      by rewrite (successes_perm env model labels _ _ (as_completed_perm env Henv i _)). }
    exists (d + m). split_and!; [|lia|].
    + unfold progress_of in *. rewrite !omap_app, Hprog, Hm.
      subst sg1. fold (progress_of (omap (error_of Py.basename)
        (take k' (as_completed env i (batch_files i))))).
      rewrite progress_of_errors. simpl.
      rewrite seq_app, fmap_app. do 3 f_equal; lia.
    + intros Hnever. specialize (Hmall Hnever).
      destruct Hnever as (_ & Hfut & Hres).
      rewrite Hdall by done. specialize (Hall (Hfut i)).
      injection Hall as -> _. rewrite length_results.
      rewrite (successes_perm env model labels _ _ (as_completed_perm env Henv i _)). lia.
  - exists 0. split_and!; [done | lia |].
    intros (Hbatch & _). by rewrite Hbatch in Hrun.
Qed.

(** A stop seen at the top of a batch ends the loop there. *)
Lemma batch_loop_stop before i after n :
  running_at_batch env i = false →
  batch_loop (before ++ i :: after) n = batch_loop before n.
Proof.
  intros Hstop. revert n. induction before as [|i' before IH]; intros n.
  - simpl. by rewrite Hstop.
  - cbn [app Classification.batch_loop].
    destruct (running_at_batch env i'); [|done].
    destruct (Classification.drain _ _ _ i' 0 _) as [rs sg1].
    destruct (Classification.report _ _ i' 0 rs n) as [n' sg2].
    by rewrite IH.
Qed.

(** Without a stop, every image of every batch is reported: with its
    result, or with its error. *)
Lemma batch_loop_running starts :
  never_stopped env →
  ∀ n i p, i ∈ starts → p ∈ batch_files i →
    (∀ e, outcome_of p = inl e →
          processing_error (Py.basename p) e ∈ batch_loop starts n)
    ∧ (∀ c f o, outcome_of p = inr (c, f, o) →
                result_update p c (format_2f f) ∈ batch_loop starts n).
Proof.
  intros (Hbatch & Hfut & Hres).
  induction starts as [|i' starts IH]; intros n i p Hi Hp;
    [by apply elem_of_nil in Hi|].
  cbn [Classification.batch_loop]. rewrite Hbatch, drain_running by done.
  pose proof (report_running i' (omap result_of
    (as_completed env i' (batch_files i'))) ltac:(done) 0 n) as Hrep.
  destruct (Classification.report _ _ i' 0 _ n) as [n' sg2]. simpl in Hrep.
  apply elem_of_cons in Hi as [->|Hi].
  - split.
    + intros e He. apply elem_of_app. left. apply list_elem_of_omap.
      exists p. split; [by apply elem_of_as_completed|].
      apply error_of_Some. eauto.
    + intros c f o Ho. apply elem_of_app. right. apply elem_of_app. left.
      apply (Hrep p c f o). apply list_elem_of_omap.
      exists p. split; [by apply elem_of_as_completed|].
      apply result_of_Some. eauto 10.
  - destruct (IH n' i p Hi Hp) as [Herr Hok].
    split; intros; rewrite !elem_of_app; right; right; eauto.
Qed.

End batch_loop.
End classification_facts.


(** ** The batch loop of ml.py *)

Section ml_facts.
Import World Trace.
Local Open Scope nat_scope.
Context {Value Layer Model : Type} (env : environment Value Layer Model).
Context (self : thread) (model : Model) (labels image_files : list string).

Local Abbreviation total := (length image_files).
Local Abbreviation outcome_of := (outcome env model labels).
Local Abbreviation result_of := (Trace.result_of env model labels).
Local Abbreviation error_of := (Trace.error_of env model labels).
Local Abbreviation drain := (Ml.drain env model labels image_files).
Local Abbreviation report := (Ml.report env).
Local Abbreviation batch_loop :=
  (Ml.batch_loop env self model labels image_files).
Local Abbreviation batch_files := (Ml.batch_files self image_files).
Local Abbreviation worker_signals := (Ml.worker_signals env model labels).

Lemma worker_signals_error p :
  worker_signals p = option_list (error_of id p).
Proof.
  unfold Ml.worker_signals, error_of.
  by destruct (outcome_of p) as [e|[[c f] o]].
Qed.

Lemma bind_worker_signals l :
  l ≫= worker_signals = omap (error_of id) l.
Proof.
  induction l as [|p l IH]; [done|].
  cbn [mbind list_bind omap list_omap]. rewrite worker_signals_error.
  fold (l ≫= worker_signals). rewrite IH. by destruct (error_of id p).
Qed.

(** The errors of the workers are emitted whether the thread is stopped or
    not. *)
Lemma ml_drain_errors i futures :
  ∀ j n p e, p ∈ futures → outcome_of p = inl e →
    processing_error p e ∈ (drain i j futures n).2.
Proof.
  induction futures as [|p' futures IH]; intros j n p e Hin He;
    [by apply elem_of_nil in Hin|].
  cbn [Ml.drain].
  assert (p = p' → processing_error p e ∈ worker_signals p') as Hhere.
  { intros <-. unfold Ml.worker_signals. rewrite He. apply list_elem_of_here. }
  apply elem_of_cons in Hin as [Heq|Hin].
  - destruct (running_at_future env i j).
    + destruct (outcome_of p') as [e'|[[c f] o]].
      * destruct (Ml.drain _ _ _ _ i (S j) futures n) as [[n' rs] sg].
        simpl. apply elem_of_app. auto.
      * destruct (Ml.drain _ _ _ _ i (S j) futures (S n)) as [[n' rs] sg].
        simpl. apply elem_of_app. auto.
    + simpl. apply elem_of_app. auto.
  - destruct (running_at_future env i j).
    + destruct (outcome_of p') as [e'|[[c f] o]].
      * specialize (IH (S j) n p e Hin He).
        destruct (Ml.drain _ _ _ _ i (S j) futures n) as [[n' rs] sg].
        simpl in *. apply elem_of_app. auto.
      * specialize (IH (S j) (S n) p e Hin He).
        destruct (Ml.drain _ _ _ _ i (S j) futures (S n)) as [[n' rs] sg].
        simpl in *. apply elem_of_app. right. by apply list_elem_of_further.
    + simpl. apply elem_of_app. right. rewrite bind_worker_signals.
      apply list_elem_of_omap. exists p. split; [done|].
      apply error_of_Some. eauto.
Qed.

Lemma ml_drain_signals (P : signal → Prop) i futures :
  (∀ p e, p ∈ futures → outcome_of p = inl e → P (processing_error p e)) →
  (∀ k, P (progress_update k total)) →
  ∀ j n, Forall P (drain i j futures n).2.
Proof.
  intros Herr Hprog. induction futures as [|p futures IH]; intros j n;
    [by apply Forall_nil|].
  assert (Forall P (worker_signals p)) as Hworker.
  { unfold Ml.worker_signals. destruct (outcome_of p) as [e|?] eqn:He;
      [|by apply Forall_nil].
    apply Forall_singleton. apply Herr; [apply list_elem_of_here | done]. }
  assert (∀ p' e, p' ∈ futures → outcome_of p' = inl e →
                  P (processing_error p' e)) as Herr'
    by eauto using list_elem_of_further.
  specialize (IH Herr'). cbn [Ml.drain].
  destruct (running_at_future env i j).
  - destruct (outcome_of p) as [e'|[[c f] o]].
    + specialize (IH (S j) n).
      destruct (Ml.drain _ _ _ _ i (S j) futures n) as [[n' rs] sg].
      simpl in *. by apply Forall_app.
    + specialize (IH (S j) (S n)).
      destruct (Ml.drain _ _ _ _ i (S j) futures (S n)) as [[n' rs] sg].
      simpl in *. apply Forall_app. split; [done|]. by apply Forall_cons.
  - simpl. apply Forall_app. split; [done|].
    rewrite bind_worker_signals. apply Forall_forall. intros s Hs.
    apply list_elem_of_omap in Hs as (p' & Hp' & (e & He & ->)%error_of_Some).
    by apply Herr'.
Qed.

Lemma result_of_inl p e : outcome_of p = inl e → result_of p = None.
Proof. intros H. unfold result_of. by rewrite H. Qed.

Lemma result_of_inr p c f o :
  outcome_of p = inr (c, f, o) → result_of p = Some (p, c, f, o).
Proof. intros H. unfold result_of. by rewrite H. Qed.

Lemma error_of_inl name p e :
  outcome_of p = inl e → error_of name p = Some (processing_error (name p) e).
Proof. intros H. unfold error_of. by rewrite H. Qed.

Lemma error_of_inr name p r : outcome_of p = inr r → error_of name p = None.
Proof. intros H. unfold error_of. by rewrite H. Qed.

Lemma ml_drain_results i futures :
  ∀ j n, ∃ k, (drain i j futures n).1.2 = omap result_of (take k futures).
Proof.
  induction futures as [|p futures IH]; intros j n; [by exists 0|].
  cbn [Ml.drain]. destruct (running_at_future env i j); [|by exists 0].
  destruct (outcome_of p) as [e|[[c f] o]] eqn:Hp.
  - destruct (IH (S j) n) as [k Hk].
    destruct (Ml.drain _ _ _ _ i (S j) futures n) as [[n' rs] sg].
    exists (S k). cbn [take omap list_omap]. simpl in *.
    by rewrite (result_of_inl _ _ Hp).
  - destruct (IH (S j) (S n)) as [k Hk].
    destruct (Ml.drain _ _ _ _ i (S j) futures (S n)) as [[n' rs] sg].
    exists (S k). cbn [take omap list_omap]. simpl in *.
    by rewrite (result_of_inr _ _ _ _ Hp), Hk.
Qed.

(** The count grows by one per future that succeeds, and the progress
    emissions carry the counts one after the other. *)
Lemma ml_drain_progress i futures :
  ∀ j n, ∃ d,
    (drain i j futures n).1.1 = n + d
    ∧ d ≤ successes env model labels futures
    ∧ progress_of (drain i j futures n).2 = (λ k, (k, total)) <$> seq (S n) d
    ∧ ((∀ j, running_at_future env i j = true) →
       d = successes env model labels futures
       ∧ (drain i j futures n).1.2 = omap result_of futures).
Proof.
  induction futures as [|p futures IH]; intros j n.
  - exists 0. simpl. split_and!; [lia | done..].
  - cbn [Ml.drain]. rewrite worker_signals_error.
    rewrite successes_cons.
    cbn [omap list_omap]. unfold progress_of.
    destruct (running_at_future env i j) eqn:Hrun.
    + destruct (outcome_of p) as [e|[[c f] o]] eqn:Hp.
      * destruct (IH (S j) n) as (d & Hn & Hd & Hprog & Hall).
        destruct (Ml.drain _ _ _ _ i (S j) futures n) as [[n' rs] sg].
        rewrite (result_of_inl _ _ Hp).
        simpl in *. exists d. rewrite omap_app.
        fold (progress_of (option_list (error_of id p))).
        split_and!; [done | done | | done].
        destruct (error_of id p) as [s|] eqn:Hs; [|done].
        apply error_of_Some in Hs as (? & _ & ->). done.
      * destruct (IH (S j) (S n)) as (d & Hn & Hd & Hprog & Hall).
        destruct (Ml.drain _ _ _ _ i (S j) futures (S n)) as [[n' rs] sg].
        rewrite (result_of_inr _ _ _ _ Hp), (error_of_inr id _ _ Hp).
        simpl in *. exists (S d).
        split_and!; [lia | lia | |].
        { cbn [seq fmap list_fmap]. f_equal. exact Hprog. }
        intros H. destruct (Hall H) as [-> ->]. done.
    + exists 0. simpl. split_and!; [lia | lia | |].
      * rewrite omap_app, bind_worker_signals.
        fold (progress_of (omap (error_of id) futures)).
        rewrite progress_of_errors.
        destruct (error_of id p) as [s|] eqn:Hs; [|done].
        apply error_of_Some in Hs as (? & _ & ->). done.
      * intros H. by rewrite H in Hrun.
Qed.

Lemma ml_report_signals (P : signal → Prop) i batch_results :
  (∀ p c f o, (p, c, f, o) ∈ batch_results →
              P (result_update p c (format_2f f))) →
  ∀ j, Forall P (report i j batch_results).
Proof.
  intros Hres.
  induction batch_results as [|[[[p c] f] o] rs IH]; intros j;
    [by apply Forall_nil|].
  cbn [Ml.report]. destruct (running_at_result env i j); [|by apply Forall_nil].
  apply Forall_cons. split.
  - apply (Hres p c f o). apply list_elem_of_here.
  - apply IH. eauto using list_elem_of_further.
Qed.

Lemma ml_report_progress i batch_results j :
  progress_of (report i j batch_results) = [].
Proof.
  revert j. induction batch_results as [|[[[p c] f] o] rs IH]; intros j;
    [done|].
  cbn [Ml.report]. destruct (running_at_result env i j); [|done].
  unfold progress_of in *. simpl. apply IH.
Qed.

Lemma ml_report_running i batch_results :
  (∀ j, running_at_result env i j = true) →
  ∀ j p c f o, (p, c, f, o) ∈ batch_results →
    result_update p c (format_2f f) ∈ report i j batch_results.
Proof.
  intros Hrun. induction batch_results as [|[[[p' c'] f'] o'] rs IH];
    intros j p c f o Hin; [by apply elem_of_nil in Hin|].
  cbn [Ml.report]. rewrite Hrun.
  apply elem_of_cons in Hin as [[= -> -> -> ->]|Hin].
  - apply list_elem_of_here.
  - apply list_elem_of_further. eauto.
Qed.


Lemma ml_batch_loop_signals (P : signal → Prop) starts :
  (∀ i p e, i ∈ starts → p ∈ as_completed env i (batch_files i) →
            outcome_of p = inl e →
            P (processing_error p e)) →
  (∀ i p c f o, i ∈ starts → p ∈ as_completed env i (batch_files i) →
                outcome_of p = inr (c, f, o) →
                P (result_update p c (format_2f f))) →
  (∀ k, P (progress_update k total)) →
  ∀ n, Forall P (batch_loop starts n).
Proof.
  intros Herr Hres Hprog.
  induction starts as [|i starts IH]; intros n; [by apply Forall_nil|].
  cbn [Ml.batch_loop].
  destruct (running_at_batch env i); [|by apply Forall_nil].
  destruct (ml_drain_results i (as_completed env i (batch_files i)) 0 n)
    as [k Hrs].
  assert (Forall P (drain i 0 (as_completed env i (batch_files i)) n).2)
    as Hsg.
  { apply ml_drain_signals; [|done].
    intros p e Hp.
    apply (Herr i); [apply list_elem_of_here | done]. }
  destruct (Ml.drain _ _ _ _ i 0 _ n) as [[n' rs] sg]. simpl in Hrs, Hsg.
  rewrite !Forall_app. split_and!.
  - done.
  - apply ml_report_signals. intros p c f o Hin. subst rs.
    apply elem_of_omap_take in Hin.
    apply list_elem_of_omap in Hin as (p' & Hp & Hr).
    apply result_of_Some in Hr as (c' & f' & o' & Ho & [= -> -> -> ->]).
    eapply (Hres i);
      [apply list_elem_of_here | done
      | eassumption].
  - apply IH; eauto using list_elem_of_further.
Qed.

Section batch_loop.
Context (Henv : environment_ok env).

Lemma ml_elem_of_as_completed i p :
  p ∈ as_completed env i (batch_files i) ↔ p ∈ batch_files i.
Proof. by rewrite (as_completed_perm env Henv). Qed.

Lemma ml_batch_loop_progress starts :
  ∀ n, ∃ m,
    progress_of (batch_loop starts n) = (λ k, (k, total)) <$> seq (S n) m
    ∧ m ≤ successes env model labels (concat (batch_files <$> starts))
    ∧ (never_stopped env →
       m = successes env model labels (concat (batch_files <$> starts))).
Proof.
  induction starts as [|i starts IH]; intros n; [by exists 0|].
  cbn [Ml.batch_loop fmap list_fmap concat].
  rewrite successes_app.
  rewrite <- (successes_perm env model labels _ _
                (as_completed_perm env Henv i (batch_files i))).
  destruct (running_at_batch env i) eqn:Hrun.
  - destruct (ml_drain_progress i (as_completed env i (batch_files i)) 0 n)
      as (d & Hn' & Hd & Hprog & Hdall).
    destruct (Ml.drain _ _ _ _ i 0 _ n) as [[n' rs] sg].
    simpl in Hn', Hprog, Hdall. subst n'.
    destruct (IH (n + d)) as (m & Hm & Hle & Hmall).
    exists (d + m). split_and!; [|lia|].
    + unfold progress_of in *. rewrite !omap_app, Hprog, Hm.
      fold (progress_of (report i 0 rs)). rewrite ml_report_progress. simpl.
      rewrite seq_app, fmap_app. do 3 f_equal; lia.
    + intros Hnever. specialize (Hmall Hnever).
      destruct Hnever as (_ & Hfut & Hres).
      destruct (Hdall (Hfut i)) as [-> _]. lia.
  - exists 0. split_and!; [done | lia |].
    intros (Hbatch & _). by rewrite Hbatch in Hrun.
Qed.

Lemma ml_batch_loop_stop before i after n :
  running_at_batch env i = false →
  batch_loop (before ++ i :: after) n = batch_loop before n.
Proof.
  intros Hstop. revert n. induction before as [|i' before IH]; intros n.
  - simpl. by rewrite Hstop.
  - cbn [app Ml.batch_loop].
    destruct (running_at_batch env i'); [|done].
    destruct (Ml.drain _ _ _ _ i' 0 _ n) as [[n' rs] sg].
    by rewrite IH.
Qed.

Lemma ml_batch_loop_running starts :
  never_stopped env →
  ∀ n i p, i ∈ starts → p ∈ batch_files i →
    (∀ e, outcome_of p = inl e →
          processing_error p e ∈ batch_loop starts n)
    ∧ (∀ c f o, outcome_of p = inr (c, f, o) →
                result_update p c (format_2f f) ∈ batch_loop starts n).
Proof.
  intros (Hbatch & Hfut & Hres).
  induction starts as [|i' starts IH]; intros n i p Hi Hp;
    [by apply elem_of_nil in Hi|].
  cbn [Ml.batch_loop]. rewrite Hbatch.
  pose proof (ml_drain_errors i' (as_completed env i' (batch_files i')) 0 n)
    as Herrs.
  destruct (ml_drain_progress i' (as_completed env i' (batch_files i')) 0 n)
    as (d & _ & _ & _ & Hall).
  specialize (Hall (Hfut i')) as [_ Hrs].
  destruct (Ml.drain _ _ _ _ i' 0 _ n) as [[n' rs] sg]. simpl in Hrs, Herrs.
  apply elem_of_cons in Hi as [->|Hi].
  - split.
    + intros e He. apply elem_of_app. left.
      apply Herrs; [by apply ml_elem_of_as_completed | done].
    + intros c f o Ho. apply elem_of_app. right. apply elem_of_app. left.
      apply (ml_report_running i' rs (Hres i') 0 p c f o). subst rs.
      apply list_elem_of_omap.
      exists p. split; [by apply ml_elem_of_as_completed|].
      apply result_of_Some. eauto 10.
  - destruct (IH n' i p Hi Hp) as [Herr Hok].
    split; intros; rewrite !elem_of_app; right; right; eauto.
Qed.

End batch_loop.
End ml_facts.


(** ** The run as a whole *)

Section run_facts.
Import World Trace.
Local Open Scope nat_scope.
Context {Value Layer Model : Type} (env : environment Value Layer Model).
Context (self : thread).

Local Abbreviation B := (batch_size self).
Local Abbreviation starts_of image_files :=
  ((λ k, k * B) <$> seq 0 (ceil_div (length (image_files : list string)) B)).

Lemma setup_NoDup model labels image_files :
  environment_ok env →
  Classification.setup env self = inr (model, labels, image_files) →
  NoDup image_files.
Proof.
  intros Henv. unfold Classification.setup.
  destruct (ModelLoader.load_model_safely env (model_path self)).2; [done|].
  destruct (read_labels env (label_path self)); [done|].
  destruct (Classification.make_class_folders env self _); [done|].
  intros [= <- <- <-]. apply (list_set_NoDup env Henv).
Qed.

Lemma classification_run_batches model labels image_files :
  Classification.setup env self = inr (model, labels, image_files) → 0 < B →
  Classification.run env self
  = (Classification.batch_loop env self model labels image_files
       (starts_of image_files) 0 ++ [finished])%list.
Proof.
  intros Hsetup HB. unfold Classification.run, Classification.total_files.
  by rewrite Hsetup, range_spec.
Qed.

Lemma ml_run_batches model labels image_files :
  Classification.setup env self = inr (model, labels, image_files) → 0 < B →
  Ml.run env self
  = (Ml.batch_loop env self model labels image_files
       (starts_of image_files) 0 ++ [finished])%list.
Proof.
  intros Hsetup HB. unfold Ml.run, Ml.total_files.
  change (Ml.setup env self) with (Classification.setup env self).
  by rewrite Hsetup, range_spec.
Qed.

(** With a batch size of zero [range] raises, which is fatal as well. *)
Lemma run_zero model labels image_files :
  Classification.setup env self = inr (model, labels, image_files) → B = 0 →
  ∃ e,
    Classification.run env self
    = [error ("Error in classification setup: " +:+ Py.str e); finished]
    ∧ Ml.run env self
      = [error ("Error in classification process: " +:+ Py.str e); finished].
Proof.
  intros Hsetup HB. unfold Classification.run, Ml.run.
  change (Ml.setup env self) with (Classification.setup env self).
  rewrite Hsetup, HB. by eexists.
Qed.

Lemma finished_count_snoc body :
  Forall (λ s, s ≠ finished) body → finished_count (body ++ [finished])%list = 1.
Proof.
  intros Hbody. unfold finished_count. rewrite filter_app, length_app.
  replace (filter (λ s, s = finished) body) with (@nil signal); [done|].
  symmetry. induction Hbody as [|s body Hs _ IH]; [done|].
  by rewrite filter_cons, decide_False.
Qed.

Lemma classification_no_finished model labels image_files starts n :
  Forall (λ s, s ≠ finished)
    (Classification.batch_loop env self model labels image_files starts n).
Proof. by apply batch_loop_signals. Qed.

Lemma ml_no_finished model labels image_files starts n :
  Forall (λ s, s ≠ finished)
    (Ml.batch_loop env self model labels image_files starts n).
Proof. by apply ml_batch_loop_signals. Qed.

(** The shape of every run: signals other than [finished], then
    [finished]. *)
Lemma run_shape :
  (∃ body, Classification.run env self = (body ++ [finished])%list
           ∧ Forall (λ s, s ≠ finished) body)
  ∧ (∃ body, Ml.run env self = (body ++ [finished])%list
             ∧ Forall (λ s, s ≠ finished) body).
Proof.
  destruct (Classification.setup env self) as [e|[[model labels] image_files]]
    eqn:Hsetup.
  - unfold Classification.run, Ml.run.
    change (Ml.setup env self) with (Classification.setup env self).
    rewrite Hsetup.
    split; eexists [_]; (split; [done|]); by apply Forall_singleton.
  - destruct (decide (B = 0)) as [HB|HB].
    + destruct (run_zero _ _ _ Hsetup HB) as (e & -> & ->).
      split; eexists [_]; (split; [done|]); by apply Forall_singleton.
    + rewrite (classification_run_batches _ _ _ Hsetup) by lia.
      rewrite (ml_run_batches _ _ _ Hsetup) by lia.
      split; eexists; (split; [done|]).
      * apply classification_no_finished.
      * apply ml_no_finished.
Qed.

(** C3. Each run emits [finished] exactly once, as its last signal, in both
    files; when the statements before the batch loop raise (model loading,
    reading of the labels, creation of the class folders), the run consists
    of one [error] emission followed by [finished]. *)
Theorem finished_exactly_once :
  (finished_count (Classification.run env self) = 1
   ∧ last (Classification.run env self) = Some finished
   ∧ ∀ e, Classification.setup env self = inl e →
          Classification.run env self
          = [error ("Error in classification setup: " +:+ Py.str e);
             finished])
  ∧ (finished_count (Ml.run env self) = 1
     ∧ last (Ml.run env self) = Some finished
     ∧ ∀ e, Ml.setup env self = inl e →
            Ml.run env self
            = [error ("Error in classification process: " +:+ Py.str e);
               finished]).
Proof.
  destruct run_shape as [(body & Hrun & Hbody) (body' & Hrun' & Hbody')].
  split; split_and!.
  - rewrite Hrun. by apply finished_count_snoc.
  - rewrite Hrun. apply last_snoc.
  - intros e He. unfold Classification.run. by rewrite He.
  - rewrite Hrun'. by apply finished_count_snoc.
  - rewrite Hrun'. apply last_snoc.
  - intros e He. unfold Ml.run. by rewrite He.
Qed.

Lemma results_of_snoc_finished body :
  results_of (body ++ [finished])%list = results_of body.
Proof. unfold results_of. by rewrite omap_app, app_nil_r. Qed.

Lemma progress_of_snoc_finished body :
  progress_of (body ++ [finished])%list = progress_of body.
Proof. unfold progress_of. by rewrite omap_app, app_nil_r. Qed.

Lemma elem_of_results_of p signals :
  p ∈ results_of signals ↔ ∃ c f, result_update p c f ∈ signals.
Proof.
  unfold results_of. rewrite list_elem_of_omap. split.
  - intros ([] & Hs & [= <-]). eauto.
  - intros (c & f & Hs). eauto.
Qed.

(** The values of [i] split at the batch that starts at [S k * B]. *)
Lemma starts_split image_files k :
  S k < ceil_div (length image_files) B →
  ∃ after,
    starts_of image_files
    = (((λ k, k * B) <$> seq 0 (S k)) ++ S k * B :: after)%list.
Proof.
  intros Hk.
  replace (ceil_div (length image_files) B)
    with (S k + S (ceil_div (length image_files) B - S (S k))) by lia.
  rewrite seq_app, fmap_app. cbn [seq fmap list_fmap]. eauto.
Qed.

(** C4. When [stop()] is called after batch [k] has been drained and before
    batch [k + 1] begins, the thread reads [is_running] as false at the top
    of batch [k + 1], which starts at index [(k + 1) * batch_size]. Then no
    [result_update] is emitted for any image at that index or after it,
    that is, for any image of batch [k + 1] or of a later batch, and the run
    still emits [finished] exactly once.  Both files. *)
Theorem stop_between_batches model labels image_files k :
  environment_ok env →
  Classification.setup env self = inr (model, labels, image_files) →
  running_at_batch env (S k * B) = false →
  (∀ j img_path, S k * B ≤ j → image_files !! j = Some img_path →
     (img_path ∉ results_of (Classification.run env self))
     ∧ (img_path ∉ results_of (Ml.run env self)))
  ∧ finished_count (Classification.run env self) = 1
  ∧ finished_count (Ml.run env self) = 1.
Proof.
  intros Henv Hsetup Hstop.
  split; [|split; apply finished_exactly_once].
  intros j p Hj Hp.
  destruct (decide (B = 0)) as [HB|HB].
  { destruct (run_zero _ _ _ Hsetup HB) as (e & -> & ->).
    split; by intros ?%elem_of_nil. }
  rewrite (classification_run_batches _ _ _ Hsetup) by lia.
  rewrite (ml_run_batches _ _ _ Hsetup) by lia.
  rewrite !results_of_snoc_finished.
  pose proof (ceil_div_spec (length image_files) B ltac:(lia)) as [Hceil _].
  pose proof (lookup_lt_Some _ _ _ Hp) as Hlen.
  destruct (starts_split image_files k) as [after ->]; [nia|].
  rewrite batch_loop_stop, ml_batch_loop_stop by done.
  pose proof (setup_NoDup _ _ _ Henv Hsetup) as Hnodup.
  assert (∀ i p', i ∈ (λ k, k * B) <$> seq 0 (S k) →
            p' ∈ as_completed env i (take B (drop i image_files)) →
            p' ≠ p) as Hbefore.
  { intros i p' (k' & -> & Hk')%list_elem_of_fmap Hp' ->.
    apply elem_of_seq in Hk'.
    rewrite (as_completed_perm env Henv) in Hp'.
    apply (elem_of_chunk image_files B) in Hp' as (j' & Hj' & ?).
    - assert (j' = j) by (eapply NoDup_lookup; eauto). nia.
    - lia. }
  pose (P := λ s : signal, ∀ c f, s ≠ result_update p c f).
  assert (Forall P (Classification.batch_loop env self model labels
                      image_files ((λ k, k * B) <$> seq 0 (S k)) 0)) as Hc.
  { apply batch_loop_signals; try done.
    intros i p' c' f' o Hi Hp' _ c f [= -> _ _]. by eapply Hbefore. }
  assert (Forall P (Ml.batch_loop env self model labels
                      image_files ((λ k, k * B) <$> seq 0 (S k)) 0)) as Hm.
  { apply ml_batch_loop_signals; try done.
    intros i p' c' f' o Hi Hp' _ c f [= -> _ _]. by eapply Hbefore. }
  rewrite Forall_forall in Hc, Hm.
  split; intros (c & f & Hin)%elem_of_results_of.
  - by eapply Hc.
  - by eapply Hm.
Qed.

(** Every image is in the batch of one of the values of [i]. *)
Lemma elem_of_batch (image_files : list string) img_path :
  0 < B → img_path ∈ image_files →
  ∃ i, i ∈ starts_of image_files ∧ img_path ∈ chunk image_files B i.
Proof.
  intros HB Hp. rewrite <- (concat_chunks image_files B HB) in Hp at 1.
  apply list_elem_of_In, in_concat in Hp as (c & Hc & Hp).
  apply list_elem_of_In, list_elem_of_fmap in Hc as (i & -> & Hi).
  exists i. split; [done|]. by apply list_elem_of_In.
Qed.

Lemma chunk_subseteq (image_files : list string) i img_path :
  img_path ∈ chunk image_files B i → img_path ∈ image_files.
Proof.
  unfold chunk. intros Hp. by apply (subseteq_drop i), (subseteq_take B).
Qed.

(** C6. In a run that is never stopped, with the set-up statements done and
    a positive batch size: the run is the signals of the batch loop followed
    by [finished]; each signal of the loop is a progress report, the result
    of a discovered image that succeeded or the error of a discovered image
    that failed, so none is the fatal error; every image whose processing
    raises is reported by an [error] signal that names it (its base name in
    classification.py, its path in ml.py) and carries the text of the
    exception; and every image whose processing succeeds, in whatever batch,
    has its [result_update] emitted. *)
Theorem image_failure_not_fatal model labels image_files :
  environment_ok env → never_stopped env →
  Classification.setup env self = inr (model, labels, image_files) →
  0 < B →
  (∃ body,
     Classification.run env self = (body ++ [finished])%list
     ∧ Forall (image_signal env model labels Py.basename image_files) body
     ∧ (∀ img_path e,
          img_path ∈ image_files → outcome env model labels img_path = inl e →
          processing_error (Py.basename img_path) e ∈ body)
     ∧ (∀ img_path c f o,
          img_path ∈ image_files →
          outcome env model labels img_path = inr (c, f, o) →
          result_update img_path c (format_2f f) ∈ body))
  ∧ (∃ body,
       Ml.run env self = (body ++ [finished])%list
       ∧ Forall (image_signal env model labels id image_files) body
       ∧ (∀ img_path e,
            img_path ∈ image_files →
            outcome env model labels img_path = inl e →
            processing_error img_path e ∈ body)
       ∧ (∀ img_path c f o,
            img_path ∈ image_files →
            outcome env model labels img_path = inr (c, f, o) →
            result_update img_path c (format_2f f) ∈ body)).
Proof.
  intros Henv Hrun Hsetup HB.
  rewrite (classification_run_batches _ _ _ Hsetup HB).
  rewrite (ml_run_batches _ _ _ Hsetup HB).
  assert (∀ i p, p ∈ as_completed env i (take B (drop i image_files)) →
                 p ∈ image_files) as Hin.
  { intros i p Hp. rewrite (as_completed_perm env Henv) in Hp.
    by apply chunk_subseteq in Hp. }
  split; eexists; (split; [done|]); split_and!.
  - apply batch_loop_signals.
    + intros i p e _ Hp He. exists p, e. eauto.
    + intros i p c f o _ Hp Ho. exists f, o. eauto.
    + done.
  - intros p e (i & Hi & Hp)%elem_of_batch He; [|done].
    by eapply (batch_loop_running env self model labels image_files Henv).
  - intros p c f o (i & Hi & Hp)%elem_of_batch Ho; [|done].
    by eapply (batch_loop_running env self model labels image_files Henv).
  - apply ml_batch_loop_signals.
    + intros i p e _ Hp He. exists p, e. eauto.
    + intros i p c f o _ Hp Ho. exists f, o. eauto.
    + done.
  - intros p e (i & Hi & Hp)%elem_of_batch He; [|done].
    by eapply (ml_batch_loop_running env self model labels image_files Henv).
  - intros p c f o (i & Hi & Hp)%elem_of_batch Ho; [|done].
    by eapply (ml_batch_loop_running env self model labels image_files Henv).
Qed.

(** C9. The progress reports of a run count the images that succeeded.  With
    [N] the number of discovered images, of which [F] fail, the reports are
    [(1, N), (2, N), ..., (m, N)]: they start at one, go up by one, and
    [m + F <= N], so no report exceeds [N - F]; in a run that is never
    stopped, with a positive batch size, [m + F = N]: the last report is
    [(N - F, N)].  Both files. *)
Theorem progress_counts_successes model labels image_files :
  environment_ok env →
  Classification.setup env self = inr (model, labels, image_files) →
  let N := length image_files in
  let F := failures env model labels image_files in
  (∃ m, progress_of (Classification.run env self)
        = (λ k, (k, N)) <$> seq 1 m
        ∧ m + F ≤ N
        ∧ (never_stopped env → 0 < B → m + F = N))
  ∧ (∃ m, progress_of (Ml.run env self) = (λ k, (k, N)) <$> seq 1 m
          ∧ m + F ≤ N
          ∧ (never_stopped env → 0 < B → m + F = N)).
Proof.
  intros Henv Hsetup N F.
  pose proof (successes_failures env model labels image_files) as Hsf.
  fold N F in Hsf.
  destruct (decide (B = 0)) as [HB|HB].
  { destruct (run_zero _ _ _ Hsetup HB) as (e & -> & ->).
    split; exists 0; (split; [done|]); split; lia. }
  assert (0 < B) as HB' by lia.
  rewrite (classification_run_batches _ _ _ Hsetup HB').
  rewrite (ml_run_batches _ _ _ Hsetup HB').
  rewrite !progress_of_snoc_finished.
  pose proof (concat_chunks image_files B HB') as Hcat.
  destruct (batch_loop_progress env self model labels image_files Henv
              (starts_of image_files) 0) as (m & Hm & Hle & Hall).
  destruct (ml_batch_loop_progress env self model labels image_files Henv
              (starts_of image_files) 0) as (m' & Hm' & Hle' & Hall').
  change (Classification.batch_files self image_files)
    with (chunk image_files B) in Hle, Hall.
  change (Ml.batch_files self image_files)
    with (chunk image_files B) in Hle', Hall'.
  rewrite Hcat in Hle, Hall, Hle', Hall'.
  split; [exists m|exists m']; (split; [done|]); split; try lia.
  - intros Hrun _. specialize (Hall Hrun). lia.
  - intros Hrun _. specialize (Hall' Hrun). lia.
Qed.

End run_facts.


(** ** [process_image] and the file it saves *)

Section process_image_facts.
Import World.
Local Open Scope nat_scope.
Context {Value Layer Model : Type} (env : environment Value Layer Model).
Context (self : thread).

(** C2. An image classifies successfully when PIL opens it, the model
    predicts a class index that has a label, and the save raises nothing.
    Then [process_image] returns the tuple of the image, its class, the
    confidence and the output path
    [output_folder/predicted_class/basename(img_path)], and has saved a
    picture at that path.  In classification.py the picture saved is the
    opened image converted to RGB, with the dimensions of the source; in
    ml.py it is the image resized to 224 x 224. *)
Theorem process_image_saves files img_path model labels opened
    predicted_class_idx confidence predicted_class :
  let img := convert opened "RGB" in
  let img_resized := resize img (224, 224) in
  let output_path :=
    Py.path_join (Py.path_join (output_folder self) predicted_class)
      (Py.basename img_path) in
  let returned := (img_path, predicted_class, confidence, output_path) in
  Image_open files img_path = inr opened →
  predict env model img_resized = inr (predicted_class_idx, confidence) →
  labels !! predicted_class_idx = Some predicted_class →
  save_error env output_path = None →
  (∃ files',
     Classification.process_image env self files img_path model labels
     = (files', inr returned)
     ∧ files' !! output_path = Some (Picture img)
     ∧ size img = size opened)
  ∧ (∃ files',
       Ml.process_image env self files img_path model labels
       = (files', [], Some returned)
       ∧ files' !! output_path = Some (Picture img_resized)
       ∧ size img_resized = (224, 224)).
Proof.
  intros img img_resized output_path returned Hopen Hpredict Hlabel Hsave.
  unfold Classification.process_image, Ml.process_image.
  fold img img_resized. rewrite Hopen. cbv zeta.
  fold img img_resized. rewrite Hpredict, Hlabel.
  fold output_path. rewrite Hsave.
  split; eexists; (split; [done|]); by rewrite lookup_insert_eq.
Qed.

End process_image_facts.


(** ** The example run *)

Section example_facts.
Import World Trace.
Local Open Scope nat_scope.

Lemma example_environment_ok outcome running_at_batch :
  environment_ok (Example.environment_with outcome running_at_batch).
Proof.
  split; simpl.
  - apply NoDup_remove_dups.
  - intros l x. apply elem_of_remove_dups.
  - intros _ l. apply reverse_Permutation.
Qed.

Lemma example_never_stopped : never_stopped Example.env.
Proof. by split_and!. Qed.

Lemma example_setup :
  Classification.setup Example.env Example.self
  = inr (tt, Example.labels, Example.image_files).
Proof. by vm_compute. Qed.

Lemma example_setup_stopped :
  Classification.setup Example.env_stopped Example.self
  = inr (tt, Example.labels, Example.image_files).
Proof. by vm_compute. Qed.

(** The signals of the two runs, in classification.py and in ml.py. *)
Lemma example_run :
  Classification.run Example.env Example.self
  = [error "Error processing b.jpg: cannot identify image file 'in/b.jpg'";
     result_update "in/a.jpg" "cat" "0.88"; progress_update 1 5;
     result_update "in/d.png" "cat" "0.88"; progress_update 2 5;
     result_update "in/c.jpg" "cat" "0.88"; progress_update 3 5;
     result_update "in/e.bmp" "cat" "0.88"; progress_update 4 5;
     finished].
Proof. by vm_compute. Qed.

Lemma example_ml_run :
  Ml.run Example.env Example.self
  = [error "Error processing in/b.jpg: cannot identify image file 'in/b.jpg'";
     progress_update 1 5; result_update "in/a.jpg" "cat" "0.88";
     progress_update 2 5; progress_update 3 5;
     result_update "in/d.png" "cat" "0.88";
     result_update "in/c.jpg" "cat" "0.88";
     progress_update 4 5; result_update "in/e.bmp" "cat" "0.88";
     finished].
Proof. by vm_compute. Qed.

Lemma example_run_stopped :
  Classification.run Example.env_stopped Example.self
  = [error "Error processing b.jpg: cannot identify image file 'in/b.jpg'";
     result_update "in/a.jpg" "cat" "0.88"; progress_update 1 5;
     finished]
  ∧ Ml.run Example.env_stopped Example.self
    = [error
         "Error processing in/b.jpg: cannot identify image file 'in/b.jpg'";
       progress_update 1 5; result_update "in/a.jpg" "cat" "0.88";
       finished].
Proof. by vm_compute. Qed.

Lemma process_image_saves_witness :
  (∃ files',
     Classification.process_image Example.env Example.self Example.pictures
       "in/a.jpg" tt Example.labels
     = (files', inr ("in/a.jpg", "cat", 0.875%float, "out/cat/a.jpg"))
     ∧ files' !! "out/cat/a.jpg" = Some (Picture (Image "RGB" (640, 480)))
     ∧ (640, 480) = size (Image "L" (640, 480)))
  ∧ (∃ files',
       Ml.process_image Example.env Example.self Example.pictures
         "in/a.jpg" tt Example.labels
       = (files', [], Some ("in/a.jpg", "cat", 0.875%float, "out/cat/a.jpg"))
       ∧ files' !! "out/cat/a.jpg" = Some (Picture (Image "RGB" (224, 224)))
       ∧ (224, 224) = (224, 224)).
Proof.
  exact (process_image_saves Example.env Example.self Example.pictures
           "in/a.jpg" tt Example.labels (Image "L" (640, 480)) 0
           0.875%float "cat" eq_refl eq_refl eq_refl eq_refl).
Defined.

Lemma stop_between_batches_witness :
  (∀ j img_path,
     S 0 * batch_size Example.self ≤ j →
     Example.image_files !! j = Some img_path →
     (img_path ∉ results_of (Classification.run Example.env_stopped
                               Example.self))
     ∧ (img_path ∉ results_of (Ml.run Example.env_stopped Example.self)))
  ∧ finished_count (Classification.run Example.env_stopped Example.self) = 1
  ∧ finished_count (Ml.run Example.env_stopped Example.self) = 1.
Proof.
  apply (stop_between_batches Example.env_stopped Example.self tt
           Example.labels Example.image_files 0).
  - apply example_environment_ok.
  - vm_compute. reflexivity.
  - reflexivity.
Defined.

Lemma image_failure_not_fatal_witness :
  (∃ body,
     Classification.run Example.env Example.self = (body ++ [finished])%list
     ∧ Forall (image_signal Example.env tt Example.labels Py.basename
                 Example.image_files) body
     ∧ (∀ img_path e,
          img_path ∈ Example.image_files →
          outcome Example.env tt Example.labels img_path = inl e →
          processing_error (Py.basename img_path) e ∈ body)
     ∧ (∀ img_path c f o,
          img_path ∈ Example.image_files →
          outcome Example.env tt Example.labels img_path = inr (c, f, o) →
          result_update img_path c (format_2f f) ∈ body))
  ∧ (∃ body,
       Ml.run Example.env Example.self = (body ++ [finished])%list
       ∧ Forall (image_signal Example.env tt Example.labels id
                   Example.image_files) body
       ∧ (∀ img_path e,
            img_path ∈ Example.image_files →
            outcome Example.env tt Example.labels img_path = inl e →
            processing_error img_path e ∈ body)
       ∧ (∀ img_path c f o,
            img_path ∈ Example.image_files →
            outcome Example.env tt Example.labels img_path = inr (c, f, o) →
            result_update img_path c (format_2f f) ∈ body)).
Proof.
  apply (image_failure_not_fatal Example.env Example.self tt Example.labels
           Example.image_files).
  - apply example_environment_ok.
  - apply example_never_stopped.
  - vm_compute. reflexivity.
  - simpl. lia.
Defined.

Lemma progress_counts_successes_witness :
  failures Example.env tt Example.labels Example.image_files = 1
  ∧ (∃ m, progress_of (Classification.run Example.env Example.self)
          = (λ k, (k, 5)) <$> seq 1 m
          ∧ m + 1 ≤ 5
          ∧ (never_stopped Example.env → 0 < batch_size Example.self →
             m + 1 = 5))
  ∧ (∃ m, progress_of (Ml.run Example.env Example.self)
          = (λ k, (k, 5)) <$> seq 1 m
          ∧ m + 1 ≤ 5
          ∧ (never_stopped Example.env → 0 < batch_size Example.self →
             m + 1 = 5)).
Proof.
  split; [by vm_compute|].
  apply (progress_counts_successes Example.env Example.self tt Example.labels
           Example.image_files).
  - apply example_environment_ok.
  - vm_compute. reflexivity.
Defined.

End example_facts.


(** ** More on the run: no images, no batches, no repetition *)

Section run_edges.
Import World Trace.
Local Open Scope nat_scope.
Context {Value Layer Model : Type} (env : environment Value Layer Model).
Context (self : thread).

(** X1. With no image discovered (and a positive batch size) the run emits
    [finished] and nothing else: no error, no progress report. *)
Theorem run_without_images model labels :
  Classification.setup env self = inr (model, labels, []) →
  0 < batch_size self →
  Classification.run env self = [finished] ∧ Ml.run env self = [finished].
Proof.
  intros Hsetup HB.
  rewrite (classification_run_batches env self _ _ _ Hsetup HB).
  rewrite (ml_run_batches env self _ _ _ Hsetup HB).
  by rewrite ceil_div_0.
Qed.

(** X2. With a batch size of zero [range(0, total_files, 0)] raises, after the
    class folders have been created: the run reports the ValueError as a
    fatal error and processes no image, however many were discovered. *)
Theorem run_batch_size_zero model labels image_files :
  Classification.setup env self = inr (model, labels, image_files) →
  batch_size self = 0 →
  Classification.run env self
  = [error "Error in classification setup: range() arg 3 must not be zero";
     finished]
  ∧ Ml.run env self
    = [error "Error in classification process: range() arg 3 must not be zero";
       finished].
Proof.
  intros Hsetup HB. unfold Classification.run, Ml.run.
  change (Ml.setup env self) with (Classification.setup env self).
  by rewrite Hsetup, HB.
Qed.

End run_edges.

Lemma run_without_images_witness :
  Classification.run Example.env Scenario.self_no_folders = [World.finished]
  ∧ Ml.run Example.env Scenario.self_no_folders = [World.finished].
Proof.
  apply (run_without_images Example.env Scenario.self_no_folders tt
           Example.labels).
  - vm_compute. reflexivity.
  - simpl. lia.
Defined.

Lemma run_batch_size_zero_witness :
  Classification.run Example.env Scenario.self_zero_batch
  = [World.error
       "Error in classification setup: range() arg 3 must not be zero";
     World.finished]
  ∧ Ml.run Example.env Scenario.self_zero_batch
    = [World.error
         "Error in classification process: range() arg 3 must not be zero";
       World.finished].
Proof.
  apply (run_batch_size_zero Example.env Scenario.self_zero_batch tt
           Example.labels Example.image_files).
  - vm_compute. reflexivity.
  - reflexivity.
Defined.


(** ** More on the run: every image is reported once at most *)

Section results_facts.
Import World Trace.
Local Open Scope nat_scope.
Context {Value Layer Model : Type} (env : environment Value Layer Model).
Context (self : thread) (model : Model) (labels image_files : list string).

Local Abbreviation result_of := (Trace.result_of env model labels).
Local Abbreviation completed :=
  (λ i, as_completed env i (Classification.batch_files self image_files i)).

Lemma results_of_result p c f signals :
  results_of (result_update p c f :: signals) = p :: results_of signals.
Proof. done. Qed.

Lemma results_of_progress k n signals :
  results_of (progress_update k n :: signals) = results_of signals.
Proof. done. Qed.

Lemma results_of_app signals1 signals2 :
  results_of (signals1 ++ signals2)
  = (results_of signals1 ++ results_of signals2)%list.
Proof. apply omap_app. Qed.

Lemma progress_of_result p c f signals :
  progress_of (result_update p c f :: signals) = progress_of signals.
Proof. done. Qed.

Lemma progress_of_progress k n signals :
  progress_of (progress_update k n :: signals) = (k, n) :: progress_of signals.
Proof. done. Qed.

Lemma progress_of_app signals1 signals2 :
  progress_of (signals1 ++ signals2)
  = (progress_of signals1 ++ progress_of signals2)%list.
Proof. apply omap_app. Qed.

(** The paths of the results kept of a list of futures are among the
    futures, in their order. *)
Lemma result_paths_sublist futures :
  (λ r : result, r.1.1.1) <$> omap result_of futures `sublist_of` futures.
Proof.
  induction futures as [|p futures IH]; [done|].
  cbn [omap list_omap]. destruct (result_of p) as [r|] eqn:Hr.
  - apply (result_of_Some env model labels) in Hr as (c & f & o & _ & ->).
    by apply sublist_skip.
  - by apply sublist_cons.
Qed.

Lemma result_paths_take_sublist k d futures :
  (λ r : result, r.1.1.1) <$> take d (omap result_of (take k futures))
  `sublist_of` futures.
Proof.
  rewrite fmap_take. etrans; [apply sublist_take|].
  etrans; [apply result_paths_sublist|]. apply sublist_take.
Qed.

(** The loop over the results of a batch emits a result and a progress
    report for each of the first results, as many as it gets to. *)
Lemma report_results i batch_results :
  ∀ j n, ∃ d,
    results_of (Classification.report env image_files i j batch_results n).2
    = (λ r : result, r.1.1.1) <$> take d batch_results
    ∧ length (progress_of
                (Classification.report env image_files i j batch_results n).2)
      = length (take d batch_results).
Proof.
  induction batch_results as [|[[[p c] f] o] rs IH]; intros j n;
    [by exists 0|].
  cbn [Classification.report].
  destruct (running_at_result env i j); [|by exists 0].
  destruct (IH (S j) (S n)) as (d & Hres & Hprog).
  destruct (Classification.report _ _ i (S j) rs (S n)) as [n' sg].
  exists (S d). cbn [snd take fmap list_fmap fst length] in *.
  rewrite results_of_result, results_of_progress, progress_of_result,
    progress_of_progress, Hres. simpl. by rewrite Hprog.
Qed.

Lemma ml_report_results i batch_results :
  ∀ j, ∃ d,
    results_of (Ml.report env i j batch_results)
    = (λ r : result, r.1.1.1) <$> take d batch_results.
Proof.
  induction batch_results as [|[[[p c] f] o] rs IH]; intros j; [by exists 0|].
  cbn [Ml.report]. destruct (running_at_result env i j); [|by exists 0].
  destruct (IH (S j)) as (d & Hres).
  exists (S d). by rewrite results_of_result, Hres.
Qed.

Lemma ml_drain_no_results i futures :
  ∀ j n, results_of (Ml.drain env model labels image_files i j futures n).2
         = [].
Proof.
  assert (∀ l, results_of (l ≫= Ml.worker_signals env model labels) = [])
    as Hworkers.
  { intros l. rewrite bind_worker_signals. apply results_of_errors. }
  assert (∀ p, results_of (Ml.worker_signals env model labels p) = [])
    as Hworker.
  { intros p. specialize (Hworkers [p]). simpl in Hworkers.
    by rewrite app_nil_r in Hworkers. }
  induction futures as [|p futures IH]; intros j n; [done|].
  cbn [Ml.drain]. destruct (running_at_future env i j).
  - destruct (outcome env model labels p) as [e|[[c f] o]].
    + specialize (IH (S j) n).
      destruct (Ml.drain _ _ _ _ i (S j) futures n) as [[n' rs] sg].
      simpl in *. by rewrite results_of_app, Hworker, IH.
    + specialize (IH (S j) (S n)).
      destruct (Ml.drain _ _ _ _ i (S j) futures (S n)) as [[n' rs] sg].
      simpl in *. by rewrite results_of_app, Hworker, results_of_progress.
  - simpl. by rewrite results_of_app, Hworker, Hworkers.
Qed.

(** The results of the batch loop are among the futures of its batches, in
    the order in which these are yielded; in classification.py there are as
    many progress reports as results, in ml.py at least as many. *)
Lemma batch_loop_results starts :
  ∀ n,
    results_of (Classification.batch_loop env self model labels image_files
                  starts n)
    `sublist_of` concat (completed <$> starts)
    ∧ length (progress_of (Classification.batch_loop env self model labels
                             image_files starts n))
      = length (results_of (Classification.batch_loop env self model labels
                              image_files starts n)).
Proof.
  induction starts as [|i starts IH]; intros n; [done|].
  cbn [Classification.batch_loop fmap list_fmap concat].
  destruct (running_at_batch env i); [|split; [apply sublist_nil_l|done]].
  destruct (drain_results env model labels i (completed i) 0) as [k Hrs].
  destruct (drain_signals env model labels i (completed i) 0) as [k' Hsg].
  destruct (Classification.drain _ _ _ i 0 _) as [rs sg1]. simpl in Hrs, Hsg.
  destruct (report_results i rs 0 n) as (d & Hres & Hprog).
  destruct (Classification.report _ _ i 0 rs n) as [n' sg2]. simpl in *.
  destruct (IH n') as [IH1 IH2].
  rewrite !results_of_app, !progress_of_app, !length_app.
  subst sg1. rewrite results_of_errors, progress_of_errors, Hres, Hprog.
  split.
  - simpl. apply sublist_app; [|done]. subst rs.
    apply result_paths_take_sublist.
  - simpl. by rewrite IH2, length_fmap.
Qed.

Lemma ml_drain_counts i futures :
  ∀ j n,
    length (Ml.drain env model labels image_files i j futures n).1.2
    = length (progress_of
                (Ml.drain env model labels image_files i j futures n).2).
Proof.
  assert (∀ l, progress_of (l ≫= Ml.worker_signals env model labels) = [])
    as Hworkers.
  { intros l. rewrite bind_worker_signals. apply progress_of_errors. }
  assert (∀ p, progress_of (Ml.worker_signals env model labels p) = [])
    as Hworker.
  { intros p. specialize (Hworkers [p]). simpl in Hworkers.
    by rewrite app_nil_r in Hworkers. }
  induction futures as [|p futures IH]; intros j n; [done|].
  cbn [Ml.drain]. destruct (running_at_future env i j).
  - destruct (outcome env model labels p) as [e|[[c f] o]].
    + specialize (IH (S j) n).
      destruct (Ml.drain _ _ _ _ i (S j) futures n) as [[n' rs] sg].
      simpl in *. by rewrite progress_of_app, Hworker, IH.
    + specialize (IH (S j) (S n)).
      destruct (Ml.drain _ _ _ _ i (S j) futures (S n)) as [[n' rs] sg].
      simpl in *.
      rewrite progress_of_app, Hworker, progress_of_progress. simpl.
      by rewrite IH.
  - simpl. by rewrite progress_of_app, Hworker, Hworkers.
Qed.

Lemma ml_batch_loop_results starts :
  ∀ n,
    results_of (Ml.batch_loop env self model labels image_files starts n)
    `sublist_of` concat (completed <$> starts)
    ∧ length (results_of (Ml.batch_loop env self model labels image_files
                            starts n))
      ≤ length (progress_of (Ml.batch_loop env self model labels image_files
                               starts n)).
Proof.
  induction starts as [|i starts IH]; intros n; [done|].
  cbn [Ml.batch_loop fmap list_fmap concat].
  destruct (running_at_batch env i); [|split; [apply sublist_nil_l|done]].
  change (Ml.batch_files self image_files i)
    with (Classification.batch_files self image_files i).
  destruct (ml_drain_results env model labels image_files i (completed i) 0 n)
    as [k Hrs].
  pose proof (ml_drain_no_results i (completed i) 0 n) as Hsg.
  pose proof (ml_drain_counts i (completed i) 0 n) as Hcount.
  destruct (Ml.drain _ _ _ _ i 0 _ n) as [[n' rs] sg1].
  simpl in Hrs, Hsg, Hcount.
  destruct (ml_report_results i rs 0) as (d & Hres).
  destruct (IH n') as [IH1 IH2].
  rewrite !results_of_app, !progress_of_app, !length_app, Hsg, Hres.
  rewrite ml_report_progress, <- Hcount. simpl. split.
  - apply sublist_app; [|done]. subst rs. apply result_paths_take_sublist.
  - rewrite length_fmap, length_take. lia.
Qed.

Section batches.
Context (Henv : environment_ok env) (HB : 0 < batch_size self).

Lemma completed_batches :
  concat (completed <$> ((λ k, k * batch_size self)
                           <$> seq 0 (ceil_div (length image_files)
                                        (batch_size self))))
  ≡ₚ image_files.
Proof.
  rewrite <- (concat_chunks image_files (batch_size self) HB) at 2.
  generalize ((λ k, k * batch_size self)
                <$> seq 0 (ceil_div (length image_files) (batch_size self))).
  intros starts. induction starts as [|i starts IH]; [done|].
  cbn [fmap list_fmap concat].
  by rewrite IH, (as_completed_perm env Henv).
Qed.

End batches.
End results_facts.

Section results_of_run.
Import World Trace.
Local Open Scope nat_scope.
Context {Value Layer Model : Type} (env : environment Value Layer Model).
Context (self : thread).

(** X3. No image is reported twice: the images for which a run emits
    [result_update] are discovered images, each at most once.  Both
    files. *)
Theorem results_reported_once model labels image_files :
  environment_ok env →
  Classification.setup env self = inr (model, labels, image_files) →
  (NoDup (results_of (Classification.run env self))
   ∧ results_of (Classification.run env self) ⊆ image_files)
  ∧ (NoDup (results_of (Ml.run env self))
     ∧ results_of (Ml.run env self) ⊆ image_files).
Proof.
  intros Henv Hsetup.
  destruct (decide (batch_size self = 0)) as [HB|HB].
  { destruct (run_zero env self _ _ _ Hsetup HB) as (e & -> & ->).
    repeat split; try apply NoDup_nil_2; by intros p ?%elem_of_nil. }
  assert (0 < batch_size self) as HB' by lia.
  rewrite (classification_run_batches env self _ _ _ Hsetup HB').
  rewrite (ml_run_batches env self _ _ _ Hsetup HB').
  rewrite !results_of_snoc_finished.
  pose proof (setup_NoDup env self _ _ _ Henv Hsetup) as Hnodup.
  pose proof (completed_batches env self image_files Henv HB') as Hperm.
  destruct (batch_loop_results env self model labels image_files
              ((λ k, k * batch_size self)
                 <$> seq 0 (ceil_div (length image_files) (batch_size self)))
              0) as [Hc _].
  destruct (ml_batch_loop_results env self model labels image_files
              ((λ k, k * batch_size self)
                 <$> seq 0 (ceil_div (length image_files) (batch_size self)))
              0) as [Hm _].
  rewrite <- Hperm in Hnodup.
  split; split.
  - by eapply sublist_NoDup.
  - intros p Hp. rewrite <- Hperm. exact (sublist_subseteq _ _ Hc p Hp).
  - by eapply sublist_NoDup.
  - intros p Hp. rewrite <- Hperm. exact (sublist_subseteq _ _ Hm p Hp).
Qed.

(** X4. In classification.py a progress report follows every result, so a run
    emits as many of the ones as of the others; in ml.py the progress
    reports of a batch are emitted while its futures complete and the
    results afterwards, so a stop in between leaves results that were
    counted and never shown: there are at most as many results as progress
    reports. *)
Theorem progress_and_results :
  length (progress_of (Classification.run env self))
  = length (results_of (Classification.run env self))
  ∧ length (results_of (Ml.run env self))
    ≤ length (progress_of (Ml.run env self)).
Proof.
  destruct (Classification.setup env self) as [e|[[model labels] image_files]]
    eqn:Hsetup.
  { unfold Classification.run, Ml.run.
    change (Ml.setup env self) with (Classification.setup env self).
    by rewrite Hsetup. }
  destruct (decide (batch_size self = 0)) as [HB|HB].
  { by destruct (run_zero env self _ _ _ Hsetup HB) as (e & -> & ->). }
  assert (0 < batch_size self) as HB' by lia.
  rewrite (classification_run_batches env self _ _ _ Hsetup HB').
  rewrite (ml_run_batches env self _ _ _ Hsetup HB').
  rewrite !results_of_snoc_finished, !progress_of_snoc_finished.
  split.
  - apply batch_loop_results.
  - apply ml_batch_loop_results.
Qed.

End results_of_run.

Lemma results_reported_once_witness :
  (NoDup (Trace.results_of (Classification.run Example.env Example.self))
   ∧ Trace.results_of (Classification.run Example.env Example.self)
     ⊆ Example.image_files)
  ∧ (NoDup (Trace.results_of (Ml.run Example.env Example.self))
     ∧ Trace.results_of (Ml.run Example.env Example.self)
       ⊆ Example.image_files).
Proof.
  apply (results_reported_once Example.env Example.self tt Example.labels
           Example.image_files).
  - apply example_environment_ok.
  - vm_compute. reflexivity.
Defined.


(** ** More on [process_image]: what it writes *)

Section process_image_effects.
Import World.
Local Open Scope nat_scope.
Context {Value Layer Model : Type} (env : environment Value Layer Model).
Context (self : thread).

(** What a successful call is made of. *)
Lemma process_image_inr files img_path model labels files' r :
  Classification.process_image env self files img_path model labels
  = (files', inr r) →
  ∃ opened predicted_class_idx confidence predicted_class,
    let output_path :=
      Py.path_join (Py.path_join (output_folder self) predicted_class)
        (Py.basename img_path) in
    Image_open files img_path = inr opened
    ∧ labels !! predicted_class_idx = Some predicted_class
    ∧ r = (img_path, predicted_class, confidence, output_path)
    ∧ files' = <[output_path := Picture (convert opened "RGB")]> files.
Proof.
  unfold Classification.process_image.
  destruct (Image_open files img_path) as [e|opened]; [done|].
  destruct (predict env model _) as [e|[idx confidence]]; [done|].
  destruct (labels !! idx) as [predicted_class|] eqn:Hlabel; [|done].
  destruct (save_error env _); [done|].
  intros [= <- <-]. by exists opened, idx, confidence, predicted_class.
Qed.



(** X6. Two images of the same file name that are put in the same class are
    saved under the same output path (it is made of the class and the file
    name only): once both are processed, the file there is the second
    image, and the copy of the first is lost. *)
Theorem process_image_name_clash files img_path1 img_path2 model labels
    files1 files2 predicted_class confidence1 confidence2 output_path1
    output_path2 :
  Py.basename img_path1 = Py.basename img_path2 →
  Classification.process_image env self files img_path1 model labels
  = (files1, inr (img_path1, predicted_class, confidence1, output_path1)) →
  Classification.process_image env self files1 img_path2 model labels
  = (files2, inr (img_path2, predicted_class, confidence2, output_path2)) →
  output_path1 = output_path2
  ∧ ∃ opened2,
      Image_open files1 img_path2 = inr opened2
      ∧ files2 !! output_path1 = Some (Picture (convert opened2 "RGB")).
Proof.
  intros Hname (o1&?&?&?&_&_&[= -> -> ->]&->)%process_image_inr
    (o2&?&?&?&Hopen&_&[= -> -> ->]&->)%process_image_inr.
  rewrite Hname in *. split; [done|]. exists o2. split; [done|].
  by rewrite lookup_insert_eq.
Qed.

End process_image_effects.

Lemma process_image_name_clash_witness :
  let files1 :=
    (Classification.process_image Example.env Example.self Scenario.pictures
       "in/a.jpg" tt Example.labels).1 in
  let files2 :=
    (Classification.process_image Example.env Example.self files1
       "more/a.jpg" tt Example.labels).1 in
  "out/cat/a.jpg" = "out/cat/a.jpg"
  ∧ ∃ opened2,
      World.Image_open files1 "more/a.jpg" = inr opened2
      ∧ files2 !! "out/cat/a.jpg"
        = Some (World.Picture (World.convert opened2 "RGB")).
Proof.
  intros files1 files2.
  apply (process_image_name_clash Example.env Example.self Scenario.pictures
           "in/a.jpg" "more/a.jpg" tt Example.labels files1 files2 "cat"
           0.875%float 0.875%float); reflexivity.
Defined.


(** ** More on [_adjust_color]: the inputs it takes and the ends of the scale *)

Section adjust_color_inputs.
Import ThemeManager.
Local Open Scope Z_scope.





Lemma substring_short n m s :
  (String.length s ≤ n)%nat → String.substring n m s = EmptyString.
Proof.
  revert n. induction s as [|c s IH]; intros n Hn.
  - by destruct n, m.
  - destruct n as [|n]; [simpl in Hn; lia|].
    simpl. apply IH. simpl in Hn. lia.
Qed.

(** X8. A colour with fewer than five characters after the ['#'] signs, such as
    the short form ['#fff'], makes [_adjust_color] raise: the slice for the
    blue channel is empty and [int('', 16)] is a ValueError.  For every
    factor. *)
Theorem adjust_color_short_raises s factor :
  (String.length (Py.lstrip_hash s) ≤ 4)%nat → adjust_color s factor = None.
Proof.
  intros Hlen. rewrite adjust_color_channels.
  assert (parse_rgb s = None) as ->; [|done].
  unfold parse_rgb, Py.slice.
  rewrite (substring_short 4) by done.
  destruct (Py.int16 (String.substring 0 _ _)) as [r|]; simpl; [|done].
  by destruct (Py.int16 (String.substring 2 _ _)) as [g|].
Qed.

Lemma adjust_channel_ends c :
  is_byte c →
  adjust_channel c (brightness_factor 0) = Some 0
  ∧ adjust_channel c (brightness_factor 200) = Some 255.
Proof.
  intros Hc.
  pose (ends_ok := λ c : Z,
          bool_decide (adjust_channel c (brightness_factor 0) = Some 0)
          && bool_decide (adjust_channel c (brightness_factor 200)
                          = Some 255)).
  assert (ends_ok c = true) as [H0 H200]%andb_prop.
  { apply (forallb_seqZ ends_ok 0 256); [|unfold is_byte in Hc; lia].
    vm_compute. reflexivity. }
  by apply bool_decide_eq_true in H0, H200.
Qed.

(** X9. The ends of the scale: at brightness 0 (factor 0.0) every colour becomes
    black, at brightness 200 (factor 2.0) every colour becomes white. *)
Theorem adjust_color_ends s :
  is_hex_color s = true →
  adjust_color s (brightness_factor 0) = Some "#000000"
  ∧ adjust_color s (brightness_factor 200) = Some "#ffffff".
Proof.
  intros Hs.
  destruct (parse_rgb_hex_color s Hs) as (r & g & b & Hrgb & Hr & Hg & Hb).
  rewrite !adjust_color_channels, Hrgb. cbn [mbind option_bind].
  destruct (adjust_channel_ends r Hr) as [-> ->].
  destruct (adjust_channel_ends g Hg) as [-> ->].
  by destruct (adjust_channel_ends b Hb) as [-> ->].
Qed.

End adjust_color_inputs.


Lemma adjust_color_short_raises_witness :
  ThemeManager.adjust_color "#fff" 1.5 = None.
Proof. apply (adjust_color_short_raises "#fff" 1.5). simpl. lia. Defined.

Lemma adjust_color_ends_witness :
  ThemeManager.adjust_color "#0077ED" (ThemeManager.brightness_factor 0)
  = Some "#000000"
  ∧ ThemeManager.adjust_color "#0077ED" (ThemeManager.brightness_factor 200)
    = Some "#ffffff".
Proof. apply (adjust_color_ends "#0077ED"). reflexivity. Defined.


(** ** The brightness control *)

Section brightness_control_facts.
Import BrightnessControl.
Local Open Scope Z_scope.


Lemma bound_id value : in_range value → bound value = value.
Proof. unfold in_range, bound, minimum, maximum. lia. Qed.







(** X12. Dim and Bright undo each other away from the ends of the slider: from a
    value of at least 60, Dim followed by Bright brings the control back to
    where it was, and so does Bright followed by Dim from a value of at most
    140.  At 50 Dim changes nothing and emits nothing, and likewise Bright
    at 150. *)
Theorem dim_bright_inverse w :
  in_range (slider_value w) → in_sync w →
  (60 ≤ slider_value w → (handle_all [DimClicked; BrightClicked] w).1 = w)
  ∧ (slider_value w ≤ 140 → (handle_all [BrightClicked; DimClicked] w).1 = w)
  ∧ (slider_value w = 50 → handle DimClicked w = (w, []))
  ∧ (slider_value w = 150 → handle BrightClicked w = (w, [])).
Proof.
  destruct w as [v label]. unfold in_range, in_sync, minimum, maximum.
  simpl. intros Hv ->.
  assert (∀ x y l, 50 ≤ x ≤ 150 → x ≠ y →
            setValue x (Widget y l)
            = (Widget x (pretty x +:+ "%"), [x])) as Hset.
  { intros x y l Hx Hxy. unfold setValue. rewrite bound_id by done.
    simpl. by rewrite decide_False. }
  assert (∀ x l, 50 ≤ x ≤ 150 → setValue x (Widget x l) = (Widget x l, []))
    as Hsame.
  { intros x l Hx. unfold setValue. rewrite bound_id by done.
    simpl. by rewrite decide_True. }
  unfold handle_all, handle, on_dim_clicked, on_bright_clicked, minimum,
    maximum. simpl.
  split_and!.
  - intros H60. rewrite Z.max_l, (Hset (v - 10)) by lia. simpl.
    rewrite Z.min_l by lia. replace (v - 10 + 10) with v by lia.
    by rewrite Hset by lia.
  - intros H140. rewrite Z.min_l, (Hset (v + 10)) by lia. simpl.
    rewrite Z.max_l by lia. replace (v + 10 - 10) with v by lia.
    by rewrite Hset by lia.
  - intros ->. by rewrite Z.max_r, Hsame by lia.
  - intros ->. by rewrite Z.min_r, Hsame by lia.
Qed.

End brightness_control_facts.

Lemma dim_bright_inverse_witness :
  let w := BrightnessControl.init 100 in
  (60 ≤ 100 →
   (BrightnessControl.handle_all
      [BrightnessControl.DimClicked; BrightnessControl.BrightClicked] w).1 = w)%Z
  ∧ (100 ≤ 140 →
     (BrightnessControl.handle_all
        [BrightnessControl.BrightClicked; BrightnessControl.DimClicked] w).1 = w)%Z
  ∧ (100 = 50 →
     BrightnessControl.handle BrightnessControl.DimClicked w = (w, []))%Z
  ∧ (100 = 150 →
     BrightnessControl.handle BrightnessControl.BrightClicked w = (w, []))%Z.
Proof.
  intros w.
  apply (dim_bright_inverse (BrightnessControl.init 100)).
  - vm_compute. split; discriminate.
  - reflexivity.
Defined.


(** ** The license *)

Section license_facts.
Import QSettings LicenseManager.
Context (sha256_hexdigest : string → string).

Local Abbreviation hash_key := (LicenseManager.hash_key sha256_hexdigest).
Local Abbreviation is_valid_license :=
  (LicenseManager.is_valid_license sha256_hexdigest).
Local Abbreviation save_license :=
  (LicenseManager.save_license sha256_hexdigest).

(** X13. [is_valid_license] returns True exactly when the settings hold the
    correct key, as a string, together with the salted digest of it, and
    the digest is not empty; it accepts no other key and no other hash. *)
Theorem valid_license_iff st :
  is_valid_license st = inr true
  ↔ st !! "license/key" = Some (Str correct_key)
    ∧ st !! "license/hash" = Some (Str (hash_key correct_key))
    ∧ hash_key correct_key ≠ EmptyString.
Proof.
  unfold LicenseManager.is_valid_license. split.
  - destruct (st !! "license/key") as [saved_key|]; [|done].
    destruct (st !! "license/hash") as [saved_hash|]; [|done].
    destruct (truthy saved_key) eqn:Hkey; [|done].
    destruct (truthy saved_hash) eqn:Hhash; [|done]. simpl.
    destruct saved_key as [key| |]; [|done..].
    destruct (bool_decide (Str (hash_key key) = saved_hash)) eqn:Heq; [|done].
    destruct (bool_decide (key = correct_key)) eqn:Hcorrect; [|done].
    apply bool_decide_eq_true in Heq, Hcorrect. subst. intros _.
    split_and!; [done..|]. intros Hempty. simpl in Hhash.
    by rewrite Hempty in Hhash.
  - intros (-> & -> & Hhash). simpl.
    rewrite (bool_decide_eq_false_2 (hash_key correct_key = EmptyString))
      by done.
    simpl. by rewrite !bool_decide_eq_true_2.
Qed.

(** X14. [save_license] stores the correct key and nothing else: with any other
    key it returns False and leaves the settings as they are; with the
    correct key it returns True and, the digest of SHA-256 not being empty,
    [is_valid_license] returns True afterwards.  Keys other than the
    license's two are not touched. *)
Theorem save_license_round_trip st key :
  hash_key correct_key ≠ EmptyString →
  (key ≠ correct_key → save_license st key = (st, false))
  ∧ (key = correct_key →
     ∃ st', save_license st key = (st', true)
            ∧ is_valid_license st' = inr true
            ∧ ∀ k, k ≠ "license/key" → k ≠ "license/hash" →
                   st' !! k = st !! k).
Proof.
  intros Hhash. unfold LicenseManager.save_license. split.
  - intros Hkey. by rewrite bool_decide_eq_false_2.
  - intros ->. rewrite bool_decide_eq_true_2 by done.
    eexists. split; [done|]. split.
    + unfold LicenseManager.is_valid_license.
      rewrite lookup_insert_ne, !lookup_insert_eq by done. simpl.
      rewrite (bool_decide_eq_false_2 (hash_key correct_key = EmptyString))
        by done.
      simpl. by rewrite !bool_decide_eq_true_2.
    + intros k Hk1 Hk2. by rewrite !lookup_insert_ne.
Qed.

End license_facts.

Lemma save_license_round_trip_witness :
  let sha256_hexdigest := λ data : string, "00" +:+ data in
  ("key" ≠ LicenseManager.correct_key →
   LicenseManager.save_license sha256_hexdigest ∅ "key" = (∅, false))
  ∧ ("key" = LicenseManager.correct_key →
     ∃ st', LicenseManager.save_license sha256_hexdigest ∅ "key" = (st', true)
            ∧ LicenseManager.is_valid_license sha256_hexdigest st' = inr true
            ∧ ∀ k, k ≠ "license/key" → k ≠ "license/hash" →
                   st' !! k = (∅ : QSettings.settings) !! k).
Proof.
  intros sha256_hexdigest.
  apply (save_license_round_trip sha256_hexdigest ∅ "key"). discriminate.
Defined.


(** ** The recent files *)

Section recent_files_facts.
Import QSettings RecentFiles.
Local Open Scope nat_scope.

Lemma remove_sublist x l : remove x l `sublist_of` l.
Proof.
  induction l as [|y l IH]; [done|]. simpl.
  destruct (decide (y = x)); [by apply sublist_cons|by apply sublist_skip].
Qed.

Lemma filter_absent (x : string) (l : list string) :
  x ∉ l → filter (λ y, y ≠ x) l = l.
Proof.
  induction l as [|y l IH]; [done|]. intros [Hy Hl]%not_elem_of_cons.
  rewrite filter_cons, decide_True by done. by rewrite IH.
Qed.

Lemma remove_filter x l :
  NoDup l → remove x l = filter (λ y, y ≠ x) l.
Proof.
  induction 1 as [|y l Hy Hl IH]; [done|]. simpl. rewrite filter_cons.
  destruct (decide (y = x)) as [->|Hne].
  - rewrite decide_False by (by intros []). by rewrite filter_absent.
  - by rewrite decide_True, IH by done.
Qed.

(** The list [add_to_recent_files] writes. *)
Lemma add_to_recent_files_paths st path :
  path ≠ EmptyString →
  ∃ rest,
    rest `sublist_of` recent_paths st
    ∧ (NoDup (recent_paths st) → rest = filter (λ y, y ≠ path) (recent_paths st))
    ∧ add_to_recent_files st path
      = (<["recent/paths" := List (take 10 (path :: rest))]> st,
         Some (update_recent_menu
                 (<["recent/paths" := List (take 10 (path :: rest))]> st))).
Proof.
  intros Hpath. unfold add_to_recent_files.
  rewrite bool_decide_eq_false_2 by done.
  destruct (bool_decide (path ∈ recent_paths st)) eqn:Hin.
  - exists (remove path (recent_paths st)).
    split_and!; [apply remove_sublist|apply remove_filter|done].
  - exists (recent_paths st). split_and!; [done| |done].
    intros _. symmetry. apply filter_absent.
    by apply bool_decide_eq_false in Hin.
Qed.

Lemma recent_paths_insert st l :
  recent_paths (<["recent/paths" := List l]> st) = l.
Proof. unfold recent_paths. by rewrite lookup_insert_eq. Qed.

(** X15. After [add_to_recent_files(path)] with a non-empty path, the list of
    recent paths starts with [path] and has ten entries at most; its other
    entries are entries of the list before, in their order; when that list
    had no duplicates, the new one is [path] followed by the old entries
    other than [path], cut after ten, and has no duplicates either.  No
    other setting changes, and the menu is rebuilt from the new list. *)
Theorem recent_files_add st path :
  path ≠ EmptyString →
  ∃ st' rest,
    add_to_recent_files st path = (st', Some (update_recent_menu st'))
    ∧ recent_paths st' = take 10 (path :: rest)
    ∧ rest `sublist_of` recent_paths st
    ∧ length (recent_paths st') ≤ 10
    ∧ (NoDup (recent_paths st) →
       rest = filter (λ y, y ≠ path) (recent_paths st)
       ∧ NoDup (recent_paths st'))
    ∧ ∀ k, k ≠ "recent/paths" → st' !! k = st !! k.
Proof.
  intros Hpath.
  destruct (add_to_recent_files_paths st path Hpath)
    as (rest & Hsub & Hfilter & ->).
  eexists _, rest. split; [done|]. rewrite recent_paths_insert.
  split_and!; [done|done| | |].
  - rewrite length_take. lia.
  - intros Hnodup. split; [by apply Hfilter|].
    eapply sublist_NoDup; [|apply sublist_take].
    apply NoDup_cons. split.
    + rewrite (Hfilter Hnodup). rewrite list_elem_of_filter. by intros [? _].
    + by eapply sublist_NoDup.
  - intros k Hk. by rewrite lookup_insert_ne.
Qed.

(** X16. Adding the same path twice in a row is the same as adding it once. *)
Theorem recent_files_add_twice st path :
  add_to_recent_files (add_to_recent_files st path).1 path
  = add_to_recent_files st path.
Proof.
  destruct (decide (path = EmptyString)) as [->|Hpath]; [done|].
  destruct (add_to_recent_files_paths st path Hpath) as (rest & _ & _ & ->).
  cbn [fst]. unfold add_to_recent_files at 1.
  rewrite bool_decide_eq_false_2 by done. rewrite recent_paths_insert.
  cbn [take].
  rewrite bool_decide_eq_true_2 by apply list_elem_of_here.
  cbn [remove]. rewrite decide_True by done.
  rewrite insert_insert_eq.
  by rewrite take_take.
Qed.

(** [clear_recent_files] empties the list and leaves the menu with its
    single, disabled entry. *)
Lemma clear_recent_files_spec st :
  recent_paths (clear_recent_files st).1 = []
  ∧ (clear_recent_files st).2 = [Action "No recent files" None false].
Proof.
  unfold clear_recent_files. simpl. unfold update_recent_menu.
  by rewrite !recent_paths_insert.
Qed.

End recent_files_facts.

Lemma recent_files_add_witness :
  let st : QSettings.settings :=
    {[ "recent/paths" := QSettings.List ["labels.txt"; "model.h5"; "in"] ]} in
  ∃ st' rest,
    RecentFiles.add_to_recent_files st "model.h5"
    = (st', Some (RecentFiles.update_recent_menu st'))
    ∧ RecentFiles.recent_paths st' = take 10 ("model.h5" :: rest)
    ∧ rest `sublist_of` RecentFiles.recent_paths st
    ∧ (length (RecentFiles.recent_paths st') ≤ 10)%nat
    ∧ (NoDup (RecentFiles.recent_paths st) →
       rest = filter (λ y, y ≠ "model.h5") (RecentFiles.recent_paths st)
       ∧ NoDup (RecentFiles.recent_paths st'))
    ∧ ∀ k, k ≠ "recent/paths" → st' !! k = st !! k.
Proof.
  intros st. apply (recent_files_add st "model.h5"). discriminate.
Defined.


(** ** The theme manager *)

Section theme_manager_facts.
Import QSettings Theme.
Local Open Scope Z_scope.
Context (DARKDETECT_AVAILABLE : bool).

Local Abbreviation manager := Theme.manager.
Local Abbreviation apply_theme := Theme.apply_theme.
Local Abbreviation save_settings := (Theme.save_settings DARKDETECT_AVAILABLE).
Local Abbreviation detect_system_theme :=
  (Theme.detect_system_theme DARKDETECT_AVAILABLE).
Local Abbreviation on_system_theme_change :=
  (Theme.on_system_theme_change DARKDETECT_AVAILABLE).
Local Abbreviation set_theme_mode :=
  (Theme.set_theme_mode DARKDETECT_AVAILABLE).
Local Abbreviation set_brightness := (Theme.set_brightness DARKDETECT_AVAILABLE).
Local Abbreviation toggle_theme := (Theme.toggle_theme DARKDETECT_AVAILABLE).
Local Abbreviation handle := (Theme.handle DARKDETECT_AVAILABLE).
Local Abbreviation handle_all := (Theme.handle_all DARKDETECT_AVAILABLE).

(** Between 0 and 200 every colour of the two palettes is defined, so the
    stylesheet is. *)
Lemma adjust_color_defined s p :
  ThemeManager.is_hex_color s = true → 0 ≤ p ≤ 200 →
  ∃ out, ThemeManager.adjust_color s (ThemeManager.brightness_factor p)
         = Some out.
Proof.
  intros Hs Hp.
  destruct (parse_rgb_hex_color s Hs) as (r & g & b & Hrgb & _).
  destruct (adjust_color_spec s r g b p Hs Hrgb Hp)
    as (r' & g' & b' & _ & _ & _ & _ & _ & _ & -> & _).
  eauto.
Qed.

Lemma stylesheet_defined theme p :
  0 ≤ p ≤ 200 → ∃ css, stylesheet theme p = Some css.
Proof.
  intros Hp. unfold stylesheet.
  destruct (bool_decide (theme = "dark"));
    repeat (match goal with
            | |- context [ThemeManager.adjust_color ?s _] =>
                let H := fresh in
                destruct (adjust_color_defined s p eq_refl Hp) as [? H];
                rewrite H; clear H; cbn [mbind option_bind]
            end);
    eauto.
Qed.

Lemma apply_theme_spec (m : manager) :
  0 ≤ brightness m ≤ 200 →
  ∃ css,
    stylesheet (current_theme m) (brightness m) = Some css
    ∧ apply_theme m
      = Some (Manager (current_theme m) (brightness m) (settings m)
                (main_window m) (style_sheets m ++ [css])
                (if main_window m then S (theme_ui_updates m)
                 else theme_ui_updates m)
                (system_is_dark m)).
Proof.
  intros Hb. destruct (stylesheet_defined (current_theme m) _ Hb) as [css H].
  exists css. split; [done|]. unfold Theme.apply_theme. by rewrite H.
Qed.

Lemma apply_theme_ok (m : manager) :
  well_formed m →
  ∃ m', apply_theme m = Some m'
        ∧ current_theme m' = current_theme m
        ∧ brightness m' = brightness m
        ∧ settings m' = settings m
        ∧ main_window m' = main_window m
        ∧ system_is_dark m' = system_is_dark m
        ∧ (∃ css, stylesheet (current_theme m) (brightness m) = Some css
                  ∧ style_sheets m' = (style_sheets m ++ [css])%list).
Proof.
  intros [_ Hb]. destruct (apply_theme_spec m Hb) as (css & Hcss & ->).
  eexists. split; [done|]. simpl. split_and!; eauto.
Qed.

Lemma light_or_dark (theme : string) :
  theme ∈ ["light"; "dark"] ↔ theme = "light" ∨ theme = "dark".
Proof.
  rewrite !elem_of_cons, elem_of_nil. tauto.
Qed.

Lemma well_formed_theme (m : manager) theme :
  well_formed m → theme ∈ ["light"; "dark"] →
  well_formed (with_theme m theme).
Proof. by intros [_ ?] ?. Qed.

Lemma save_settings_spec (m : manager) :
  current_theme (save_settings m) = current_theme m
  ∧ brightness (save_settings m) = brightness m
  ∧ main_window (save_settings m) = main_window m
  ∧ style_sheets (save_settings m) = style_sheets m
  ∧ theme_ui_updates (save_settings m) = theme_ui_updates m
  ∧ system_is_dark (save_settings m) = system_is_dark m
  ∧ settings (save_settings m) !! "theme/brightness"
    = Some (Int (brightness m))
  ∧ settings (save_settings m) !! "theme/chosen_mode"
    = settings m !! "theme/chosen_mode"
  ∧ settings (save_settings m) !! "theme/mode"
    = Some (Str (if DARKDETECT_AVAILABLE
                    && bool_decide (default (Str (current_theme m))
                                      (settings m !! "theme/chosen_mode")
                                    = Str "auto")
                 then "auto" else current_theme m)).
Proof.
  unfold Theme.save_settings.
  destruct (DARKDETECT_AVAILABLE && _); simpl; split_and!; try done;
    by repeat (rewrite lookup_insert_eq || rewrite lookup_insert_ne by done).
Qed.

Lemma detect_system_theme_ok (m : manager) :
  well_formed m →
  ∃ m', detect_system_theme m = Some m'
        ∧ well_formed m'
        ∧ brightness m' = brightness m
        ∧ settings m' = settings m
        ∧ main_window m' = main_window m
        ∧ system_is_dark m' = system_is_dark m
        ∧ style_sheets m `prefix_of` style_sheets m'
        ∧ current_theme m'
          = (if DARKDETECT_AVAILABLE
             then if system_is_dark m then "dark" else "light"
             else current_theme m).
Proof.
  intros Hm. unfold Theme.detect_system_theme.
  destruct DARKDETECT_AVAILABLE; [|by exists m].
  case_bool_decide as Hne.
  - destruct (apply_theme_ok (with_theme m
                (if system_is_dark m then "dark" else "light")))
      as (m' & -> & Ht & Hb & Hs & Hw & Hd & css & _ & Hcss).
    { apply well_formed_theme; [done|]. apply light_or_dark.
      destruct (system_is_dark m); auto. }
    exists m'. split; [done|]. simpl in *.
    split_and!; try done.
    + split; [rewrite Ht|rewrite Hb; apply Hm].
      apply light_or_dark. destruct (system_is_dark m); auto.
    + rewrite Hcss. by apply prefix_app_r.
  - exists m. split_and!; done || by try apply dec_stable in Hne.
Qed.

Lemma set_theme_mode_manual mode (m : manager) :
  well_formed m → mode ∈ ["light"; "dark"] →
  ∃ css m',
    stylesheet mode (brightness m) = Some css
    ∧ set_theme_mode mode m = Some m'
    ∧ current_theme m' = mode
    ∧ brightness m' = brightness m
    ∧ main_window m' = main_window m
    ∧ system_is_dark m' = system_is_dark m
    ∧ style_sheets m' = (style_sheets m ++ [css])%list
    ∧ settings m' !! "theme/chosen_mode" = Some (Str mode)
    ∧ settings m' !! "theme/mode" = Some (Str mode)
    ∧ settings m' !! "theme/brightness" = Some (Int (brightness m)).
Proof.
  intros Hm Hmode. unfold Theme.set_theme_mode.
  assert (mode ≠ "auto") as Hauto.
  { by apply light_or_dark in Hmode as [-> | ->]. }
  rewrite (bool_decide_eq_false_2 (mode = "auto")) by done.
  rewrite (bool_decide_eq_true_2 (mode ∈ ["light"; "dark"])) by done.
  cbn [andb].
  set (m1 := Theme.setValue "theme/mode" (Str mode)
               (Theme.setValue "theme/chosen_mode" (Str mode) m)).
  assert (∃ css m2,
            stylesheet mode (brightness m) = Some css
            ∧ (if bool_decide (current_theme m1 ≠ mode)
               then apply_theme (with_theme m1 mode) else apply_theme m1)
              = Some m2
            ∧ current_theme m2 = mode
            ∧ brightness m2 = brightness m
            ∧ settings m2 = settings m1
            ∧ main_window m2 = main_window m
            ∧ system_is_dark m2 = system_is_dark m
            ∧ style_sheets m2 = (style_sheets m ++ [css])%list)
    as (css & m2 & Hcss & -> & Ht & Hb & Hs & Hw & Hd & Hsheets).
  { case_bool_decide as Hne.
    - destruct (apply_theme_ok (with_theme m1 mode))
        as (m2 & -> & ? & ? & ? & ? & ? & css & ? & ?);
        [by apply well_formed_theme|].
      by exists css, m2.
    - try apply dec_stable in Hne.
      destruct (apply_theme_ok m1)
        as (m2 & -> & ? & ? & ? & ? & ? & css & Hcss & ?); [done|].
      rewrite Hne in Hcss. exists css, m2. split_and!; try done. congruence. }
  exists css, (save_settings m2). split; [done|]. split; [done|].
  destruct (save_settings_spec m2)
    as (-> & -> & -> & -> & _ & -> & -> & -> & ->).
  rewrite Hs. subst m1. simpl.
  rewrite lookup_insert_ne, lookup_insert_eq by done. simpl.
  rewrite (bool_decide_eq_false_2 (Str mode = Str "auto")) by congruence.
  rewrite andb_false_r. split_and!; congruence.
Qed.

Lemma set_theme_mode_ok mode (m : manager) :
  well_formed m →
  ∃ m', set_theme_mode mode m = Some m'
        ∧ well_formed m'
        ∧ main_window m' = main_window m
        ∧ style_sheets m `prefix_of` style_sheets m'.
Proof.
  intros Hm.
  destruct (decide (mode ∈ ["light"; "dark"])) as [Hmode|Hmode].
  { destruct (set_theme_mode_manual mode m Hm Hmode)
      as (css & m' & _ & -> & Ht & Hb & Hw & _ & Hsheets & _).
    exists m'. split_and!; [done| |done|].
    - split; [by rewrite Ht|rewrite Hb; apply Hm].
    - rewrite Hsheets. by apply prefix_app_r. }
  unfold Theme.set_theme_mode.
  rewrite (bool_decide_eq_false_2 (mode ∈ ["light"; "dark"])) by done.
  destruct (bool_decide (mode = "auto") && DARKDETECT_AVAILABLE).
  - set (m1 := Theme.setValue "theme/mode" (Str "auto")
                 (Theme.setValue "theme/chosen_mode" (Str "auto") m)).
    destruct (detect_system_theme_ok m1)
      as (m2 & -> & [Ht Hb] & _ & _ & Hw & _ & Hpre & _); [done|].
    exists (save_settings m2). split; [done|].
    destruct (save_settings_spec m2) as (Et & Eb & Ew & Es & _).
    unfold well_formed. rewrite Et, Eb, Ew, Es.
    split_and!; done || lia.
  - exists (save_settings m). split; [done|].
    destruct (save_settings_spec m) as (Et & Eb & Ew & Es & _).
    unfold well_formed. rewrite Et, Eb, Ew, Es.
    destruct Hm. split_and!; done || lia.
Qed.

Lemma set_brightness_spec value (m : manager) :
  0 ≤ value ≤ 200 →
  ∃ css m',
    stylesheet (current_theme m) value = Some css
    ∧ set_brightness value m = Some m'
    ∧ current_theme m' = current_theme m
    ∧ brightness m' = value
    ∧ main_window m' = main_window m
    ∧ style_sheets m' = (style_sheets m ++ [css])%list
    ∧ settings m' = settings (save_settings (with_brightness m value))
    ∧ settings m' !! "theme/brightness" = Some (Int value).
Proof.
  intros Hv. unfold Theme.set_brightness.
  destruct (save_settings_spec (with_brightness m value))
    as (Ht & Hb & Hw & Hsheets & _ & _ & Hsaved & _).
  change (current_theme (with_brightness m value)) with (current_theme m)
    in Ht.
  change (brightness (with_brightness m value)) with value in Hb, Hsaved.
  change (main_window (with_brightness m value)) with (main_window m) in Hw.
  change (style_sheets (with_brightness m value)) with (style_sheets m)
    in Hsheets.
  destruct (apply_theme_spec (save_settings (with_brightness m value)))
    as (css & Hcss & ->); [by rewrite Hb|].
  rewrite Ht, Hb in Hcss. exists css. eexists. split; [done|].
  split; [done|].
  cbn [current_theme brightness main_window style_sheets settings].
  by rewrite Ht, Hb, Hw, Hsheets.
Qed.

Lemma toggle_theme_spec (m : manager) :
  well_formed m →
  let new_theme :=
    if bool_decide (current_theme m = "dark") then "light" else "dark" in
  toggle_theme m = set_theme_mode new_theme m
  ∧ new_theme ∈ ["light"; "dark"]
  ∧ new_theme ≠ current_theme m.
Proof.
  intros [Ht _]. cbv zeta. split; [done|].
  apply light_or_dark in Ht.
  case_bool_decide as Hdark; [rewrite Hdark|];
    (split; [apply light_or_dark; auto|]); [done|].
  destruct Ht as [Ht | Ht]; congruence.
Qed.

Lemma on_system_theme_change_ok b (m : manager) :
  well_formed m →
  ∃ m', on_system_theme_change b m = Some m'
        ∧ well_formed m'
        ∧ main_window m' = main_window m
        ∧ style_sheets m `prefix_of` style_sheets m'.
Proof.
  intros Hm. unfold Theme.on_system_theme_change.
  destruct (DARKDETECT_AVAILABLE && _); [|by exists m].
  case_bool_decide; [|by exists m].
  destruct (apply_theme_ok (with_theme m (if b then "dark" else "light")))
    as (m' & -> & Ht & Hb & _ & Hw & _ & css & _ & Hcss).
  { apply well_formed_theme; [done|]. apply light_or_dark.
    destruct b; auto. }
  exists m'. split_and!; [done| |done|].
  - split; [rewrite Ht|rewrite Hb; apply Hm].
    apply light_or_dark. destruct b; auto.
  - rewrite Hcss. by apply prefix_app_r.
Qed.

Lemma handle_ok e (m : manager) :
  well_formed m → event_ok e →
  ∃ m', handle e m = Some m'
        ∧ well_formed m'
        ∧ main_window m' = main_window m
        ∧ style_sheets m `prefix_of` style_sheets m'.
Proof.
  intros Hm He. destruct e as [mode|value| | |b|d]; simpl.
  - by apply set_theme_mode_ok.
  - destruct (set_brightness_spec value m He)
      as (css & m' & _ & -> & Ht & Hb & Hw & Hsheets & _).
    exists m'. split_and!; [done| |done|].
    + split; [rewrite Ht; apply Hm|by rewrite Hb].
    + rewrite Hsheets. by apply prefix_app_r.
  - destruct (toggle_theme_spec m Hm) as (-> & _). by apply set_theme_mode_ok.
  - destruct (apply_theme_ok m Hm)
      as (m' & -> & Ht & Hb & _ & Hw & _ & css & _ & Hcss).
    exists m'. split_and!; [done| |done|].
    + split; [rewrite Ht|rewrite Hb]; apply Hm.
    + rewrite Hcss. by apply prefix_app_r.
  - by apply on_system_theme_change_ok.
  - eexists. by split_and!.
Qed.

(** X17. Whatever is done to the manager, with brightness values between 0 and
    200, no operation raises, the theme stays one of ["light"] and ["dark"]
    (whatever mode strings are passed to [set_theme_mode]) and the
    brightness stays between 0 and 200; the stylesheets handed to the
    application only accumulate. *)
Theorem theme_manager_invariant events (m : manager) :
  well_formed m → Forall event_ok events →
  ∃ m', handle_all events m = Some m'
        ∧ well_formed m'
        ∧ main_window m' = main_window m
        ∧ style_sheets m `prefix_of` style_sheets m'.
Proof.
  intros Hm Hevents. revert m Hm.
  induction Hevents as [|e events He _ IH]; intros m Hm; [by exists m|].
  destruct (handle_ok e m Hm He) as (m1 & H1 & Hm1 & Hw1 & Hpre1).
  destruct (IH m1 Hm1) as (m2 & H2 & Hm2 & Hw2 & Hpre2).
  exists m2. cbn [Theme.handle_all]. rewrite H1. simpl.
  split_and!; [done|done|congruence|by etrans].
Qed.

(** X18. [toggle_theme] switches between the two themes: from a manager whose
    theme is light or dark it gives the other one, applies one stylesheet,
    records the new theme as the mode chosen and as the mode, and a second
    toggle brings the theme back.  The brightness is not touched. *)
Theorem toggle_theme_twice (m : manager) :
  well_formed m →
  ∃ m1 m2,
    toggle_theme m = Some m1
    ∧ toggle_theme m1 = Some m2
    ∧ current_theme m1 ≠ current_theme m
    ∧ current_theme m2 = current_theme m
    ∧ brightness m1 = brightness m ∧ brightness m2 = brightness m
    ∧ settings m1 !! "theme/chosen_mode" = Some (Str (current_theme m1))
    ∧ settings m1 !! "theme/mode" = Some (Str (current_theme m1))
    ∧ length (style_sheets m1) = S (length (style_sheets m))
    ∧ length (style_sheets m2) = S (S (length (style_sheets m))).
Proof.
  intros Hm. destruct (toggle_theme_spec m Hm) as (E & Hnew & Hne).
  destruct (set_theme_mode_manual _ m Hm Hnew)
    as (css1 & m1 & _ & E' & Ht1 & Hb1 & _ & _ & Hs1 & Hchosen & Hmode & _).
  rewrite E' in E. clear E'.
  assert (well_formed m1) as Hm1.
  { split; [by rewrite Ht1|rewrite Hb1; apply Hm]. }
  destruct (toggle_theme_spec m1 Hm1) as (E1 & Hnew' & Hne').
  destruct (set_theme_mode_manual _ m1 Hm1 Hnew')
    as (css2 & m2 & _ & E' & Ht2 & Hb2 & _ & _ & Hs2 & _).
  rewrite E' in E1. clear E'.
  exists m1, m2. split_and!; try done.
  - by rewrite Ht1.
  - rewrite Ht2, Ht1. destruct Hm as [Ht%light_or_dark _].
    by destruct Ht as [-> | ->].
  - congruence.
  - by rewrite Ht1.
  - by rewrite Ht1.
  - rewrite Hs1, length_app. simpl. lia.
  - rewrite Hs2, Hs1, !length_app. simpl. lia.
Qed.

(** X19. A change of the system theme moves the manager only in automatic mode:
    when the settings hold a mode other than ["auto"], or the system theme
    cannot be detected, the callback changes nothing at all, whatever it is
    called with.  In automatic mode (["auto"] stored, or no mode stored)
    the theme becomes the one the callback is given, and a stylesheet is
    applied if and only if that is a change. *)
Theorem system_theme_change b (m : manager) :
  well_formed m →
  let automatic :=
    DARKDETECT_AVAILABLE
    && bool_decide (default (Str "auto") (settings m !! "theme/mode")
                    = Str "auto") in
  (automatic = false → on_system_theme_change b m = Some m)
  ∧ (automatic = true →
     ∃ m', on_system_theme_change b m = Some m'
           ∧ current_theme m' = (if b then "dark" else "light")
           ∧ brightness m' = brightness m
           ∧ settings m' = settings m
           ∧ (current_theme m' = current_theme m → m' = m)
           ∧ (current_theme m' ≠ current_theme m →
              length (style_sheets m') = S (length (style_sheets m)))).
Proof.
  intros Hm automatic. unfold Theme.on_system_theme_change. fold automatic.
  split; intros ->; [done|].
  case_bool_decide as Hne.
  - destruct (apply_theme_ok (with_theme m (if b then "dark" else "light")))
      as (m' & -> & Ht & Hb & Hs & _ & _ & css & _ & Hcss).
    { apply well_formed_theme; [done|]. apply light_or_dark.
      destruct b; auto. }
    exists m'. simpl in *. split_and!; try done.
    + intros Heq. by rewrite Ht in Heq.
    + intros _. rewrite Hcss, length_app. simpl. lia.
  - try apply dec_stable in Hne. exists m. by split_and!.
Qed.

End theme_manager_facts.

Section theme_restart.
Import QSettings Theme.
Local Open Scope Z_scope.
Context (int_of_str : string → option Z).




End theme_restart.

Lemma scenario_manager_well_formed : Theme.well_formed Scenario.manager.
Proof. split; [apply light_or_dark; auto|]. simpl. lia. Qed.

Lemma theme_manager_invariant_witness :
  ∃ m', Theme.handle_all true
          [Theme.SetBrightness 150; Theme.SetThemeMode "auto";
           Theme.SystemTheme true; Theme.OnSystemThemeChange true;
           Theme.SetThemeMode "sepia"; Theme.ToggleTheme]
          Scenario.manager = Some m'
        ∧ Theme.well_formed m'
        ∧ Theme.main_window m' = Theme.main_window Scenario.manager
        ∧ Theme.style_sheets Scenario.manager
          `prefix_of` Theme.style_sheets m'.
Proof.
  apply (theme_manager_invariant true _ Scenario.manager).
  - apply scenario_manager_well_formed.
  - repeat constructor; simpl; lia.
Defined.

Lemma toggle_theme_twice_witness :
  ∃ m1 m2,
    Theme.toggle_theme false Scenario.manager = Some m1
    ∧ Theme.toggle_theme false m1 = Some m2
    ∧ Theme.current_theme m1 ≠ Theme.current_theme Scenario.manager
    ∧ Theme.current_theme m2 = Theme.current_theme Scenario.manager
    ∧ Theme.brightness m1 = Theme.brightness Scenario.manager
    ∧ Theme.brightness m2 = Theme.brightness Scenario.manager
    ∧ Theme.settings m1 !! "theme/chosen_mode"
      = Some (QSettings.Str (Theme.current_theme m1))
    ∧ Theme.settings m1 !! "theme/mode"
      = Some (QSettings.Str (Theme.current_theme m1))
    ∧ length (Theme.style_sheets m1)
      = S (length (Theme.style_sheets Scenario.manager))
    ∧ length (Theme.style_sheets m2)
      = S (S (length (Theme.style_sheets Scenario.manager))).
Proof.
  apply (toggle_theme_twice false Scenario.manager).
  apply scenario_manager_well_formed.
Defined.

Lemma system_theme_change_witness :
  let m := Scenario.manager in
  let automatic :=
    true
    && bool_decide (default (QSettings.Str "auto")
                      (Theme.settings m !! "theme/mode")
                    = QSettings.Str "auto") in
  (automatic = false → Theme.on_system_theme_change true false m = Some m)
  ∧ (automatic = true →
     ∃ m', Theme.on_system_theme_change true false m = Some m'
           ∧ Theme.current_theme m' = (if false then "dark" else "light")
           ∧ Theme.brightness m' = Theme.brightness m
           ∧ Theme.settings m' = Theme.settings m
           ∧ (Theme.current_theme m' = Theme.current_theme m → m' = m)
           ∧ (Theme.current_theme m' ≠ Theme.current_theme m →
              length (Theme.style_sheets m')
              = S (length (Theme.style_sheets m)))).
Proof.
  intros m.
  apply (system_theme_change true false Scenario.manager).
  apply scenario_manager_well_formed.
Defined.



(** ** The brightness control in the settings dialog *)

Section dialog_facts.
Import QSettings Theme.
Local Open Scope Z_scope.
Context (DARKDETECT_AVAILABLE : bool).



End dialog_facts.


(** ** The slots of the main window *)

Section window_facts.
Import World Trace MainWindow.
Local Open Scope nat_scope.

Lemma count_of_increment c c' counts :
  count_of c (increment c' counts)
  = count_of c counts + (if decide (c' = c) then 1 else 0).
Proof.
  induction counts as [|[k n] counts IH]; simpl.
  - destruct (decide (c' = c)); lia.
  - destruct (decide (k = c')) as [->|Hk]; simpl.
    + destruct (decide (c' = c)); lia.
    + destruct (decide (k = c)) as [->|]; [|done].
      rewrite decide_False by done. lia.
Qed.

Lemma sum_counts_increment c counts :
  sum_counts (increment c counts) = S (sum_counts counts).
Proof.
  induction counts as [|[k n] counts IH]; [done|].
  cbn [increment]. destruct (decide (k = c)); [done|].
  change (sum_counts ((k, n) :: ?l)) with (n + sum_counts l).
  rewrite IH. lia.
Qed.

Lemma keys_increment c counts :
  (increment c counts).*1
  = if bool_decide (c ∈ counts.*1) then counts.*1
    else (counts.*1 ++ [c])%list.
Proof.
  induction counts as [|[k n] counts IH]; [done|].
  cbn [increment]. destruct (decide (k = c)) as [->|Hk].
  - rewrite !fmap_cons. cbn [fst].
    by rewrite bool_decide_eq_true_2 by apply list_elem_of_here.
  - rewrite !fmap_cons, IH. cbn [fst]. case_bool_decide as Hin.
    + by rewrite bool_decide_eq_true_2 by by apply list_elem_of_further.
    + rewrite bool_decide_eq_false_2; [done|].
      by intros [?|?]%elem_of_cons.
Qed.

Lemma NoDup_increment c counts :
  NoDup counts.*1 → NoDup (increment c counts).*1.
Proof.
  intros Hnodup. rewrite keys_increment. case_bool_decide as Hin; [done|].
  apply NoDup_app. split_and!; [done| |apply NoDup_singleton].
  intros x Hx ->%list_elem_of_singleton. done.
Qed.

(** What one slot does to the window. *)
Lemma deliver_spec s w w' :
  deliver s w = inr w' →
  total_processed w' = total_processed w + length (classes_in [s])
  ∧ (∀ c, count_of c (class_counts w')
          = count_of c (class_counts w)
            + length (filter (λ x, x = c) (classes_in [s])))
  ∧ error_boxes w' = (error_boxes w ++ errors_in [s])%list
  ∧ length (result_items w')
    = length (result_items w) + length (classes_in [s])
  ∧ (consistent w → consistent w').
Proof.
  assert (∀ w w' : window,
            total_processed w' = total_processed w →
            class_counts w' = class_counts w →
            results_list w' = results_list w →
            results_stats_label w' = results_stats_label w →
            total_processed w' = total_processed w + 0
            ∧ (∀ c, count_of c (class_counts w')
                    = count_of c (class_counts w) + 0)
            ∧ length (result_items w') = length (result_items w) + 0
            ∧ (consistent w → consistent w')) as Hsame.
  { clear. intros w w' Ht Hc Hr Hl. unfold consistent, result_items.
    rewrite Ht, Hc, Hr, Hl. split_and!; try done; intros; lia. }
  destruct s as [value maximum|p c conf| |msg]; cbn [deliver].
  - unfold update_progress. destruct maximum; [done|].
    destruct (Py.int_of_float _); [|done]. intros [= <-].
    destruct (Hsame w (Window (results_list w) (class_counts w)
                (total_processed w) (results_stats_label w)
                ("Processing images: " +:+ pretty value +:+ "/"
                 +:+ pretty (S maximum) +:+ " (" +:+ pretty z +:+ "%)")
                (error_boxes w))) as (? & ? & ? & ?); try done.
    split_and!; try done. by rewrite app_nil_r.
  - intros [= <-]. unfold add_result, classes_in.
    cbn [omap list_omap]. case_bool_decide as Hp.
    + unfold update_result_stats, result_items, consistent.
      cbn [total_processed class_counts results_list error_boxes
           results_stats_label length].
      rewrite filter_app, length_app. split_and!.
      * lia.
      * intros c'. rewrite count_of_increment, filter_cons, filter_nil.
        destruct (decide (c = c')); simpl; lia.
      * by rewrite app_nil_r.
      * done.
      * intros (Hsum & Hnodup & _).
        split_and!; [|by apply NoDup_increment|done].
        rewrite sum_counts_increment. by rewrite Hsum.
    + unfold result_items, consistent.
      cbn [total_processed class_counts results_list error_boxes
           results_stats_label length].
      rewrite filter_app, length_app.
      split_and!; [lia|intros; by rewrite filter_nil; simpl; lia
                  |by rewrite app_nil_r|simpl; lia|done].
  - intros [= <-].
    destruct (Hsame w (classification_finished w)) as (? & ? & ? & ?);
      try done.
    split_and!; try done. by rewrite app_nil_r.
  - intros [= <-].
    destruct (Hsame w (show_error msg w)) as (? & ? & ? & ?); try done.
Qed.

Lemma classes_in_cons s signals :
  classes_in (s :: signals) = (classes_in [s] ++ classes_in signals)%list.
Proof.
  destruct s as [? ?|p c f| |?]; try done.
  unfold classes_in. cbn [omap list_omap]. by case_bool_decide.
Qed.

Lemma errors_in_cons s signals :
  errors_in (s :: signals) = (errors_in [s] ++ errors_in signals)%list.
Proof. by destruct s. Qed.

Lemma deliver_all_spec signals w w' :
  deliver_all signals w = inr w' →
  total_processed w' = total_processed w + length (classes_in signals)
  ∧ (∀ c, count_of c (class_counts w')
          = count_of c (class_counts w)
            + length (filter (λ x, x = c) (classes_in signals)))
  ∧ error_boxes w' = (error_boxes w ++ errors_in signals)%list
  ∧ length (result_items w')
    = length (result_items w) + length (classes_in signals)
  ∧ (consistent w → consistent w').
Proof.
  revert w. induction signals as [|s signals IH]; intros w.
  { intros [= <-]. simpl.
    split_and!; [lia|intros; lia|by rewrite app_nil_r|lia|done]. }
  cbn [deliver_all]. destruct (deliver s w) as [e|w1] eqn:Hs; [done|].
  intros Hrest.
  destruct (deliver_spec s w w1 Hs) as (Ht1 & Hc1 & He1 & Hi1 & Hk1).
  destruct (IH w1 Hrest) as (Ht2 & Hc2 & He2 & Hi2 & Hk2).
  rewrite classes_in_cons, errors_in_cons, length_app.
  split_and!; [lia| |by rewrite He2, He1, app_assoc|lia|auto].
  intros c. rewrite Hc2, Hc1, filter_app, length_app. lia.
Qed.

(** X22. From a window whose results have been cleared, as [start_classification]
    does, and as long as no slot raises: the total is the number of results
    delivered, each class is counted as many times as results of that class
    were delivered, so the counts add up to the total; the list shows one
    item per result; there is one error box per error signal, in order; and
    the label shows the statistics. *)
Theorem window_statistics signals w w' :
  deliver_all signals (clear_results w) = inr w' →
  total_processed w' = length (classes_in signals)
  ∧ (∀ c, count_of c (class_counts w')
          = length (filter (λ x, x = c) (classes_in signals)))
  ∧ sum_counts (class_counts w') = total_processed w'
  ∧ NoDup (class_counts w').*1
  ∧ length (result_items w') = total_processed w'
  ∧ error_boxes w' = (error_boxes w ++ errors_in signals)%list
  ∧ results_stats_label w'
    = stats_text (class_counts w') (total_processed w').
Proof.
  intros (Ht & Hc & He & Hi & Hk)%deliver_all_spec. simpl in *.
  destruct Hk as (Hsum & Hnodup & Hlabel); [by split_and!; try apply NoDup_nil_2|].
  split_and!; try done. lia.
Qed.

End window_facts.

Section session_facts.
Import World Trace MainWindow.
Local Open Scope nat_scope.
Context {Value Layer Model : Type} (env : environment Value Layer Model).
Context (self : thread).

Lemma classes_in_results signals :
  EmptyString ∉ results_of signals →
  length (classes_in signals) = length (results_of signals).
Proof.
  induction signals as [|s signals IH]; [done|].
  rewrite classes_in_cons, length_app.
  destruct s as [? ?|p c f| |?]; try (intros ?; by rewrite IH).
  rewrite results_of_result. intros [Hp Hrest]%not_elem_of_cons.
  unfold classes_in at 1. cbn [omap list_omap].
  rewrite bool_decide_eq_true_2 by done. simpl. by rewrite IH.
Qed.

(** X23. The thread and the window together, in classification.py, which is the
    thread main.py starts: when the signals of a run are delivered to a
    window whose results were cleared, no slot raises and no discovered
    path is the empty string (which [add_result] takes for a message), the
    window has counted one result for every [result_update] of the run; it
    shows one item for each and its class counts add up to that number,
    which is at most the number of images less the failures, and exactly
    that once a run with a positive batch size is over without a stop. *)
Theorem session_statistics model labels image_files w w' :
  environment_ok env →
  Classification.setup env self = inr (model, labels, image_files) →
  EmptyString ∉ image_files →
  deliver_all (Classification.run env self) (clear_results w) = inr w' →
  total_processed w' = length (results_of (Classification.run env self))
  ∧ length (result_items w') = total_processed w'
  ∧ sum_counts (class_counts w') = total_processed w'
  ∧ total_processed w' + failures env model labels image_files
    ≤ length image_files
  ∧ (never_stopped env → 0 < batch_size self →
     total_processed w' + failures env model labels image_files
     = length image_files).
Proof.
  intros Henv Hsetup Hpaths (Ht & _ & _ & Hi & Hk)%deliver_all_spec.
  destruct Hk as (Hsum & _); [by split_and!; try apply NoDup_nil_2|].
  simpl in Ht, Hi.
  assert (length (classes_in (Classification.run env self))
          = length (results_of (Classification.run env self))
          ∧ length (results_of (Classification.run env self))
            + failures env model labels image_files ≤ length image_files
          ∧ (never_stopped env → 0 < batch_size self →
             length (results_of (Classification.run env self))
             + failures env model labels image_files = length image_files))
    as (Hclasses & Hle & Hall).
  { pose proof (successes_failures env model labels image_files) as Hsf.
    destruct (decide (batch_size self = 0)) as [HB|HB].
    { destruct (run_zero env self _ _ _ Hsetup HB) as (e & -> & _).
      split_and!; [done|simpl; lia|lia]. }
    assert (0 < batch_size self) as HB' by lia.
    rewrite (classification_run_batches env self _ _ _ Hsetup HB').
    pose proof (setup_NoDup env self _ _ _ Henv Hsetup) as Hnodup.
    pose proof (completed_batches env self image_files Henv HB') as Hperm.
    pose proof (concat_chunks image_files (batch_size self) HB') as Hcat.
    set (starts := (λ k, k * batch_size self)
                     <$> seq 0 (ceil_div (length image_files)
                                  (batch_size self))) in *.
    destruct (batch_loop_results env self model labels image_files starts 0)
      as [Hsub Hlen].
    destruct (batch_loop_progress env self model labels image_files Henv
                starts 0) as (m & Hm & Hmle & Hmall).
    change (Classification.batch_files self image_files)
      with (chunk image_files (batch_size self)) in Hmle, Hmall.
    rewrite Hcat in Hmle, Hmall.
    rewrite Hm, length_fmap, length_seq in Hlen.
    split_and!.
    - apply classes_in_results. rewrite results_of_snoc_finished.
      intros Hin. apply Hpaths. rewrite <- Hperm.
      exact (sublist_subseteq _ _ Hsub _ Hin).
    - rewrite results_of_snoc_finished. lia.
    - intros Hrun _. specialize (Hmall Hrun).
      rewrite results_of_snoc_finished. lia. }
  split_and!; [lia|lia|lia|lia|].
  intros Hrun HB. specialize (Hall Hrun HB). lia.
Qed.

End session_facts.

Lemma window_statistics_witness :
  let w := MainWindow.Window [] [] 0 "" "" [] in
  let signals := Classification.run Example.env Example.self in
  ∃ w',
    MainWindow.deliver_all signals (MainWindow.clear_results w) = inr w'
    ∧ MainWindow.total_processed w'
      = length (MainWindow.classes_in signals)
    ∧ (∀ c, MainWindow.count_of c (MainWindow.class_counts w')
            = length (filter (λ x, x = c) (MainWindow.classes_in signals)))
    ∧ MainWindow.sum_counts (MainWindow.class_counts w')
      = MainWindow.total_processed w'
    ∧ NoDup (MainWindow.class_counts w').*1
    ∧ length (MainWindow.result_items w') = MainWindow.total_processed w'
    ∧ MainWindow.error_boxes w'
      = (MainWindow.error_boxes w ++ MainWindow.errors_in signals)%list
    ∧ MainWindow.results_stats_label w'
      = MainWindow.stats_text (MainWindow.class_counts w')
          (MainWindow.total_processed w').
Proof.
  intros w signals. eexists.
  split; [vm_compute; reflexivity|].
  apply (window_statistics signals w). vm_compute. reflexivity.
Defined.

Lemma session_statistics_witness :
  let w := MainWindow.Window [] [] 0 "" "" [] in
  ∃ w',
    MainWindow.deliver_all (Classification.run Example.env Example.self)
      (MainWindow.clear_results w) = inr w'
    ∧ MainWindow.results_stats_label w'
      = "Total processed: 4 images | Classes: cat: 4 (100.0%)"
    ∧ MainWindow.total_processed w'
      = length (Trace.results_of
                  (Classification.run Example.env Example.self))
    ∧ length (MainWindow.result_items w') = MainWindow.total_processed w'
    ∧ MainWindow.sum_counts (MainWindow.class_counts w')
      = MainWindow.total_processed w'
    ∧ (MainWindow.total_processed w'
       + Trace.failures Example.env tt Example.labels Example.image_files
       ≤ length Example.image_files)%nat
    ∧ (World.never_stopped Example.env →
       (0 < World.batch_size Example.self)%nat →
       (MainWindow.total_processed w'
        + Trace.failures Example.env tt Example.labels Example.image_files
        = length Example.image_files)%nat).
Proof.
  intros w. eexists.
  split; [vm_compute; reflexivity|]. split; [vm_compute; reflexivity|].
  apply (session_statistics Example.env Example.self tt Example.labels
           Example.image_files w).
  - apply example_environment_ok.
  - vm_compute. reflexivity.
  - apply (bool_decide_unpack _). vm_compute. exact I.
  - vm_compute. reflexivity.
Defined.


(** ** ml.py: the errors of a batch that was begun *)

Section ml_errors_facts.
Import World Trace.
Local Open Scope nat_scope.
Context {Value Layer Model : Type} (env : environment Value Layer Model).
Context (self : thread).

Lemma ml_batch_loop_errors model labels image_files before i after n p e :
  Forall (λ i', running_at_batch env i' = true) before →
  running_at_batch env i = true →
  p ∈ as_completed env i (Ml.batch_files self image_files i) →
  outcome env model labels p = inl e →
  processing_error p e
  ∈ Ml.batch_loop env self model labels image_files
      (before ++ i :: after) n.
Proof.
  intros Hbefore Hi Hp He. revert n.
  induction Hbefore as [|i' before Hi' _ IH]; intros n.
  - cbn [app Ml.batch_loop]. rewrite Hi.
    pose proof (ml_drain_errors env model labels image_files i _ 0 n p e
                  Hp He) as Hin.
    destruct (Ml.drain _ _ _ _ i 0 _ n) as [[n' rs] sg].
    apply elem_of_app. by left.
  - cbn [app Ml.batch_loop]. rewrite Hi'.
    destruct (Ml.drain _ _ _ _ i' 0 _ n) as [[n' rs] sg].
    rewrite !elem_of_app. right. right. apply IH.
Qed.

(** X24. In ml.py the worker that processes an image emits the error itself, and
    leaving the [with] block waits for every worker of the batch.  So once
    a batch has begun, every image of it that fails is reported, even when
    the thread is stopped while the batch is under way (classification.py
    cancels the futures left and reports nothing more). *)
Theorem ml_errors_despite_stop model labels image_files k img_path e :
  environment_ok env →
  Classification.setup env self = inr (model, labels, image_files) →
  0 < batch_size self →
  (∀ k', k' ≤ k → running_at_batch env (k' * batch_size self) = true) →
  img_path ∈ chunk image_files (batch_size self) (k * batch_size self) →
  outcome env model labels img_path = inl e →
  processing_error img_path e ∈ Ml.run env self.
Proof.
  intros Henv Hsetup HB Hrun Hp He.
  rewrite (ml_run_batches env self _ _ _ Hsetup HB).
  apply elem_of_app. left.
  pose proof Hp as (j & Hj & Hk)%(elem_of_chunk image_files _ HB).
  pose proof (lookup_lt_Some _ _ _ Hj) as Hlen.
  pose proof (ceil_div_spec (length image_files) (batch_size self) HB)
    as [Hceil _].
  assert (k < ceil_div (length image_files) (batch_size self)) as Hlt by nia.
  replace (ceil_div (length image_files) (batch_size self))
    with (k + S (ceil_div (length image_files) (batch_size self) - S k))
    by lia.
  rewrite seq_app, fmap_app. cbn [seq fmap list_fmap].
  apply ml_batch_loop_errors; [|by apply Hrun| |done].
  - apply Forall_forall. intros i (k' & -> & Hk')%list_elem_of_fmap.
    apply elem_of_seq in Hk'. apply Hrun. lia.
  - by rewrite (as_completed_perm env Henv).
Qed.

End ml_errors_facts.

Lemma ml_errors_despite_stop_witness :
  Trace.processing_error "in/b.jpg"
    (Py.Exception "UnidentifiedImageError"
       "cannot identify image file 'in/b.jpg'")
  ∈ Ml.run Example.env_stopped Example.self.
Proof.
  apply (ml_errors_despite_stop Example.env_stopped Example.self tt
           Example.labels Example.image_files 0).
  - apply example_environment_ok.
  - vm_compute. reflexivity.
  - simpl. lia.
  - intros k' Hk'. by replace k' with 0 by lia.
  - apply (bool_decide_unpack _). vm_compute. exact I.
  - vm_compute. reflexivity.
Defined.
